(** * widdershins, lib/common.js: schema flattening and sample synthesis

    A shallow embedding of [inferType], [strim], [clean], [schemaToArray],
    [getSampleInner] and [getSample] of the JavaScript source, and the
    properties of them that the specification states; then the other
    functions of the file ([gfmLink], [slugify], [removeDupeBlankLines],
    [languageCheck], [getLanguageTarget], [getLanguageClient],
    [getCodeSamples] and what it calls) and properties that the code shows.

    Conventions of the embedding.
    - A JavaScript value is a finite tree ([value]): the input schemas are
      JSON-compatible trees.  Numbers are the integers ([Z]); an object is
      the list of its own enumerable properties in enumeration order.
    - A character of a Rocq [string] stands for one character of a
      JavaScript string.
    - Reading a property ([get]) of [undefined] or [null] gives [undefined]
      here; JavaScript throws a [TypeError] there, and the functions say so
      where they read one: where the result of a function is an [option],
      [None] is a thrown [TypeError] ([inferType] of a schema that is
      [undefined] or [null], the discriminator of a reference without a
      target); in [getSampleInner] and [getSample], whose subject is
      exceptions, every throw is explicit, that of [clean] and [strim] on
      an object that hides [hasOwnProperty] included.
    - In [schemaToArray] the statements that only fill the fields of a row
      left out of [Entry] are not modelled, nor the [TypeError]s they may
      throw: every run of the code that returns is a run of the model, with
      the same blocks and rows.
    - The libraries the source loads (oas-schema-walker, reftools,
      openapi-sampler, safe-json-stringify) are not part of the sources; each
      is a parameter or has a model that is marked as such. *)

From Stdlib Require Import ZArith List String Ascii Bool Lia DecimalString Sorted.
Import ListNotations.
Local Open Scope list_scope.
Local Open Scope string_scope.
Local Open Scope Z_scope.

(** ** JavaScript values *)

#[warnings="-register-all"]
Inductive value : Type :=
| VUndefined
| VNull
| VBool (b : bool)
| VNum (n : Z)
| VStr (s : string)
| VArr (items : list value)
| VObj (props : list (string * value)).

(** Induction on a value with the hypothesis for every element of a
    container. *)
Section ValueInduction.

Variable P : value -> Prop.
Hypothesis case_undefined : P VUndefined.
Hypothesis case_null : P VNull.
Hypothesis case_bool : forall b, P (VBool b).
Hypothesis case_num : forall n, P (VNum n).
Hypothesis case_str : forall s, P (VStr s).
Hypothesis case_arr : forall items, Forall P items -> P (VArr items).
Hypothesis case_obj : forall props, Forall (fun kv => P (snd kv)) props -> P (VObj props).

Fixpoint value_induction (v : value) : P v :=
  match v with
  | VUndefined => case_undefined
  | VNull => case_null
  | VBool b => case_bool b
  | VNum n => case_num n
  | VStr s => case_str s
  | VArr items =>
      case_arr items
        ((fix all (l : list value) : Forall P l :=
            match l with
            | [] => Forall_nil P
            | x :: rest => Forall_cons x (value_induction x) (all rest)
            end) items)
  | VObj props =>
      case_obj props
        ((fix all (l : list (string * value)) : Forall (fun kv => P (snd kv)) l :=
            match l with
            | [] => Forall_nil _
            | kv :: rest => Forall_cons kv (value_induction (snd kv)) (all rest)
            end) props)
  end.

End ValueInduction.

(** [if (v)]: the truthiness of a value. *)
Definition truthy (v : value) : bool :=
  match v with
  | VUndefined | VNull => false
  | VBool b => b
  | VNum n => negb (n =? 0)
  | VStr s => negb (s =? "")%string
  | VArr _ | VObj _ => true
  end.

(** [typeof v]. *)
Definition typeof (v : value) : string :=
  match v with
  | VUndefined => "undefined"
  | VNull => "object"
  | VBool _ => "boolean"
  | VNum _ => "number"
  | VStr _ => "string"
  | VArr _ | VObj _ => "object"
  end.

Definition is_undefined (v : value) : bool :=
  match v with VUndefined => true | _ => false end.

Fixpoint lookup (k : string) (props : list (string * value)) : value :=
  match props with
  | [] => VUndefined
  | (k', v) :: rest => if (k' =? k)%string then v else lookup k rest
  end.

(** [v[k]] for a property name [k] that is not an array index. *)
Definition get (v : value) (k : string) : value :=
  match v with
  | VObj props => lookup k props
  | _ => VUndefined
  end.

(** [a === b].  Two containers are equal only when they are the same
    object; two distinct nodes of a tree never are. *)
Definition strict_equal (a b : value) : bool :=
  match a, b with
  | VUndefined, VUndefined => true
  | VNull, VNull => true
  | VBool x, VBool y => Bool.eqb x y
  | VNum x, VNum y => (x =? y)
  | VStr x, VStr y => (x =? y)%string
  | _, _ => false
  end.

(** [Array.isArray(v)]. *)
Definition isArray (v : value) : bool :=
  match v with VArr _ => true | _ => false end.

(** [arr.indexOf(x) >= 0]. *)
Definition includes (arr : list value) (x : value) : bool :=
  existsb (fun y => strict_equal y x) arr.

(** ** Strings *)

(** [s.split(sep)] for a one-character separator. *)
Fixpoint split (sep : ascii) (s : string) : list string :=
  match s with
  | EmptyString => [EmptyString]
  | String c s' =>
      if Ascii.eqb c sep then EmptyString :: split sep s'
      else match split sep s' with
           | [] => [String c EmptyString]
           | w :: ws => String c w :: ws
           end
  end.

(** [s.startsWith(p)]. *)
Definition startsWith (s p : string) : bool := String.prefix p s.

Fixpoint drop (n : nat) (s : string) : string :=
  match n, s with
  | O, _ => s
  | S n', String _ s' => drop n' s'
  | S _, EmptyString => EmptyString
  end.

(** [s.replace(pat, '')]: the first occurrence of [pat] is removed. *)
Fixpoint remove_first (pat s : string) : string :=
  if String.prefix pat s then drop (String.length pat) s
  else match s with
       | EmptyString => EmptyString
       | String c s' => String c (remove_first pat s')
       end.

Definition join (sep : string) (parts : list string) : string :=
  String.concat sep parts.

(** The string a value turns into under [+] with a string.  A number is
    printed with all its digits, as JavaScript prints an integer below
    [1e21]; from there on JavaScript uses an exponent. *)
Fixpoint ToString (v : value) : string :=
  match v with
  | VUndefined => "undefined"
  | VNull => "null"
  | VBool true => "true"
  | VBool false => "false"
  | VNum n => NilZero.string_of_int (Z.to_int n)
  | VStr s => s
  | VArr items =>
      join "," (map (fun x => match x with
                              | VUndefined | VNull => ""
                              | _ => ToString x
                              end) items)
  | VObj _ => "[object Object]"
  end.

(** ** inferType (lines 226-257) *)

(** The inner function [has]: some listed property of the schema is not
    [undefined]. *)
Definition has (schema : value) (properties : list string) : bool :=
  existsb (fun property => negb (is_undefined (get schema property))) properties.

(** [for (let value of v)]: the values a [for..of] loop runs over; [None]
    when [v] is not iterable. *)
Definition iterate (v : value) : option (list value) :=
  match v with
  | VArr items => Some items
  | VStr s => Some (map (fun c => VStr (String c EmptyString)) (list_ascii_of_string s))
  | _ => None
  end.

Definition object_keys : list string :=
  ["properties"; "additionalProperties"; "patternProperties"; "minProperties";
   "maxProperties"; "required"; "dependencies"].
Definition array_keys : list string :=
  ["items"; "additionalItems"; "maxItems"; "minItems"; "uniqueItems"].
Definition number_keys : list string :=
  ["exclusiveMaximum"; "exclusiveMinimum"; "maximum"; "minimum"; "multipleOf"].
Definition string_keys : list string :=
  ["maxLength"; "minLength"; "pattern"].

(** [possibleTypes] as it stands after the four [has] tests. *)
Definition keywordTypes (schema : value) : list string :=
  ((if has schema object_keys then ["object"] else [])
   ++ (if has schema array_keys then ["array"] else [])
   ++ (if has schema number_keys then ["number"] else [])
   ++ (if has schema string_keys then ["number"] else []))%list.

(** The entries the [enum] loop pushes. *)
Definition enumTypes (schema : value) : option (list string) :=
  if truthy (get schema "enum") then
    match iterate (get schema "enum") with
    | Some values => Some (map typeof values)
    | None => None
    end
  else Some [].

Definition possibleTypes (schema : value) : option (list string) :=
  match enumTypes schema with
  | Some ts => Some (keywordTypes schema ++ ts)%list
  | None => None
  end.

(** [None] is a thrown [TypeError]: that of line 235 on [schema.type] when
    the schema is [undefined] or [null], or that of the loop of line 250
    when [schema.enum] cannot be iterated. *)
Definition inferType (schema : value) : option value :=
  match schema with
  | VUndefined | VNull => None
  | _ =>
      if truthy (get schema "type") then Some (get schema "type")
      else match possibleTypes schema with
           | Some [t] => Some (VStr t)
           | Some _ => Some (VStr "any")
           | None => None
           end
  end.

(** ** strim (lines 259-271) *)

(** The elements of a container, in enumeration order. *)
Definition children (v : value) : list value :=
  match v with
  | VArr items => items
  | VObj props => map snd props
  | _ => []
  end.

(** The container with the element at position [i] replaced. *)
Fixpoint set_nth {A : Type} (l : list A) (i : nat) (f : A -> A) : list A :=
  match l, i with
  | [], _ => []
  | x :: rest, O => f x :: rest
  | x :: rest, S i' => x :: set_nth rest i' f
  end.

Definition update_child (v : value) (i : nat) (f : value -> value) : value :=
  match v with
  | VArr items => VArr (set_nth items i f)
  | VObj props => VObj (set_nth props i (fun kv => (fst kv, f (snd kv))))
  | _ => v
  end.

(** A place in a tree: the positions of the keys on the way down from the
    root.  [write_at root place f] is the assignment [parent[pkey] = f
    (parent[pkey])] to the slot at [place]; a place that the tree no longer
    has belongs to an object that was cut off it, and the tree stays as it
    is. *)
Fixpoint write_at (root : value) (place : list nat) (f : value -> value) : value :=
  match place with
  | [] => f root
  | i :: rest => update_child root i (fun c => write_at c rest f)
  end.

(** The value at a place. *)
Fixpoint value_at (root : value) (place : list nat) : option value :=
  match place with
  | [] => Some root
  | i :: rest =>
      match nth_error (children root) i with
      | Some c => value_at c rest
      | None => None
      end
  end.

(** The [state] reftools' [recurse] hands to its callback: [state.depth] and
    the slot [state.parent[state.pkey]], which holds the object whose keys
    are being enumerated. *)
Record RecurseState : Type := {
  recurse_depth : Z;
  recurse_slot : list nat
}.

Section Each.

Context {A : Type} (at_key : A -> nat -> list RecurseState).

(** [for (let key in object)]: what is done at each key, in order; [i]
    is the position of the first key of [l]. *)
Fixpoint each (l : list A) (i : nat) : list RecurseState :=
  match l with
  | [] => []
  | c :: rest => (at_key c i ++ each rest (S i))%list
  end.

End Each.

(** Modelled from the spec: [recurse] of reftools is not among the sources.
    It enumerates the keys of a container, calls the callback once for each
    key, with [state.depth] the nesting depth of the container (0 for the
    argument itself), and then descends into the value of the key when that
    is an object or an array.  [invocations] lists the states of the calls
    in order. *)
Fixpoint invocations (object : value) (depth : Z) (slot : list nat) : list RecurseState :=
  match object with
  | VArr items =>
      each (fun c i =>
              {| recurse_depth := depth; recurse_slot := slot |}
              :: invocations c (depth + 1) (slot ++ [i])%list) items O
  | VObj props =>
      each (fun kv i =>
              {| recurse_depth := depth; recurse_slot := slot |}
              :: invocations (snd kv) (depth + 1) (slot ++ [i])%list) props O
  | _ => []
  end.

Definition recurse {S : Type} (object : value) (callback : S -> RecurseState -> S) (s : S) : S :=
  fold_left callback (invocations object 0 []) s.

(** [options.maxDepth]: a number, or [None] when the option is not set. *)
Definition le_zero (maxDepth : option Z) : bool :=
  match maxDepth with Some m => m <=? 0 | None => false end.

Definition reaches (depth : Z) (maxDepth : option Z) : bool :=
  match maxDepth with Some m => depth >=? m | None => false end.

(** Lines 263-267: an array becomes [[]], any other object [{}]. *)
Definition emptied (v : value) : value :=
  match v with
  | VArr _ => VArr []
  | VObj _ | VNull => VObj []
  | _ => v
  end.

(** The callback of [strim] (lines 261-269), on the tree under [obj]. *)
Definition strimCallback (maxDepth : option Z) (root : value) (state : RecurseState) : value :=
  if reaches (recurse_depth state) maxDepth
  then write_at root (recurse_slot state) emptied
  else root.

Definition strim (obj : value) (maxDepth : option Z) : value :=
  if le_zero maxDepth then obj
  else recurse obj (strimCallback maxDepth) obj.

(** ** clean (lines 471-479) *)

(** Modelled from the spec: [visit] of reftools is not among the sources.
    With a [filter] callback it assigns to every key of every nested
    container the value the filter returns and deletes the key when that is
    [undefined]; the filter of [clean] returns the value of a key unless
    the key starts with the marker prefix.  The keys of an array are its
    indices. *)
Fixpoint visit_filter (keep : string -> bool) (v : value) : value :=
  match v with
  | VArr items => VArr (map (visit_filter keep) items)
  | VObj props =>
      VObj ((fix each (l : list (string * value)) : list (string * value) :=
               match l with
               | [] => []
               | kv :: rest =>
                   if keep (fst kv) && negb (is_undefined (snd kv))
                   then (fst kv, visit_filter keep (snd kv)) :: each rest
                   else each rest
               end) props)
  | _ => v
  end.

Definition clean (obj : value) : value :=
  if is_undefined obj then VObj []
  else visit_filter (fun key => negb (startsWith key "x-widdershins")) obj.

(** *** Where strim and clean throw

    [recurse] of reftools, which [strim] calls and on which [visit] is
    built, tests [object.hasOwnProperty(key)] at every key of every object
    it enumerates.  An object with an own property of the name
    [hasOwnProperty] hides the method; in a tree of JSON values the
    property is no function, and the test throws a [TypeError]. *)

Definition hasOwnPropertyError : string := "object.hasOwnProperty is not a function".

(** The object has an own property [hasOwnProperty]. *)
Definition hidesHasOwnProperty (props : list (string * value)) : bool :=
  existsb (fun kv => (fst kv =? "hasOwnProperty")%string) props.

(** [recurse] meets such an object in the value: it goes into every
    object and array under it, whatever the callback of [strim] wrote. *)
Fixpoint recurseThrows (v : value) : bool :=
  match v with
  | VArr items => existsb recurseThrows items
  | VObj props =>
      hidesHasOwnProperty props || existsb (fun kv => recurseThrows (snd kv)) props
  | _ => false
  end.

(** [visit] with the filter of [clean] meets such an object: it does not
    go under a key that the filter took away. *)
Fixpoint visitThrows (keep : string -> bool) (v : value) : bool :=
  match v with
  | VArr items => existsb (visitThrows keep) items
  | VObj props =>
      hidesHasOwnProperty props
      || existsb (fun kv => keep (fst kv) && visitThrows keep (snd kv)) props
  | _ => false
  end.

Definition cleanThrows (obj : value) : bool :=
  visitThrows (fun key => negb (startsWith key "x-widdershins")) obj.

Definition strimThrows (obj : value) (maxDepth : option Z) : bool :=
  negb (le_zero maxDepth) && recurseThrows obj.

(** ** getSampleInner and getSample (lines 491-551) *)

(** How a call ends: it returns, or throws an [Error] with a message. *)
Inductive outcome (A : Type) : Type :=
| Returned (a : A)
| Thrown (message : string).
Arguments Returned {A} a.
Arguments Thrown {A} message.

(** The calls [clean(obj)] and [strim(obj, maxDepth)]: what they return,
    or the [TypeError] of [recurse]. *)
Definition cleanCall (obj : value) : outcome value :=
  if cleanThrows obj then Thrown hasOwnPropertyError else Returned (clean obj).

Definition strimCall (obj : value) (maxDepth : option Z) : outcome value :=
  if strimThrows obj maxDepth then Thrown hasOwnPropertyError
  else Returned (strim obj maxDepth).

(** What the code writes to the console. *)
Inductive Diagnostic : Type :=
| Dot
| ConsoleError (text : string)
| ConsoleErrorObject (message : string)
| ConsoleWarn (text : string).

(** [options], as far as the synthesizer reads it.  [samplerErrors] is the
    [Map] of the messages seen, [None] before it is created. *)
Record Options : Type := {
  sample : bool;
  maxDepth : option Z;
  verbose : bool;
  samplerErrors : option (list string)
}.

(** [circularClone] of reftools: a copy with the same shape; of a tree, a
    tree equal to it. *)
Definition circularClone (v : value) : value := v.

(** [JSON.parse(JSON.stringify(v))] for a value other than [undefined]: an
    [undefined] element of an array comes back as [null], an [undefined]
    property is dropped. *)
Fixpoint jsonCopy (v : value) : value :=
  match v with
  | VArr items =>
      VArr (map (fun x => match x with VUndefined => VNull | _ => jsonCopy x end) items)
  | VObj props =>
      VObj ((fix each (l : list (string * value)) : list (string * value) :=
               match l with
               | [] => []
               | kv :: rest =>
                   if is_undefined (snd kv) then each rest
                   else (fst kv, jsonCopy (snd kv)) :: each rest
               end) props)
  | VUndefined => VNull
  | _ => v
  end.

(** [JSON.parse(safejson(v))]: [safejson(undefined)] is [undefined], which
    [JSON.parse] refuses. *)
Definition jsonRoundTrip (v : value) : outcome value :=
  match v with
  | VUndefined => Thrown "Unexpected token u in JSON at position 0"
  | _ => Returned (jsonCopy v)
  end.

(** [Object.keys(v).length] for a value other than [undefined] and [null]. *)
Definition keyCount (v : value) : nat :=
  match v with
  | VArr items => List.length items
  | VObj props => List.length props
  | VStr s => String.length s
  | _ => O
  end.

(** [v.anonymous]; reading a property of [undefined] or [null] throws. *)
Definition readProperty (v : value) (k : string) : outcome value :=
  match v with
  | VUndefined => Thrown ("Cannot read properties of undefined (reading '" ++ k ++ "')")
  | VNull => Thrown ("Cannot read properties of null (reading '" ++ k ++ "')")
  | _ => Returned (get v k)
  end.

Section Sampler.

(** The state of the sample generator (it is randomized). *)
Variable World : Type.

(** [sampler.sample(schema, samplerOptions, defs)] of openapi-sampler. *)
Variable sampler_sample : World -> value -> value -> value -> World * outcome value.

(** What a call of the synthesizer changes: the generator, [options] (the
    [Map] within it) and the console. *)
Record Session : Type := {
  world : World;
  session_options : Options;
  console : list Diagnostic
}.

(** A computation that reads and writes the session and returns or throws. *)
Definition M (A : Type) : Type := Session -> Session * outcome A.

Definition ret {A : Type} (a : A) : M A := fun s => (s, Returned a).

Definition bind {A B : Type} (m : M A) (k : A -> M B) : M B :=
  fun s => match m s with
           | (s', Returned a) => k a s'
           | (s', Thrown e) => (s', Thrown e)
           end.

(** [try { body } catch (ex) { handler }]. *)
Definition tryCatch {A : Type} (body : M A) (handler : string -> M A) : M A :=
  fun s => match body s with
           | (s', Returned a) => (s', Returned a)
           | (s', Thrown e) => handler e s'
           end.

Definition lift {A : Type} (o : outcome A) : M A := fun s => (s, o).

Definition callSampler (schema samplerOptions defs : value) : M value :=
  fun s =>
    let '(w, r) := sampler_sample (world s) schema samplerOptions defs in
    ({| world := w; session_options := session_options s; console := console s |}, r).

Definition write (d : Diagnostic) : M unit :=
  fun s => ({| world := world s; session_options := session_options s;
               console := (console s ++ [d])%list |}, Returned tt).

Definition setErrors (errors : list string) : M unit :=
  fun s =>
    let o := session_options s in
    ({| world := world s;
        session_options := {| sample := sample o; maxDepth := maxDepth o;
                              verbose := verbose o; samplerErrors := Some errors |};
        console := console s |}, Returned tt).

Definition readOptions : M Options := fun s => (s, Returned (session_options s)).

(** The messages in [options.samplerErrors]. *)
Definition seen (o : Options) : list string :=
  match samplerErrors o with Some errors => errors | None => [] end.

Definition has_message (errors : list string) (message : string) : bool :=
  existsb (fun m => (m =? message)%string) errors.

(** Lines 510-515 and 524-529: a message already in the [Map] is answered
    with a dot, a new one is reported and stored. *)
Definition report (text : string -> Diagnostic) (message : string) : M unit :=
  bind readOptions (fun o =>
    if has_message (seen o) message then write Dot
    else bind (write (text message)) (fun _ =>
         setErrors (seen o ++ [message])%list)).

(** What the [try] block leaves behind when it does not return from the
    function: the current [obj]. *)
Inductive Control : Type :=
| Return (v : value)
| Continue (obj : value).

(** Lines 497-508. *)
Definition attempt (orig obj samplerOptions defs : value) : M Control :=
  bind (callSampler obj samplerOptions defs) (fun sample1 =>
  bind (if truthy sample1 && negb (is_undefined (get sample1 "$ref")) then
          bind (lift (jsonRoundTrip orig)) (fun obj' =>
          bind (callSampler obj' samplerOptions defs) (fun sample2 =>
          ret (obj', sample2)))
        else ret (obj, sample1)) (fun '(obj, sample0) =>
  if negb (is_undefined sample0) then
    if negb (strict_equal sample0 VNull) && negb (Nat.eqb (keyCount sample0) 0)
    then ret (Return sample0)
    else
      bind (callSampler
              (VObj [("type", VStr "object");
                     ("properties", VObj [("anonymous", obj)])])
              samplerOptions defs) (fun wrapped =>
      bind (lift (readProperty wrapped "anonymous")) (fun a =>
      ret (Return a)))
  else ret (Continue obj))).

(** Lines 509-531. *)
Definition recover (orig samplerOptions defs : value) (message : string) : M Control :=
  bind (report (fun m => ConsoleError ("# sampler " ++ m)) message) (fun _ =>
  bind readOptions (fun o =>
  bind (if verbose o then write (ConsoleErrorObject message) else ret tt) (fun _ =>
  bind (lift (jsonRoundTrip orig)) (fun obj =>
  tryCatch
    (bind (callSampler obj samplerOptions defs) (fun sample0 =>
     if negb (is_undefined sample0) then ret (Return sample0)
     else ret (Continue obj)))
    (fun message2 =>
       bind (report (fun m => ConsoleWarn ("# sampler 2nd error " ++ m)) message2) (fun _ =>
       ret (Continue obj))))))).

Definition getSampleInner (orig samplerOptions api : value) : M value :=
  bind readOptions (fun o =>
  bind (if match samplerErrors o with Some _ => true | None => false end
        then ret tt else setErrors []) (fun _ =>
  let obj := circularClone orig in
  let defs := api in
  if sample o && truthy obj then
    bind (tryCatch (attempt orig obj samplerOptions defs)
                   (recover orig samplerOptions defs)) (fun c =>
    match c with
    | Return v => ret v
    | Continue obj' => ret obj'
    end)
  else ret obj)).

(** Lines 545-551; [clean] and [strim] are called outside any [try]. *)
Definition getSample (orig samplerOptions api : value) : M value :=
  if truthy orig && truthy (get orig "example") then ret (get orig "example")
  else
    bind (getSampleInner orig samplerOptions api) (fun result =>
    bind (lift (cleanCall result)) (fun result =>
    bind readOptions (fun o =>
    lift (strimCall result (maxDepth o))))).

End Sampler.

Arguments world {World} _.
Arguments session_options {World} _.
Arguments console {World} _.

(** ** schemaToArray (lines 273-463) *)

(** [data.translations]: the strings the caller supplies. *)
Record Translations : Type := {
  continued : string;
  anonymous : string;
  indent : string;
  readOnly : string;
  writeOnly : string
}.

(** [data.options]: of the options of the conversion, the flattener reads
    [shallowSchemas]. *)
Record DataOptions : Type := { shallowSchemas : bool }.

(** [data]. *)
Record Data : Type := {
  api : value;
  translations : Translations;
  options : DataOptions
}.

(** The third argument of [schemaToArray]: how descriptions are laid out. *)
Record FormatOptions : Type := { trim : bool; join_lines : bool; truncate : bool }.

(** The walker's [state], as far as the callback reads it: [state.depth],
    [state.property] ([None] for [undefined]) and [state.top]. *)
Record WalkState : Type := {
  state_depth : Z;
  state_property : option string;
  state_top : bool
}.

(** One invocation [callback(schema, parent, state)] by the walker. *)
Record Visit : Type := {
  visit_schema : value;
  visit_parent : value;
  visit_state : WalkState
}.

(** [entry], a row.  Of its fields the record keeps those the properties
    below speak of: [description], [format], [safeType], [$ref],
    [restrictions], [displayName] and [in] are written from the schema and
    never read back by the control flow of the callback. *)
Record Entry : Type := {
  entry_name : value;
  entry_depth : Z;
  entry_required : value;
  entry_type : value;
  entry_schema : value
}.

Record Block : Type := {
  title : value;
  rows : list Entry;
  description : value;
  externalDocs : value
}.

(** The variables of [schemaToArray] that the callback closes over.  In the
    source [block] is the last element of the array [container]; here
    [closed] holds the elements before it. *)
Record Flat : Type := {
  iDepth : Z;
  oDepth : Z;
  blockDepth : Z;
  skipDepth : Z;
  closed : list Block;
  block : Block
}.

Definition container (f : Flat) : list Block := (closed f ++ [block f])%list.

(** Every row of the container, in the order of the pushes. *)
Definition all_rows (f : Flat) : list Entry := flat_map rows (container f).

(** [s.indexOf(c)]. *)
Fixpoint indexOf (c : ascii) (s : string) : Z :=
  match s with
  | EmptyString => -1
  | String a s' =>
      if Ascii.eqb a c then 0
      else let i := indexOf c s' in if i <? 0 then -1 else i + 1
  end.

(** [arr[i]] of an array of strings. *)
Definition at_index (arr : list string) (i : nat) : value :=
  match nth_error arr i with
  | Some s => VStr s
  | None => VUndefined
  end.

Section Flattener.

(** [jptr(api, pointer)] of reftools: the node of [api] a JSON pointer names. *)
Variable jptr : value -> string -> value.

Variable offset : Z.
Variable data : Data.

(** Line 295: the property is a combinator slot. *)
Definition isBlockProperty (property : option string) : bool :=
  match property with
  | Some p =>
      negb (p =? "")%string
      && (startsWith p "allOf" || startsWith p "anyOf" || startsWith p "oneOf"
          || (p =? "not")%string)
  | None => false
  end.

(** Lines 297-303: [components[0]] after the translation. *)
Definition blockWord (property : string) : string :=
  let components := split "/" (property ++ "/0") in
  let c0 := nth 0 components "" in
  if negb (nth 1 components "" =? "0")%string then
    let c0 := if (c0 =? "allOf")%string then "and" else c0 in
    let c0 := if (c0 =? "anyOf")%string then "or" else c0 in
    let c0 := if (c0 =? "oneOf")%string then "xor" else c0 in
    c0
  else c0.

(** Lines 304-312: what is appended to the title; [None] when [schema.$ref]
    is truthy and has no [replace] method, and when the target of the
    reference is [undefined] or [null], where the read of
    [dschema.discriminator] throws. *)
Definition discriminatorSuffix (schema : value) : option string :=
  let target :=
    if truthy (get schema "$ref") then
      match get schema "$ref" with
      | VStr r => Some (jptr (api data) r, remove_first "#/components/schemas/" r ++ ".")
      | _ => None
      end
    else Some (schema, "") in
  match target with
  | Some (VUndefined, _) | Some (VNull, _) => None
  | Some (dschema, prefix) =>
      if truthy (get dschema "discriminator") then
        Some (" - discriminator: " ++ prefix
              ++ ToString (get (get dschema "discriminator") "propertyName"))
      else Some ""
  | None => None
  end.

Definition pushBlock (f : Flat) (b : Block) (bd : Z) : Flat :=
  {| iDepth := iDepth f; oDepth := oDepth f; blockDepth := bd;
     skipDepth := skipDepth f; closed := (closed f ++ [block f])%list; block := b |}.

Definition newBlock (t : string) : Block :=
  {| title := VStr t; rows := []; description := VUndefined; externalDocs := VUndefined |}.

(** Lines 294-321: a combinator slot opens a block; a step back above the
    depth of the open block opens the continuation block. *)
Definition openBlock (f : Flat) (schema : value) (state : WalkState) : option Flat :=
  if isBlockProperty (state_property state) then
    match state_property state, discriminatorSuffix schema with
    | Some p, Some suffix =>
        Some (pushBlock f (newBlock (blockWord p ++ suffix)) (state_depth state))
    | _, _ => None
    end
  else if negb (blockDepth f =? 0) && (state_depth state <? blockDepth f) then
    Some (pushBlock f (newBlock (continued (translations data))) 0)
  else Some f.

(** Lines 326-330: the name from the property path, else the title. *)
Definition pathName (schema : value) (state : WalkState) : value :=
  let name :=
    match state_property state with
    | Some p =>
        if negb (p =? "")%string && negb (indexOf "/" p =? 0) then
          if isBlockProperty (state_property state)
          then VStr ("*" ++ anonymous (translations data) ++ "*")
          else at_index (split "/" p) 1
        else VUndefined
    | None => VUndefined
    end in
  if negb (truthy name) && truthy (get schema "title") then get schema "title"
  else name.

(** Lines 332-338: [state.top] after the three tests. *)
Definition adjustTop (schema name : value) (top : bool) : bool :=
  let type := get schema "type" in
  let items := get schema "items" in
  if strict_equal type (VStr "array") && truthy items
     && truthy (get items "x-widdershins-oldRef") && negb (truthy name) then false
  else if strict_equal type (VStr "array") && truthy items
          && truthy (get items "$ref") && negb (truthy name) then false
  else if negb (truthy name) && top && truthy type
          && negb (strict_equal type (VStr "object"))
          && negb (strict_equal type (VStr "array")) then false
  else top.

(** Lines 340-351: the names of nodes that have none yet. *)
Definition fallbackName (parent : value) (state : WalkState) (top : bool) (name : value) : value :=
  let property := state_property state in
  let name :=
    if negb top && negb (truthy name)
       && match property with Some p => (p =? "additionalProperties")%string | None => false end
    then VStr "**additionalProperties**" else name in
  let name :=
    if negb top && negb (truthy name)
       && match property with Some p => (p =? "additionalItems")%string | None => false end
    then VStr "**additionalItems**" else name in
  let name :=
    if negb top && negb (truthy name)
       && match property with
          | Some p => negb (p =? "")%string && startsWith p "patternProperties"
          | None => false
          end
    then VStr ("*" ++ ToString name ++ "*") else name in
  if negb top && negb (truthy name) && negb (truthy (get parent "items"))
  then VStr ("*" ++ anonymous (translations data) ++ "*") else name.

(** Lines 355-365: [(iDepth, oDepth)] after a node; only a named node moves
    them. *)
Definition moveDepth (i o : Z) (name : value) (depth : Z) : Z * Z :=
  if truthy name then
    let o := if depth >? i then o + 1 else o in
    let o := if depth <? i
             then (if o - 1 <? 0 then 0 else o - 1) else o in
    (depth, o)
  else (i, o).

(** Line 367. *)
Definition displayDepth (o : Z) : Z := Z.max (o + offset) 0.

(** Lines 377-395 need [replace] on the marker and on [$ref]: a truthy
    value that is not a string throws. *)
Definition referenceOk (schema : value) : bool :=
  (negb (truthy (get schema "x-widdershins-oldRef"))
   || match get schema "x-widdershins-oldRef" with VStr _ => true | _ => false end)
  && (negb (truthy (get schema "$ref"))
      || match get schema "$ref" with VStr _ => true | _ => false end).

(** The node carries the resolved-reference marker or a live [$ref]. *)
Definition isReference (schema : value) : bool :=
  truthy (get schema "x-widdershins-oldRef") || truthy (get schema "$ref").

(** Lines 380 and 390: [skipDepth] after the two reference tests. *)
Definition markSkip (schema : value) (depth skip : Z) : Z :=
  if isReference schema && shallowSchemas (options data) then depth else skip.

(** Lines 372 and 388: [entry.type] before the inference. *)
Definition declaredType (schema : value) : value :=
  if truthy (get schema "$ref") then VStr "$ref" else get schema "type".

(** Lines 446-449. *)
Definition entryType (schema : value) : option value :=
  if is_undefined (declaredType schema) then inferType schema
  else Some (declaredType schema).

(** Lines 443-444. *)
Definition requiredOf (parent name : value) : value :=
  let required := get parent "required" in
  let r :=
    if truthy required then
      match required with
      | VArr names => VBool (includes names name)
      | _ => VBool false
      end
    else required in
  if is_undefined r then VBool false else r.

(** Lines 451-453: a name with the marker prefix is reset. *)
Definition markerBlank (name : value) : value :=
  match name with
  | VStr s => if startsWith s "x-widdershins-" then VStr "" else name
  | _ => name
  end.

(** Lines 451-454: the name after the two resets. *)
Definition blankName (name : value) (depth skip : Z) : value :=
  let name := markerBlank name in
  if (skip >=? 0) && (depth >=? skip) then VStr "" else name.

(** Line 455. *)
Definition clearSkip (depth skip : Z) : Z :=
  if depth <? skip then -1 else skip.

Definition pushRow (b : Block) (e : Entry) : Block :=
  {| title := title b; rows := (rows b ++ [e])%list;
     description := description b; externalDocs := externalDocs b |}.

(** [state.top] and [entry.name] at the comment of line 353, where the
    code is done with the name. *)
Definition visitTop (v : Visit) : bool :=
  adjustTop (visit_schema v) (pathName (visit_schema v) (visit_state v))
            (state_top (visit_state v)).

Definition visitName (v : Visit) : value :=
  fallbackName (visit_parent v) (visit_state v) (visitTop v)
               (pathName (visit_schema v) (visit_state v)).

(** [entry.depth] of a visit made with the variables as in [f]. *)
Definition visitDepth (f : Flat) (v : Visit) : Z :=
  displayDepth (snd (moveDepth (iDepth f) (oDepth f) (visitName v)
                               (state_depth (visit_state v)))).

(** Line 458: the row is pushed. *)
Definition kept (top : bool) (type name : value) : bool :=
  (negb top || negb (strict_equal type (VStr "object"))) && truthy name.

(** [skipDepth] after lines 380 and 390. *)
Definition visitSkip (f : Flat) (v : Visit) : Z :=
  markSkip (visit_schema v) (visitDepth f v) (skipDepth f).

(** The [entry] of a visit at line 458. *)
Definition visitRow (f : Flat) (v : Visit) (type : value) : Entry :=
  {| entry_name := blankName (visitName v) (visitDepth f v) (visitSkip f v);
     entry_depth := visitDepth f v;
     entry_required := requiredOf (visit_parent v) (visitName v);
     entry_type := type;
     entry_schema := visit_schema v |}.

(** The callback handed to [walkSchema] (lines 292-461). *)
Definition callback (f : Flat) (v : Visit) : option Flat :=
  match openBlock f (visit_schema v) (visit_state v) with
  | None => None
  | Some f1 =>
      let '(i, o) := moveDepth (iDepth f1) (oDepth f1) (visitName v)
                               (state_depth (visit_state v)) in
      if negb (referenceOk (visit_schema v)) then None
      else
        match entryType (visit_schema v) with
        | None => None
        | Some type =>
            let entry := visitRow f1 v type in
            Some {| iDepth := i; oDepth := o; blockDepth := blockDepth f1;
                    skipDepth := clearSkip (visitDepth f1 v) (visitSkip f1 v);
                    closed := closed f1;
                    block := if kept (visitTop v) type (entry_name entry)
                             then pushRow (block f1) entry else block f1 |}
        end
  end.

(** The walk: the callback over the invocations, in order. *)
Fixpoint walk (f : Flat) (visits : list Visit) : option Flat :=
  match visits with
  | [] => Some f
  | v :: rest =>
      match callback f v with
      | Some f' => walk f' rest
      | None => None
      end
  end.

(** Lines 274-288: the variables before the walk. *)
Definition rootBlock (schema : value) : Block :=
  if truthy schema then
    let t := if truthy (get schema "title") then get schema "title" else VStr "" in
    let t := if negb (truthy t) && truthy (get schema "description")
             then get schema "description" else t in
    {| title := t; rows := [];
       description := get schema "description";
       externalDocs := if truthy (get schema "externalDocs")
                       then get schema "externalDocs" else VUndefined |}
  else newBlock "".

Definition initial (schema : value) : Flat :=
  {| iDepth := 0; oDepth := 0; blockDepth := 0; skipDepth := -1;
     closed := []; block := rootBlock schema |}.

(** [walkSchema(schema, {}, wsState, callback)] of oas-schema-walker with
    [combine] and [allowRefSiblings] set, given by the invocations of the
    callback it makes for a schema, each with the [state] it is made in. *)
Variable walkSchema : value -> list Visit.

Definition schemaToArray (schema : value) (formatOptions : FormatOptions) : option (list Block) :=
  match walk (initial schema) (walkSchema schema) with
  | Some f => Some (container f)
  | None => None
  end.

End Flattener.

(** ** Notions the properties are stated with *)

(** A name that does not make a row: empty when the code is done deriving
    it (line 353), or a string with the marker prefix. *)
Definition unnamed (name : value) : Prop :=
  truthy name = false
  \/ exists s, name = VStr s /\ startsWith s "x-widdershins-" = true.

(** The title of the block of a combinator branch, in the words of the
    specification: the keyword for branch index 0, the translated word for
    a later branch. *)
Definition branchTitle (keyword index : string) : string :=
  if (index =? "0")%string then keyword
  else if (keyword =? "allOf")%string then "and"
  else if (keyword =? "anyOf")%string then "or"
  else if (keyword =? "oneOf")%string then "xor"
  else keyword.

(** What follows the word in the title of such a block, in the words of
    the amended claim: [ - discriminator: ] and the property name of the
    discriminator, when the branch has one; for a branch that is a
    reference, the discriminator is that of the target of the reference
    ([target] looks a pointer up in the document), and the name of the
    target and a dot stand before the property name; nothing when there is
    no discriminator. *)
Definition discriminatorTitle (target : string -> value) (schema : value) : string :=
  let shown (prefix : string) (node : value) : string :=
    if truthy (get node "discriminator")
    then " - discriminator: " ++ prefix
         ++ ToString (get (get node "discriminator") "propertyName")
    else "" in
  match get schema "$ref" with
  | VStr (String c pointer) =>
      shown (remove_first "#/components/schemas/" (String c pointer) ++ ".")
            (target (String c pointer))
  | _ => shown "" schema
  end.

(** The depth limit, in the words of the specification: a container at
    depth [limit] or deeper is replaced by its empty equivalent, anything
    above that depth is kept.  [depth] is the depth of [v]; the argument of
    [strim] is at depth 0. *)
Fixpoint truncated (limit depth : Z) (v : value) : value :=
  match v with
  | VArr items =>
      if depth >=? limit then VArr []
      else VArr (map (truncated limit (depth + 1)) items)
  | VObj props =>
      if depth >=? limit then VObj []
      else VObj (map (fun kv => (fst kv, truncated limit (depth + 1) (snd kv))) props)
  | _ => v
  end.

(** The state of a call made under the slot [p]. *)
Definition below (p : list nat) (state : RecurseState) : RecurseState :=
  {| recurse_depth := recurse_depth state;
     recurse_slot := (p ++ recurse_slot state)%list |}.

(** What the [try] block of [getSampleInner] leaves: a value to return, or
    an [obj] that is defined. *)
Definition settled (c : Control) : Prop :=
  match c with
  | Return _ => True
  | Continue obj => obj <> VUndefined
  end.

(** ** Inputs of the examples *)

(** A [jptr] that finds nothing: it returns [false]. *)
Definition no_pointer (root : value) (pointer : string) : value := VBool false.

Definition words : Translations :=
  {| continued := "continued"; anonymous := "anonymous"; indent := ">";
     readOnly := "read-only"; writeOnly := "write-only" |}.

(** [data] with [shallowSchemas] as given and an empty document. *)
Definition data_with (shallow : bool) : Data :=
  {| api := VObj []; translations := words;
     options := {| shallowSchemas := shallow |} |}.

(** A pet whose owner was a reference, resolved into the schema:
    [{type: "object", title: "Pet", properties: {owner: {"x-widdershins-oldRef":
    "#/components/schemas/User", type: "object", properties: {name: {type:
    "string"}}}}}]. *)
Definition pet_name : value := VObj [("type", VStr "string")].
Definition pet_owner : value :=
  VObj [("x-widdershins-oldRef", VStr "#/components/schemas/User");
        ("type", VStr "object");
        ("properties", VObj [("name", pet_name)])].
Definition pet : value :=
  VObj [("type", VStr "object"); ("title", VStr "Pet");
        ("properties", VObj [("owner", pet_owner)])].

Definition at_root (schema : value) : Visit :=
  {| visit_schema := schema; visit_parent := VObj [];
     visit_state := {| state_depth := 0; state_property := None; state_top := true |} |}.

Definition at_property (schema parent : value) (depth : Z) (property : string) : Visit :=
  {| visit_schema := schema; visit_parent := parent;
     visit_state := {| state_depth := depth; state_property := Some property;
                       state_top := false |} |}.

(** The same pet with a property of its own after the reference:
    [properties: {owner: <the reference>, age: {type: "integer"}}]. *)
Definition pet_age : value := VObj [("type", VStr "integer")].
Definition pet_with_age : value :=
  VObj [("type", VStr "object"); ("title", VStr "Pet");
        ("properties", VObj [("owner", pet_owner); ("age", pet_age)])].

(** The invocations for [pet]: the root, then each property under its
    path, one level deeper each time. *)
Definition pet_visits : list Visit :=
  [at_root pet;
   at_property pet_owner pet 1 "properties/owner";
   at_property pet_name pet_owner 2 "properties/name"].

Definition pet_with_age_visits : list Visit :=
  [at_root pet_with_age;
   at_property pet_owner pet_with_age 1 "properties/owner";
   at_property pet_name pet_owner 2 "properties/name";
   at_property pet_age pet_with_age 1 "properties/age"].

(** The variables after a walk, those before it when the walk throws. *)
Definition walked (offset : Z) (data : Data) (f : Flat) (visits : list Visit) : Flat :=
  match walk no_pointer offset data f visits with
  | Some f' => f'
  | None => f
  end.

(** A [oneOf] of two branches, the second with a discriminator. *)
Definition cat : value := VObj [("type", VStr "object")].
Definition dog : value :=
  VObj [("type", VStr "object");
        ("discriminator", VObj [("propertyName", VStr "petType")])].
Definition cat_or_dog : value := VObj [("oneOf", VArr [cat; dog])].

(** A parent whose [required] is [null], as a YAML document with an empty
    [required:] gives it. *)
Definition loose_parent : value :=
  VObj [("type", VStr "object"); ("required", VNull);
        ("properties", VObj [("a", VObj [("type", VStr "string")])])].

(** A generator that always throws, with nothing to remember. *)
Definition failing_sampler (w : unit) (schema samplerOptions defs : value)
  : unit * outcome value :=
  (w, Thrown "cannot sample").

Definition session_with (o : Options) : Session unit :=
  {| world := tt; session_options := o; console := [] |}.

(** [{type: "integer", example: 0}]: the example is set, to a falsy value. *)
Definition zero_example : value :=
  VObj [("type", VStr "integer"); ("example", VNum 0)].

(** [{type: "integer", example: 7}]. *)
Definition seven_example : value :=
  VObj [("type", VStr "integer"); ("example", VNum 7)].

(** A computation that returns, with a result that satisfies [Q]. *)
Definition ensures {World A : Type} (m : M World A) (Q : A -> Prop) : Prop :=
  forall s, exists s' a, m s = (s', Returned a) /\ Q a.

(** A generator that returns the empty object, whatever it is asked. *)
Definition empty_sampler (w : unit) (schema samplerOptions defs : value)
  : unit * outcome value :=
  (w, Returned (VObj [])).

(** [{a: 1, b: {c: {d: 2}}, e: [[1], 2]}]. *)
Definition nested : value :=
  VObj [("a", VNum 1);
        ("b", VObj [("c", VObj [("d", VNum 2)])]);
        ("e", VArr [VArr [VNum 1]; VNum 2])].

(** A resolved reference with a second resolved reference two levels
    below it, and a plain property after that:
    [{type: "object", properties: {a: {marker, type: "object", properties:
    {p: {type: "object", properties: {q: {marker, type: "string"}}},
     r: {type: "string"}}}}}]. *)
Definition inner_q : value :=
  VObj [("x-widdershins-oldRef", VStr "#/components/schemas/Q"); ("type", VStr "string")].
Definition inner_p : value :=
  VObj [("type", VStr "object"); ("properties", VObj [("q", inner_q)])].
Definition inner_r : value := VObj [("type", VStr "string")].
Definition outer_a : value :=
  VObj [("x-widdershins-oldRef", VStr "#/components/schemas/A"); ("type", VStr "object");
        ("properties", VObj [("p", inner_p); ("r", inner_r)])].
Definition two_references : value :=
  VObj [("type", VStr "object"); ("properties", VObj [("a", outer_a)])].

Definition two_references_visits : list Visit :=
  [at_root two_references;
   at_property outer_a two_references 1 "properties/a";
   at_property inner_p outer_a 2 "properties/p";
   at_property inner_q inner_p 3 "properties/q";
   at_property inner_r outer_a 2 "properties/r"].

(** The schema of the end-to-end example of the specification:
    [{type: "object", properties: {id: {type: "integer"}, name: {type:
    "string"}}, required: ["id"]}]. *)
Definition id_schema : value := VObj [("type", VStr "integer")].
Definition name_schema : value := VObj [("type", VStr "string")].
Definition id_and_name : value :=
  VObj [("type", VStr "object");
        ("properties", VObj [("id", id_schema); ("name", name_schema)]);
        ("required", VArr [VStr "id"])].

Definition id_and_name_visits : list Visit :=
  [at_root id_and_name;
   at_property id_schema id_and_name 1 "properties/id";
   at_property name_schema id_and_name 1 "properties/name"].

(** ** Characters and strings of the helpers *)

(** A character stands for the code unit of its number; the numbers 0 to
    255 are the characters of Latin-1. *)

(** [\s] of a regular expression, and what [trim] removes: tab, line feed,
    vertical tab, form feed, carriage return, space and no-break space. *)
Definition isWhiteSpace (c : ascii) : bool :=
  let n := nat_of_ascii c in
  ((9 <=? n) && (n <=? 13) || (n =? 32) || (n =? 160))%nat.

(** [\w]: a letter of [A-Za-z], a digit or the underscore. *)
Definition isWord (c : ascii) : bool :=
  let n := nat_of_ascii c in
  ((48 <=? n) && (n <=? 57) || (65 <=? n) && (n <=? 90)
   || (97 <=? n) && (n <=? 122) || (n =? 95))%nat.

(** An upper-case letter: [A-Z], and the letters from [À] to [Þ]
    without the multiplication sign. *)
Definition isUpper (c : ascii) : bool :=
  let n := nat_of_ascii c in
  ((65 <=? n) && (n <=? 90)
   || (192 <=? n) && (n <=? 222) && negb (n =? 215))%nat.

Definition lowerChar (c : ascii) : ascii :=
  if isUpper c then ascii_of_nat (nat_of_ascii c + 32) else c.

(** [s.toLowerCase()]. *)
Fixpoint toLowerCase (s : string) : string :=
  match s with
  | EmptyString => EmptyString
  | String c s' => String (lowerChar c) (toLowerCase s')
  end.

Fixpoint trimStart (s : string) : string :=
  match s with
  | EmptyString => EmptyString
  | String c s' => if isWhiteSpace c then trimStart s' else s
  end.

Fixpoint trimEnd (s : string) : string :=
  match s with
  | EmptyString => EmptyString
  | String c s' =>
      let t := trimEnd s' in
      if isWhiteSpace c && (t =? "")%string then EmptyString else String c t
  end.

(** [s.trim()]. *)
Definition trimmed (s : string) : string := trimEnd (trimStart s).

(** [s.split(sep)] for a separator of one character or more: the text is
    read from the left, and an occurrence of the separator ends a part;
    [skip] counts the characters of the occurrence still to pass. *)
Fixpoint split_from (sep : string) (skip : nat) (s : string) : list string :=
  match s with
  | EmptyString => [EmptyString]
  | String c s' =>
      match skip with
      | S k => split_from sep k s'
      | O =>
          if String.prefix sep s
          then EmptyString :: split_from sep (String.length sep - 1) s'
          else match split_from sep O s' with
               | [] => [String c EmptyString]
               | w :: ws => String c w :: ws
               end
      end
  end.

Definition split_str (sep s : string) : list string := split_from sep O s.

(** The double quote. *)
Definition dquote : string := String (ascii_of_nat 34) EmptyString.

(** ** gfmLink (lines 203-217) *)

Definition gfmLink (text : string) : string :=
  let text := toLowerCase (trimmed text) in
  let text := join "" (split_str "'" text) in
  let text := join "" (split_str dquote text) in
  let text := join "" (split_str "." text) in
  let text := join "" (split_str "`" text) in
  let text := join "" (split_str ":" text) in
  let text := join "" (split_str "/" text) in
  let text := join "" (split_str "&lt;" text) in
  let text := join "" (split_str "&gt;" text) in
  let text := join "" (split_str "<" text) in
  let text := join "" (split_str ">" text) in
  let text := join "-" (split_str " " text) in
  text.

(** ** slugify (lines 576-580) *)

(** [.replace(/&/g, '-and-')]. *)
Fixpoint replaceAmpersands (s : string) : string :=
  match s with
  | EmptyString => EmptyString
  | String c s' =>
      if Ascii.eqb c "&" then "-and-" ++ replaceAmpersands s'
      else String c (replaceAmpersands s')
  end.

(** The class [[\s\W-]]. *)
Definition isSeparator (c : ascii) : bool :=
  isWhiteSpace c || negb (isWord c) || Ascii.eqb c "-".

(** [.replace(/[\s\W-]+/g, '-')]: every maximal run of characters of the
    class becomes one dash; [inRun] says that the character before was of
    the class. *)
Fixpoint dashRuns (inRun : bool) (s : string) : string :=
  match s with
  | EmptyString => EmptyString
  | String c s' =>
      if isSeparator c
      then (if inRun then dashRuns true s' else String "-" (dashRuns true s'))
      else String c (dashRuns false s')
  end.

Definition slugify (text : string) : string :=
  dashRuns false (replaceAmpersands (trimmed (toLowerCase text))).

(** ** removeDupeBlankLines (lines 559-561) *)

(** The class [[\r\n]]. *)
Definition isLineBreak (c : ascii) : bool :=
  (Ascii.eqb c (ascii_of_nat 13) || Ascii.eqb c (ascii_of_nat 10)).

Definition twoLineFeeds : string :=
  String (ascii_of_nat 10) (String (ascii_of_nat 10) EmptyString).

(** What a maximal run of line breaks is replaced with: [{3,}] matches a
    run of three or more. *)
Definition flushRun (run : string) : string :=
  if (3 <=? String.length run)%nat then twoLineFeeds else run.

(** [content.replace(/[\r\n]{3,}/g, '\n\n')]; [run] holds the line breaks
    read since the last other character. *)
Fixpoint squeeze (run : string) (content : string) : string :=
  match content with
  | EmptyString => flushRun run
  | String c rest =>
      if isLineBreak c then squeeze (run ++ String c EmptyString) rest
      else flushRun run ++ String c (squeeze EmptyString rest)
  end.

Definition removeDupeBlankLines (content : string) : string :=
  squeeze EmptyString content.

(** Three line breaks in a row somewhere in [s], [n] line breaks standing
    right before it. *)
Fixpoint hasTriple (n : nat) (s : string) : bool :=
  match s with
  | EmptyString => false
  | String c s' =>
      if isLineBreak c then (2 <=? n)%nat || hasTriple (S n) s'
      else hasTriple O s'
  end.

(** The characters of a string. *)
Definition chars (s : string) : list ascii := list_ascii_of_string s.

(** No two dashes in a row. *)
Fixpoint singleDashes (s : string) : bool :=
  match s with
  | EmptyString => true
  | String c s' =>
      match s' with
      | String d _ => negb (Ascii.eqb c "-" && Ascii.eqb d "-") && singleDashes s'
      | EmptyString => true
      end
  end.

(** ** languageCheck (lines 77-98) *)

(** [Object.keys(v)[0]]: the first key of a value, [undefined] when it has
    none; [None] when [Object.keys] throws ([null] and [undefined]). *)
Definition firstKey (v : value) : option value :=
  match v with
  | VUndefined | VNull => None
  | VObj ((k, _) :: _) => Some (VStr k)
  | VArr (_ :: _) => Some (VStr "0")
  | VStr (String _ _) => Some (VStr "0")
  | _ => Some VUndefined
  end.

(** Lines 78-80: [lcLang]. *)
Definition lcLang (language : string) : string :=
  let lc := toLowerCase language in
  let lc := if (lc =? "c#")%string then "csharp" else lc in
  let lc := if (lc =? "c++")%string then "cpp" else lc in
  lc.

(** Lines 83-89: the tab is the language. *)
Definition isLanguage (lc : string) (target : value) : option bool :=
  if (typeof target =? "object")%string then
    match firstKey target with
    | Some k => Some (strict_equal k (VStr lc))
    | None => None
    end
  else Some (strict_equal target (VStr lc)).

(** The loop of lines 81-90: [Some true] when it returns [lcLang], [Some
    false] when it ends, [None] when it throws. *)
Fixpoint findLanguage (lc : string) (language_tabs : list value) : option bool :=
  match language_tabs with
  | [] => Some false
  | target :: rest =>
      match isLanguage lc target with
      | None => None
      | Some true => Some true
      | Some false => findLanguage lc rest
      end
  end.

(** Lines 92-93: [newLang]; the assignment [newLang['__proto__'] =
    language] makes no property. *)
Definition newLang (lc language : string) : value :=
  if (lc =? "__proto__")%string then VObj [] else VObj [(lc, VStr language)].

(** [languageCheck(language, language_tabs, mutate)]: what it returns and
    [language_tabs] afterwards. *)
Definition languageCheck (language : string) (language_tabs : list value) (mutate : bool)
  : option (value * list value) :=
  match findLanguage (lcLang language) language_tabs with
  | None => None
  | Some true => Some (VStr (lcLang language), language_tabs)
  | Some false =>
      if mutate
      then Some (VStr (lcLang language),
                 (language_tabs ++ [newLang (lcLang language) language])%list)
      else Some (VBool false, language_tabs)
  end.

(** ** getLanguageTarget (lines 147-149) *)

(** [(lang && lang.split('--')[1]) || lang]; [None] when [lang] is truthy
    and has no [split]. *)
Definition getLanguageTarget (lang : value) : option value :=
  if truthy lang then
    match lang with
    | VStr s =>
        let part := at_index (split_str "--" s) 1 in
        Some (if truthy part then part else lang)
    | _ => None
    end
  else Some lang.

(** ** getLanguageClient (lines 158-165) *)

(** [Object.values(v)[0]]. *)
Definition firstValue (v : value) : value :=
  match v with
  | VObj ((_, x) :: _) => x
  | VArr (x :: _) => x
  | VStr (String c _) => VStr (String c EmptyString)
  | _ => VUndefined
  end.

(** [clients.find(e => Object.keys(e)[0] === lang)]: the first element
    with [lang] for its first key, [undefined] when there is none. *)
Fixpoint findClient (lang : value) (clients : list value) : option value :=
  match clients with
  | [] => Some VUndefined
  | e :: rest =>
      match firstKey e with
      | None => None
      | Some k => if strict_equal k lang then Some e else findClient lang rest
      end
  end.

(** [getLanguageClient(lang, clients)]; [None] when it throws. *)
Definition getLanguageClient (lang clients : value) : option value :=
  match clients with
  | VArr items =>
      if truthy lang && negb (Nat.eqb (List.length items) 0) then
        match findClient lang items with
        | None => None
        | Some client => Some (if truthy client then firstValue client else VStr "")
        end
      else Some (VStr "")
  | VStr text =>
      if truthy lang && truthy clients then None else Some (VStr "")
  | VObj props =>
      if truthy lang && truthy (get clients "length") then None else Some (VStr "")
  | _ => Some (VStr "")
  end.

(** A string of line breaks only. *)
Fixpoint allLineBreaks (s : string) : bool :=
  match s with
  | EmptyString => true
  | String c s' => isLineBreak c && allLineBreaks s'
  end.

(** The characters of a string that are not line breaks, in order. *)
Fixpoint otherChars (s : string) : list ascii :=
  match s with
  | EmptyString => []
  | String c s' => if isLineBreak c then otherChars s' else c :: otherChars s'
  end.

(** A character of a slug: the dash, or a character of [\w] that is not
    an upper-case letter. *)
Definition slugChar (c : ascii) : bool :=
  Ascii.eqb c "-" || isWord c && negb (isUpper c).

Definition startsWithDash (s : string) : bool :=
  match s with
  | String c _ => Ascii.eqb c "-"
  | EmptyString => false
  end.

(** The characters [gfmLink] takes out of a heading: the quotes, the dot,
    the backtick, the colon, the slash, the angle brackets and the space. *)
Definition strippedChars : list ascii :=
  chars ("'" ++ dquote ++ ".`:/<> ").

(** Tabs as a document has them: a name, and a name with its label. *)
Definition some_tabs : list value :=
  [VStr "shell"; VObj [("python", VStr "Python")]].

(** The line feed, and a text with four of them in a row. *)
Definition lineFeed : ascii := ascii_of_nat 10.
Definition four_breaks : string :=
  String "a" (String lineFeed (String lineFeed (String lineFeed (String lineFeed "b")))).

(** ** Notions for clean, strim and the samples *)

(** Some key of the value, at any depth, starts with the marker prefix
    that [clean] tests for. *)
Fixpoint hasMarkerKey (v : value) : bool :=
  match v with
  | VArr items => existsb hasMarkerKey items
  | VObj props =>
      existsb (fun kv => startsWith (fst kv) "x-widdershins" || hasMarkerKey (snd kv)) props
  | _ => false
  end.

(** No container of the value at depth [limit] or deeper has a key;
    [depth] is the depth of the value itself. *)
Fixpoint withinDepth (limit depth : Z) (v : value) : bool :=
  match v with
  | VArr items =>
      if depth >=? limit then Nat.eqb (List.length items) 0
      else forallb (withinDepth limit (depth + 1)) items
  | VObj props =>
      if depth >=? limit then Nat.eqb (List.length props) 0
      else forallb (fun kv => withinDepth limit (depth + 1) (snd kv)) props
  | _ => true
  end.

(** The bound [options.maxDepth] puts on a result: none when it is not set
    or not positive. *)
Definition withinMaxDepth (maxDepth : option Z) (v : value) : bool :=
  match maxDepth with
  | Some limit => if limit <=? 0 then true else withinDepth limit 0 v
  | None => true
  end.

(** A response with markers of the tool in it, three levels deep. *)
Definition marked : value :=
  VObj [("x-widdershins-oldRef", VStr "#/components/schemas/Pet");
        ("name", VStr "Rex");
        ("owner", VObj [("x-widdershins-oldRef", VStr "#/components/schemas/User");
                        ("address", VObj [("city", VStr "Oslo")])])].

(** ** Notions for the runs of the synthesizer *)

(** From a session with [P] the computation returns a value and leaves a
    session with [Q], or throws a message and leaves a session with [E]. *)
Definition triple {World A : Type} (P : Session World -> Prop) (m : M World A)
    (Q : A -> Session World -> Prop) (E : string -> Session World -> Prop) : Prop :=
  forall s, P s ->
    match m s with
    | (s', Returned a) => Q a s'
    | (s', Thrown message) => E message s'
    end.

(** A full diagnostic, as against the dot that answers a repeat and the
    exception printed in verbose mode. *)
Definition fullReport (d : Diagnostic) : bool :=
  match d with
  | ConsoleError _ | ConsoleWarn _ => true
  | Dot | ConsoleErrorObject _ => false
  end.

(** The full diagnostic for a message: that of line 513 or of line 527. *)
Definition reportOf (d : Diagnostic) (message : string) : Prop :=
  d = ConsoleError ("# sampler " ++ message)
  \/ d = ConsoleWarn ("# sampler 2nd error " ++ message).

(** From [s] to [s']: the messages added to [options.samplerErrors] are
    distinct and were not in it, and the full diagnostics written to the
    console are those of the messages added, one each, in order. *)
Definition reportsOnce {World : Type} (s s' : Session World) : Prop :=
  exists (new : list string) (shown : list Diagnostic),
    seen (session_options s') = (seen (session_options s) ++ new)%list
    /\ console s' = (console s ++ shown)%list
    /\ Forall2 reportOf (filter fullReport shown) new
    /\ NoDup new
    /\ (forall m, In m new -> has_message (seen (session_options s)) m = false).

(** A generator that keeps, beside its own state, the list of the
    outcomes of its calls. *)
Definition traced {World : Type}
    (sampler_sample : World -> value -> value -> value -> World * outcome value)
    (w : World * list (outcome value)) (schema samplerOptions defs : value)
  : (World * list (outcome value)) * outcome value :=
  let '(w', r) := sampler_sample (fst w) schema samplerOptions defs in
  ((w', (snd w ++ [r])%list), r).

(** The outcomes of the calls made so far. *)
Definition calls {World : Type} (s : Session (World * list (outcome value)))
  : list (outcome value) :=
  snd (world s).

(** The calls since [s0]: at most [n], and the message of each exception
    among them is in the memo, the one still to report apart. *)
Definition callsSince {World : Type} (s0 : Session (World * list (outcome value)))
    (pending : option string) (n : nat) (s : Session (World * list (outcome value))) : Prop :=
  exists new,
    calls s = (calls s0 ++ new)%list
    /\ (List.length new <= n)%nat
    /\ (forall m, In (Thrown m) new ->
                  Some m = pending \/ has_message (seen (session_options s)) m = true).

(** A generator that throws a message of its own at each call: the number
    of the call. *)
Definition numbering_sampler (w : nat) (schema samplerOptions defs : value)
  : nat * outcome value :=
  (S w, Thrown (if Nat.eqb w 0 then "first" else "second")).

(** A generator that answers with a reference, then with an empty object,
    and throws after that. *)
Definition stubborn_sampler (w : nat) (schema samplerOptions defs : value)
  : nat * outcome value :=
  (S w, match w with
        | O => Returned (VObj [("$ref", VStr "#/components/schemas/Pet")])
        | S O => Returned (VObj [])
        | _ => Thrown "no sample"
        end).

Definition plain_options : Options :=
  {| sample := true; maxDepth := Some 1; verbose := false; samplerErrors := None |}.

Definition quiet_options : Options :=
  {| sample := false; maxDepth := Some 1; verbose := false; samplerErrors := None |}.

(** An object schema with a property of the name [hasOwnProperty]:
    [{type: "object", properties: {hasOwnProperty: {type: "string"}}}], the
    sample a generator gives for it, and a generator that gives it. *)
Definition shadowed_schema : value :=
  VObj [("type", VStr "object");
        ("properties", VObj [("hasOwnProperty", VObj [("type", VStr "string")])])].
Definition shadowed_sample : value := VObj [("hasOwnProperty", VStr "string")].
Definition shadowed_sampler (w : unit) (schema samplerOptions defs : value)
  : unit * outcome value :=
  (w, Returned shadowed_sample).

(** A generator that returns [marked], whatever it is asked. *)
Definition marked_sampler (w : unit) (schema samplerOptions defs : value)
  : unit * outcome value :=
  (w, Returned marked).

(** ** Notions for the rows and the blocks *)

(** [l1] is [l2] with some elements left out. *)
Inductive subsequence {A : Type} : list A -> list A -> Prop :=
| subsequence_nil : subsequence [] []
| subsequence_skip (x : A) (l1 l2 : list A) : subsequence l1 l2 -> subsequence l1 (x :: l2)
| subsequence_keep (x : A) (l1 l2 : list A) : subsequence l1 l2 -> subsequence (x :: l1) (x :: l2).

(** A row, and the rows of a block, [k] levels deeper. *)
Definition deeperEntry (k : Z) (e : Entry) : Entry :=
  {| entry_name := entry_name e; entry_depth := entry_depth e + k;
     entry_required := entry_required e; entry_type := entry_type e;
     entry_schema := entry_schema e |}.

Definition deeperBlock (k : Z) (b : Block) : Block :=
  {| title := title b; rows := map (deeperEntry k) (rows b);
     description := description b; externalDocs := externalDocs b |}.

(** The variables of a walk made with an offset larger by [k]. *)
Definition deeperFlat (k : Z) (f : Flat) : Flat :=
  {| iDepth := iDepth f; oDepth := oDepth f; blockDepth := blockDepth f;
     skipDepth := if skipDepth f <? 0 then skipDepth f else skipDepth f + k;
     closed := map (deeperBlock k) (closed f); block := deeperBlock k (block f) |}.

(** What heads a block. *)
Definition header (b : Block) : value * value * value :=
  (title b, description b, externalDocs b).

(** The header of a block opened during the walk: a title, and no more. *)
Definition titleOnly (h : value * value * value) : Prop :=
  exists t, h = (VStr t, VUndefined, VUndefined).

(** A [oneOf] with a description and documentation, and no title. *)
Definition described : value :=
  VObj [("description", VStr "A cat or a dog");
        ("externalDocs", VObj [("url", VStr "https://example.com/pets")]);
        ("oneOf", VArr [cat; dog])].
Definition described_visits : list Visit :=
  [at_root described;
   at_property cat described 1 "oneOf/0";
   at_property dog described 1 "oneOf/1"].

(** ** The description of a row (lines 423-434) *)

Definition carriageReturn : ascii := ascii_of_nat 13.

(** [d.split('\r').join('')]. *)
Definition withoutReturns (s : string) : string :=
  join "" (split_str (String carriageReturn EmptyString) s).

(** [entry.description] after the three options were applied and the
    string ['undefined'] was reset. *)
Definition formatDescription (formatOptions : FormatOptions) (d : value) : value :=
  let d := match d with
           | VStr s => if trim formatOptions then VStr (trimmed s) else d
           | _ => d
           end in
  let d := match d with
           | VStr s =>
               if join_lines formatOptions
               then VStr (join " " (split_str (String lineFeed EmptyString) (withoutReturns s)))
               else d
           | _ => d
           end in
  let d := match d with
           | VStr s =>
               if truncate formatOptions
               then at_index (split_str (String lineFeed EmptyString) (withoutReturns s)) 0
               else d
           | _ => d
           end in
  if strict_equal d (VStr "undefined") then VStr "" else d.

(** A description of three lines, the second ended the Windows way. *)
Definition three_lines : string :=
  " one" ++ String lineFeed ("two" ++ String carriageReturn (String lineFeed "three ")).

(** ** generateCodeSnippet, getCodeSampleTemplateName, fileTemplateGenerator,
       getCodeSamples (lines 107-201) *)

Definition newLine : string := String lineFeed EmptyString.

(** The template literal of line 200; [lang] and [code] turn into strings
    as under [+]. *)
Definition generateCodeSnippet (lang code : value) : string :=
  "```" ++ ToString lang ++ newLine ++ ToString code ++ newLine ++ "```" ++ newLine ++ newLine.

Definition getCodeSampleTemplateName (target : value) : string :=
  "code_" ++ ToString target.

(** [data], as far as [getCodeSamples] reads it: [data.operation],
    [data.message], [data.header.language_tabs], [data.options.httpsnippet]
    and [data.options.language_clients]. *)
Record SampleData : Type := {
  data_operation : value;
  data_message : value;
  header_language_tabs : list value;
  options_httpsnippet : bool;
  options_language_clients : value
}.

(** [languageCheck] with an argument that need not be a string: a value
    without [toLowerCase] throws. *)
Definition languageCheckOf (language : value) (language_tabs : list value) (mutate : bool)
  : option (value * list value) :=
  match language with
  | VStr l => languageCheck l language_tabs mutate
  | _ => None
  end.

(** [for (var c in v)]: the values at the keys of [v], in order. *)
Definition valuesIn (v : value) : list value :=
  match v with
  | VStr s => map (fun c => VStr (String c EmptyString)) (chars s)
  | _ => children v
  end.

(** Lines 111-115: the loop over [op["x-code-samples"]]; [None] when a
    sample is [null] or [undefined] or its [lang] is not a string. *)
Fixpoint providedSamples (samples : list value) (language_tabs : list value)
    (returnSamples : string) : option (string * list value) :=
  match samples with
  | [] => Some (returnSamples, language_tabs)
  | sample :: rest =>
      match sample with
      | VUndefined | VNull => None
      | _ =>
          match languageCheckOf (get sample "lang") language_tabs true with
          | Some (lang, tabs) =>
              providedSamples rest tabs
                (returnSamples ++ generateCodeSnippet lang (get sample "source"))
          | None => None
          end
      end
  end.

Section CodeSamples.

(** [httpsnippetGenerator.generate(target, client, data)], of the module
    [./httpsnippetGenerator]. *)
Variable httpsnippetGenerate : SampleData -> value -> value -> value.

(** [data.templates[name](data)]: what the template of that name returns,
    [None] when [data.templates] has no such template. *)
Variable templates : SampleData -> string -> option value.

(** Lines 175-179. *)
Definition fileTemplateGenerator (target client : value) (d : SampleData) : value :=
  match templates d (getCodeSampleTemplateName target) with
  | Some text => if truthy text then text else VStr ""
  | None => VStr ""
  end.

(** Lines 117-119. *)
Definition samplesGenerator (d : SampleData) (target client : value) : value :=
  if options_httpsnippet d then httpsnippetGenerate d target client
  else fileTemplateGenerator target client d.

(** Lines 122-133: what [map] makes of one tab. *)
Definition tabSample (d : SampleData) (tab : value) : option string :=
  match (if (typeof tab =? "object")%string then firstKey tab else Some tab) with
  | None => None
  | Some lang =>
      match languageCheckOf lang (header_language_tabs d) false with
      | None => None
      | Some (lowerCaseLanguage, _) =>
          match getLanguageTarget lowerCaseLanguage with
          | None => None
          | Some target =>
              match getLanguageClient lang (options_language_clients d) with
              | None => None
              | Some client =>
                  let sample :=
                    if truthy target then
                      let generated := samplesGenerator d target client in
                      if truthy generated then generated else VStr ""
                    else VStr "" in
                  Some (if truthy sample
                        then generateCodeSnippet lowerCaseLanguage sample
                        else "")
              end
          end
      end
  end.

(** [language_tabs.map(...)]: the samples of the tabs, [None] when one of
    them throws. *)
Fixpoint tabSamples (d : SampleData) (language_tabs : list value) : option (list string) :=
  match language_tabs with
  | [] => Some []
  | tab :: rest =>
      match tabSample d tab with
      | None => None
      | Some text =>
          match tabSamples d rest with
          | None => None
          | Some texts => Some (text :: texts)
          end
      end
  end.

(** [getCodeSamples(data)]: what it returns and [data.header.language_tabs]
    afterwards. *)
Definition getCodeSamples (d : SampleData) : option (string * list value) :=
  let op := if truthy (data_operation d) then data_operation d else data_message d in
  if truthy op && truthy (get op "x-code-samples") then
    providedSamples (valuesIn (get op "x-code-samples")) (header_language_tabs d) ""
  else
    match tabSamples d (header_language_tabs d) with
    | Some codeSamples => Some (join "" codeSamples, header_language_tabs d)
    | None => None
    end.

End CodeSamples.

(** An operation with two samples of its own, in Go and in C#. *)
Definition go_sample : value := VObj [("lang", VStr "Go"); ("source", VStr "package main")].
Definition csharp_sample : value := VObj [("lang", VStr "C#"); ("source", VStr "class A {}")].
Definition sampled_operation : SampleData :=
  {| data_operation := VObj [("x-code-samples", VArr [go_sample; csharp_sample])];
     data_message := VUndefined;
     header_language_tabs := some_tabs;
     options_httpsnippet := false;
     options_language_clients := VArr [] |}.

(** An operation without samples, in a document whose tabs are [Shell] and
    [python]. *)
Definition plain_operation : SampleData :=
  {| data_operation := VObj [("operationId", VStr "listPets")];
     data_message := VUndefined;
     header_language_tabs := [VStr "Shell"; VStr "python"];
     options_httpsnippet := false;
     options_language_clients := VArr [] |}.

(** Templates that return the name they were asked under. *)
Definition echo_templates (d : SampleData) (name : string) : option value :=
  Some (VStr name).

Definition no_snippets (d : SampleData) (target client : value) : value := VStr "".

(* ===================================================================== *)
(** * Properties *)

(** ** inferType *)

(** With an explicit (truthy) [type] the answer is that type. *)
Lemma inferType_explicit (schema : value) :
  truthy (get schema "type") = true -> inferType schema = Some (get schema "type").
Proof.
  intros H. unfold inferType.
  destruct schema; try discriminate; now rewrite H.
Qed.

(** Without one, the only entry of [possibleTypes], or [any]; the schema
    is an object. *)
Lemma inferType_inferred (props : list (string * value)) (types : list string) :
  truthy (get (VObj props) "type") = false ->
  possibleTypes (VObj props) = Some types ->
  inferType (VObj props)
  = Some (VStr (match types with [t] => t | _ => "any" end)).
Proof.
  intros Htype Htypes. unfold inferType. rewrite Htype, Htypes.
  now destruct types as [|t [|t' rest]].
Qed.

Example inferType_minimum_maximum :
  inferType (VObj [("minimum", VNum 0); ("maximum", VNum 10)]) = Some (VStr "number").
Proof. reflexivity. Qed.

(** ** The callback of schemaToArray, one visit at a time *)

Section FlattenerFacts.

Variable jptr : value -> string -> value.
Variable offset : Z.
Variable data : Data.

Lemma all_rows_app (cl : list Block) (b : Block) :
  flat_map rows (cl ++ [b])%list = (flat_map rows cl ++ rows b)%list.
Proof.
  rewrite flat_map_app. simpl. now rewrite app_nil_r.
Qed.

Lemma all_rows_pushBlock (f : Flat) (t : string) (bd : Z) :
  all_rows (pushBlock f (newBlock t) bd) = all_rows f.
Proof.
  unfold all_rows, container, pushBlock; simpl.
  rewrite all_rows_app. simpl. now rewrite app_nil_r.
Qed.

(** Opening a block leaves the depth counters, [skipDepth] and the rows as
    they are. *)
Lemma openBlock_frame (f f1 : Flat) (schema : value) (state : WalkState) :
  openBlock jptr data f schema state = Some f1 ->
  iDepth f1 = iDepth f /\ oDepth f1 = oDepth f /\ skipDepth f1 = skipDepth f
  /\ all_rows f1 = all_rows f.
Proof.
  unfold openBlock.
  destruct (isBlockProperty (state_property state)).
  - destruct (state_property state) as [p|]; [|discriminate].
    destruct (discriminatorSuffix jptr data schema) as [suffix|]; [|discriminate].
    intros H; injection H as <-. now rewrite all_rows_pushBlock.
  - destruct (negb (blockDepth f =? 0) && (state_depth state <? blockDepth f)).
    + intros H; injection H as <-. now rewrite all_rows_pushBlock.
    + intros H; injection H as <-. auto.
Qed.

Lemma visitDepth_frame (f f1 : Flat) (v : Visit) :
  iDepth f1 = iDepth f -> oDepth f1 = oDepth f ->
  visitDepth offset data f1 v = visitDepth offset data f v.
Proof.
  intros Hi Ho. unfold visitDepth. now rewrite Hi, Ho.
Qed.

(** What one invocation of the callback does to the variables of
    [schemaToArray]. *)
Lemma callback_effect (f f' : Flat) (v : Visit) :
  callback jptr offset data f v = Some f' ->
  exists type,
    entryType (visit_schema v) = Some type
    /\ (iDepth f', oDepth f')
       = moveDepth (iDepth f) (oDepth f) (visitName data v) (state_depth (visit_state v))
    /\ skipDepth f' = clearSkip (visitDepth offset data f v) (visitSkip offset data f v)
    /\ all_rows f'
       = (all_rows f
          ++ if kept (visitTop data v) type (entry_name (visitRow offset data f v type))
             then [visitRow offset data f v type] else [])%list.
Proof.
  unfold callback.
  destruct (openBlock jptr data f (visit_schema v) (visit_state v)) as [f1|] eqn:Hopen;
    [|discriminate].
  destruct (openBlock_frame _ _ _ _ Hopen) as (Hi & Ho & Hs & Hrows).
  destruct (moveDepth (iDepth f1) (oDepth f1) (visitName data v)
                      (state_depth (visit_state v))) as [i o] eqn:Hmove.
  destruct (negb (referenceOk (visit_schema v))); [discriminate|].
  destruct (entryType (visit_schema v)) as [type|]; [|discriminate].
  intros H; injection H as <-. exists type.
  assert (Hd : visitDepth offset data f1 v = visitDepth offset data f v)
    by now apply visitDepth_frame.
  assert (Hk : visitSkip offset data f1 v = visitSkip offset data f v)
    by (unfold visitSkip; now rewrite Hd, Hs).
  assert (Hr : visitRow offset data f1 v type = visitRow offset data f v type)
    by (unfold visitRow; now rewrite Hd, Hk).
  rewrite Hi, Ho in Hmove. rewrite Hr, Hd, Hk, <- Hrows.
  unfold all_rows, container.
  change (entry_name (visitRow offset data f v type))
    with (blankName (visitName data v) (visitDepth offset data f v)
                    (visitSkip offset data f v)).
  destruct (kept (visitTop data v) type
                 (blankName (visitName data v) (visitDepth offset data f v)
                            (visitSkip offset data f v)));
    cbn [iDepth oDepth skipDepth closed block]; rewrite !all_rows_app;
    (repeat split; [congruence|]); simpl;
    [now rewrite app_assoc | now rewrite app_nil_r].
Qed.

(** The rows a visit pushes: at most one, named, at the depth of the visit. *)
Lemma callback_rows (f f' : Flat) (v : Visit) :
  callback jptr offset data f v = Some f' ->
  exists new,
    all_rows f' = (all_rows f ++ new)%list
    /\ Forall (fun e => truthy (entry_name e) = true
                        /\ entry_depth e = visitDepth offset data f v) new.
Proof.
  intros H. destruct (callback_effect _ _ _ H) as (type & _ & _ & _ & Hrows).
  destruct (kept (visitTop data v) type (entry_name (visitRow offset data f v type)))
    eqn:Hkept.
  - exists [visitRow offset data f v type]. split; [exact Hrows|].
    constructor; [|constructor]. split; [|reflexivity].
    unfold kept in Hkept. now apply andb_true_iff in Hkept.
  - exists []. split; [exact Hrows | constructor].
Qed.

Lemma displayDepth_nonneg (o : Z) : 0 <= displayDepth offset o.
Proof. unfold displayDepth. lia. Qed.

Lemma displayDepth_mono (o o' : Z) :
  o <= o' -> displayDepth offset o <= displayDepth offset o'.
Proof. unfold displayDepth. lia. Qed.

(** A walk only appends rows, and each is named and at a depth of 0 or more. *)
Lemma walk_rows (visits : list Visit) :
  forall f f', walk jptr offset data f visits = Some f' ->
  exists new,
    all_rows f' = (all_rows f ++ new)%list
    /\ Forall (fun e => truthy (entry_name e) = true /\ 0 <= entry_depth e) new.
Proof.
  induction visits as [|v rest IH]; simpl; intros f f' H.
  - injection H as <-. exists []. split; [now rewrite app_nil_r | constructor].
  - destruct (callback jptr offset data f v) as [f1|] eqn:Hcb; [|discriminate].
    destruct (callback_rows _ _ _ Hcb) as (new1 & Hrows1 & Hnew1).
    destruct (IH _ _ H) as (new2 & Hrows2 & Hnew2).
    exists (new1 ++ new2)%list. split.
    + now rewrite Hrows2, Hrows1, app_assoc.
    + apply Forall_app. split; [|exact Hnew2].
      eapply Forall_impl; [|exact Hnew1]. intros e [Hn Hd]. split; [exact Hn|].
      rewrite Hd. apply displayDepth_nonneg.
Qed.

(** While the walker does not step back to a depth above that of the last
    named node, the indent counter does not fall. *)
Lemma moveDepth_up (i o depth : Z) (name : value) :
  i <= depth ->
  o <= snd (moveDepth i o name depth)
  /\ fst (moveDepth i o name depth) <= depth.
Proof.
  intros Hle. unfold moveDepth. destruct (truthy name); simpl; [|lia].
  destruct (depth >? i) eqn:Hgt; destruct (depth <? i) eqn:Hlt; lia.
Qed.

(** A segment in which the depth of the walker never falls below that of
    the node before, entered with [iDepth] at most the first depth: the rows
    it pushes are at non-decreasing depths, none above that of the indent
    counter at the start. *)
Lemma walk_ascending (visits : list Visit) :
  forall f f',
    StronglySorted Z.le (map (fun v => state_depth (visit_state v)) visits) ->
    Forall (fun v => iDepth f <= state_depth (visit_state v)) visits ->
    walk jptr offset data f visits = Some f' ->
    exists new,
      all_rows f' = (all_rows f ++ new)%list
      /\ StronglySorted Z.le (map entry_depth new)
      /\ Forall (fun e => displayDepth offset (oDepth f) <= entry_depth e) new.
Proof.
  induction visits as [|v rest IH]; simpl; intros f f' Hsorted Hlow H.
  - injection H as <-. exists []. repeat split; [now rewrite app_nil_r | constructor | constructor].
  - destruct (callback jptr offset data f v) as [f1|] eqn:Hcb; [|discriminate].
    apply StronglySorted_inv in Hsorted as [Hsorted Hhead].
    inversion Hlow as [|? ? Hv Hrest]; subst.
    destruct (callback_effect _ _ _ Hcb) as (type & _ & Hmove & _ & _).
    destruct (moveDepth_up (iDepth f) (oDepth f) (state_depth (visit_state v))
                           (visitName data v) Hv) as [Ho Hi].
    rewrite <- Hmove in Ho, Hi; simpl in Ho, Hi.
    destruct (callback_rows _ _ _ Hcb) as (new1 & Hrows1 & Hnew1).
    assert (Hd1 : Forall (fun e => entry_depth e = displayDepth offset (oDepth f1)) new1).
    { eapply Forall_impl; [|exact Hnew1]. intros e [_ He]. rewrite He.
      unfold visitDepth. now rewrite <- Hmove. }
    assert (Hlow1 : Forall (fun v' => iDepth f1 <= state_depth (visit_state v')) rest).
    { rewrite Forall_map in Hhead. eapply Forall_impl; [|exact Hhead].
      intros v' Hv'. simpl in Hv'. lia. }
    destruct (IH _ _ Hsorted Hlow1 H) as (new2 & Hrows2 & Hsorted2 & Hlow2).
    exists (new1 ++ new2)%list. repeat split.
    + now rewrite Hrows2, Hrows1, app_assoc.
    + clear Hrows1 Hnew1. induction new1 as [|e new1 IHnew]; simpl; [exact Hsorted2|].
      inversion Hd1 as [|? ? He Hd1']; subst. constructor; [now apply IHnew|].
      rewrite map_app. apply Forall_app. split.
      * rewrite Forall_map. eapply Forall_impl; [|exact Hd1'].
        intros e' He'. cbv beta in *. lia.
      * rewrite Forall_map. eapply Forall_impl; [|exact Hlow2].
        intros e' He'. cbv beta in *. lia.
    + apply Forall_app. split.
      * eapply Forall_impl; [|exact Hd1]. intros e He. rewrite He.
        now apply displayDepth_mono.
      * eapply Forall_impl; [|exact Hlow2]. intros e He.
        pose proof (displayDepth_mono _ _ Ho). cbv beta in *. lia.
Qed.

(** A node without a name pushes no row and leaves the counters alone. *)
Lemma callback_unnamed (f f' : Flat) (v : Visit) :
  truthy (visitName data v) = false ->
  callback jptr offset data f v = Some f' ->
  all_rows f' = all_rows f /\ iDepth f' = iDepth f /\ oDepth f' = oDepth f.
Proof.
  intros Hname H. destruct (callback_effect _ _ _ H) as (type & _ & Hmove & _ & Hrows).
  unfold moveDepth in Hmove. rewrite Hname in Hmove. injection Hmove as Hi Ho.
  repeat split; auto. rewrite Hrows.
  assert (Hk : kept (visitTop data v) type (entry_name (visitRow offset data f v type)) = false).
  { unfold kept, visitRow, blankName, markerBlank; simpl.
    destruct (visitName data v) as [| |b|n|s|items|props]; simpl in Hname; try discriminate;
      repeat match goal with |- context [if ?c then _ else _] => destruct c end;
      simpl; rewrite ?Hname; now rewrite ?andb_false_r. }
  rewrite Hk. now rewrite app_nil_r.
Qed.

End FlattenerFacts.

(** ** Rows: names, depths, the top-level object *)

Section FlattenerProperties.

Variable jptr : value -> string -> value.
Variable offset : Z.
Variable data : Data.

(** A named node sets [iDepth] to the depth of the walker. *)
Lemma callback_named (f f' : Flat) (v : Visit) :
  truthy (visitName data v) = true ->
  callback jptr offset data f v = Some f' ->
  iDepth f' = state_depth (visit_state v).
Proof.
  intros Hname H. destruct (callback_effect _ _ _ _ _ _ H) as (type & _ & Hmove & _).
  unfold moveDepth in Hmove. rewrite Hname in Hmove. now injection Hmove.
Qed.

(** The rows of a segment of the walk in which the depth of the walker
    never falls, whatever the variables at its start. *)
Lemma walk_segment (visits : list Visit) :
  forall f f',
    StronglySorted Z.le (map (fun v => state_depth (visit_state v)) visits) ->
    walk jptr offset data f visits = Some f' ->
    exists new,
      all_rows f' = (all_rows f ++ new)%list
      /\ StronglySorted Z.le (map entry_depth new).
Proof.
  induction visits as [|v rest IH]; simpl; intros f f' Hsorted H.
  - injection H as <-. exists []. split; [now rewrite app_nil_r | constructor].
  - destruct (callback jptr offset data f v) as [f1|] eqn:Hcb; [|discriminate].
    apply StronglySorted_inv in Hsorted as [Hsorted Hhead].
    destruct (truthy (visitName data v)) eqn:Hname.
    + pose proof (callback_named _ _ _ Hname Hcb) as Hi.
      destruct (callback_effect _ _ _ _ _ _ Hcb) as (type & _ & Hmove & _ & _).
      destruct (callback_rows _ _ _ _ _ _ Hcb) as (new1 & Hrows1 & Hnew1).
      assert (Hlow : Forall (fun v' => iDepth f1 <= state_depth (visit_state v')) rest).
      { rewrite Forall_map in Hhead. rewrite Hi. exact Hhead. }
      destruct (walk_ascending _ _ _ _ _ _ Hsorted Hlow H) as (new2 & Hrows2 & Hsorted2 & Hlow2).
      exists (new1 ++ new2)%list. split; [now rewrite Hrows2, Hrows1, app_assoc|].
      assert (Hd1 : Forall (fun e => entry_depth e = displayDepth offset (oDepth f1)) new1).
      { eapply Forall_impl; [|exact Hnew1]. intros e [_ He]. rewrite He.
        unfold visitDepth. now rewrite <- Hmove. }
      clear Hrows1 Hnew1. induction new1 as [|e new1 IHnew]; simpl; [exact Hsorted2|].
      inversion Hd1 as [|? ? He Hd1']; subst. constructor; [now apply IHnew|].
      rewrite map_app. apply Forall_app. split.
      * rewrite Forall_map. eapply Forall_impl; [|exact Hd1'].
        intros e' He'. cbv beta in *. lia.
      * rewrite Forall_map. eapply Forall_impl; [|exact Hlow2].
        intros e' He'. cbv beta in *. lia.
    + destruct (callback_unnamed _ _ _ _ _ _ Hname Hcb) as (Hrows1 & _ & _).
      destruct (IH _ _ Hsorted H) as (new2 & Hrows2 & Hsorted2).
      exists new2. split; [now rewrite Hrows2, Hrows1 | exact Hsorted2].
Qed.

(** C7.  Every row the flattener pushes has [depth >= 0], whatever the
    schema, the walk and the caller's [offset] (negative ones included);
    and over a segment of the walk along which the walker only goes deeper
    (its depth never falls from one node to the next) the depths of the
    rows pushed do not decrease. *)
Theorem depth_invariant (f f' : Flat) (visits : list Visit) :
  walk jptr offset data f visits = Some f' ->
  exists new,
    all_rows f' = (all_rows f ++ new)%list
    /\ Forall (fun e => 0 <= entry_depth e) new
    /\ (StronglySorted Z.le (map (fun v => state_depth (visit_state v)) visits) ->
        StronglySorted Z.le (map entry_depth new)).
Proof.
  intros H. destruct (walk_rows _ _ _ _ _ _ H) as (new & Hrows & Hnew).
  exists new. split; [exact Hrows|]. split.
  - eapply Forall_impl; [|exact Hnew]. now intros e [_ He].
  - intros Hsorted. destruct (walk_segment _ _ _ Hsorted H) as (new' & Hrows' & Hsorted').
    rewrite Hrows in Hrows'. apply app_inv_head in Hrows'. now subst.
Qed.

Lemma blankName_unnamed (name : value) (depth skip : Z) :
  unnamed name -> truthy (blankName name depth skip) = false.
Proof.
  intros [Hf | (s & -> & Hs)]; unfold blankName, markerBlank.
  - destruct ((skip >=? 0) && (depth >=? skip)); [reflexivity|].
    destruct name as [| |b|n|s|items|props]; try exact Hf.
    now destruct (startsWith s "x-widdershins-").
  - rewrite Hs. now destruct ((skip >=? 0) && (depth >=? skip)).
Qed.

(** C8.  Every row in every block the flattener returns has a non-empty
    name; a node whose name is empty when the code is done deriving it, or
    is a string with the marker prefix [x-widdershins-], gets no row. *)
Theorem rows_are_named (walkSchema : value -> list Visit) (schema : value)
    (formatOptions : FormatOptions) (blocks : list Block) :
  schemaToArray jptr offset data walkSchema schema formatOptions = Some blocks ->
  Forall (fun b => Forall (fun e => truthy (entry_name e) = true) (rows b)) blocks
  /\ (forall f f' v,
        callback jptr offset data f v = Some f' ->
        unnamed (visitName data v) -> all_rows f' = all_rows f).
Proof.
  unfold schemaToArray. intros H. split.
  - destruct (walk jptr offset data (initial schema) (walkSchema schema)) as [f|] eqn:Hwalk;
      [|discriminate].
    injection H as <-. destruct (walk_rows _ _ _ _ _ _ Hwalk) as (new & Hrows & Hnew).
    apply Forall_flat_map. fold (all_rows f). rewrite Hrows.
    replace (all_rows (initial schema)) with (@nil Entry).
    + simpl. eapply Forall_impl; [|exact Hnew]. now intros e [He _].
    + unfold all_rows, container, initial, rootBlock, newBlock; simpl.
      now destruct (truthy schema).
  - intros f f' v Hcb Hname.
    destruct (callback_effect _ _ _ _ _ _ Hcb) as (type & _ & _ & _ & Hrows).
    rewrite Hrows. unfold kept, visitRow; simpl.
    rewrite (blankName_unnamed _ _ _ Hname). now rewrite andb_false_r, app_nil_r.
Qed.

(** A node whose row type is ['object'] keeps [state.top] as the walker
    set it. *)
Lemma visitTop_object (v : Visit) :
  entryType (visit_schema v) = Some (VStr "object") ->
  visitTop data v = state_top (visit_state v).
Proof.
  unfold entryType, declaredType, visitTop, adjustTop, inferType.
  destruct (truthy (get (visit_schema v) "$ref")); simpl; [discriminate|].
  destruct (get (visit_schema v) "type") as [| |b|n|s|items|props] eqn:Htype; simpl;
    try discriminate.
  - intros _. now rewrite !andb_false_r.
  - intros H; injection H as ->. simpl. now rewrite !andb_false_r.
Qed.

(** C10.  The top-level node ([state.top]) whose row type is ['object']
    pushes no row, named or not: the test of line 458 reads [state.top] and
    [entry.type], not the name. *)
Theorem top_level_object_has_no_row (f f' : Flat) (v : Visit) :
  state_top (visit_state v) = true ->
  entryType (visit_schema v) = Some (VStr "object") ->
  callback jptr offset data f v = Some f' ->
  all_rows f' = all_rows f.
Proof.
  intros Htop Htype Hcb.
  destruct (callback_effect _ _ _ _ _ _ Hcb) as (type & Htype' & _ & _ & Hrows).
  rewrite Htype in Htype'. injection Htype' as <-.
  rewrite Hrows, (visitTop_object _ Htype), Htop. unfold kept; simpl.
  now rewrite app_nil_r.
Qed.

(** *** Block titles *)

Lemma split_segment (sep : ascii) (s rest : string) :
  indexOf sep s = -1 ->
  split sep (s ++ String sep rest) = s :: split sep rest.
Proof.
  induction s as [|c s IH]; simpl.
  - intros _. now rewrite Ascii.eqb_refl.
  - destruct (Ascii.eqb c sep); [discriminate|].
    destruct (indexOf sep s <? 0) eqn:Hneg; [|lia].
    intros _. rewrite IH; [reflexivity|].
    assert (H : forall t, -1 <= indexOf sep t).
    { clear. induction t as [|a t IHt]; simpl; [lia|].
      destruct (Ascii.eqb a sep); [lia|]. destruct (indexOf sep t <? 0); lia. }
    specialize (H s). lia.
Qed.

(** [components[0]] after lines 297-302 is the title the specification
    gives the branch. *)
Lemma blockWord_branch (keyword index : string) :
  In keyword ["allOf"; "anyOf"; "oneOf"] ->
  indexOf "/" index = -1 ->
  isBlockProperty (Some (keyword ++ "/" ++ index)) = true
  /\ blockWord (keyword ++ "/" ++ index) = branchTitle keyword index.
Proof.
  intros Hkw Hidx. unfold blockWord, branchTitle.
  destruct Hkw as [<- | [<- | [<- | []]]]; (split; [reflexivity|]); simpl;
    change (index ++ "/0") with (index ++ String "/" "0");
    rewrite (split_segment _ _ _ Hidx); simpl;
    now destruct (index =? "0")%string.
Qed.

(** What lines 304-312 append to the title, when they do not throw, is
    what the amended claim says. *)
Lemma discriminatorSuffix_title (schema : value) (suffix : string) :
  discriminatorSuffix jptr data schema = Some suffix ->
  suffix = discriminatorTitle (jptr (api data)) schema.
Proof.
  unfold discriminatorSuffix, discriminatorTitle.
  destruct (get schema "$ref") as [| |b|n|r|items|props] eqn:Href; simpl.
  - destruct schema; try discriminate;
      destruct (truthy (get _ "discriminator")); intros H; now injection H.
  - destruct schema; try discriminate;
      destruct (truthy (get _ "discriminator")); intros H; now injection H.
  - destruct b; [discriminate|].
    destruct schema; try discriminate;
      destruct (truthy (get _ "discriminator")); intros H; now injection H.
  - destruct (negb (n =? 0)); [discriminate|].
    destruct schema; try discriminate;
      destruct (truthy (get _ "discriminator")); intros H; now injection H.
  - destruct r as [|c pointer]; simpl.
    + destruct schema; try discriminate;
        destruct (truthy (get _ "discriminator")); intros H; now injection H.
    + destruct (jptr (api data) (String c pointer)); try discriminate;
        destruct (truthy (get _ "discriminator")); intros H; now injection H.
  - discriminate.
  - discriminate.
Qed.

(** The block a visit leaves open: the one [openBlock] made, whose title
    a push does not change. *)
Lemma callback_block (f f' : Flat) (v : Visit) :
  callback jptr offset data f v = Some f' ->
  exists f1,
    openBlock jptr data f (visit_schema v) (visit_state v) = Some f1
    /\ closed f' = closed f1 /\ title (block f') = title (block f1).
Proof.
  unfold callback.
  destruct (openBlock jptr data f (visit_schema v) (visit_state v)) as [f1|];
    [|discriminate].
  destruct (moveDepth (iDepth f1) (oDepth f1) (visitName data v)
                      (state_depth (visit_state v))) as [i o].
  destruct (negb (referenceOk (visit_schema v))); [discriminate|].
  destruct (entryType (visit_schema v)) as [type|]; [|discriminate].
  intros H; injection H as <-. exists f1. simpl.
  repeat split. now destruct (kept _ _ _).
Qed.

(** C5, as amended.  A visit on the slot [keyword/index] of [allOf],
    [anyOf] or [oneOf] closes the block that was open and opens one whose
    title is the keyword for index 0 and the translated word ([and], [or],
    [xor]) for a later index, followed by what the discriminator adds
    ([discriminatorTitle]): nothing when there is none, else
    [ - discriminator: ] and its property name, with the name of the target
    and a dot before it when the branch is a reference. *)
Theorem combinator_block_title (f f' : Flat) (v : Visit) (keyword index : string) :
  In keyword ["allOf"; "anyOf"; "oneOf"] ->
  indexOf "/" index = -1 ->
  state_property (visit_state v) = Some (keyword ++ "/" ++ index) ->
  callback jptr offset data f v = Some f' ->
  closed f' = (closed f ++ [block f])%list
  /\ title (block f')
     = VStr (branchTitle keyword index
             ++ discriminatorTitle (jptr (api data)) (visit_schema v)).
Proof.
  intros Hkw Hidx Hprop Hcb.
  destruct (callback_block _ _ _ Hcb) as (f1 & Hopen & Hclosed & Htitle).
  destruct (blockWord_branch _ _ Hkw Hidx) as [Hblock Hword].
  unfold openBlock in Hopen. rewrite Hprop, Hblock in Hopen.
  destruct (discriminatorSuffix jptr data (visit_schema v)) as [suffix|] eqn:Hsuffix;
    [|discriminate].
  injection Hopen as <-.
  rewrite Hclosed, Htitle. cbn [title block closed pushBlock newBlock].
  change ("/" ++ index) with (String "/" index) in Hword. rewrite Hword.
  now rewrite (discriminatorSuffix_title _ _ Hsuffix).
Qed.

(** *** Shallow rendering *)

Lemma visitSkip_reference (f : Flat) (v : Visit) :
  shallowSchemas (options data) = true ->
  isReference (visit_schema v) = true ->
  visitSkip offset data f v = visitDepth offset data f v.
Proof.
  intros Hshallow Href. unfold visitSkip, markSkip. now rewrite Hshallow, Href.
Qed.

Lemma visitSkip_disabled (f : Flat) (v : Visit) :
  shallowSchemas (options data) = false ->
  visitSkip offset data f v = skipDepth f.
Proof.
  intros Hshallow. unfold visitSkip, markSkip. now rewrite Hshallow, andb_false_r.
Qed.

Lemma visitDepth_nonneg (f : Flat) (v : Visit) : 0 <= visitDepth offset data f v.
Proof. unfold visitDepth. apply displayDepth_nonneg. Qed.

(** A visit at or below the depth to skip from pushes nothing and keeps
    that depth. *)
Lemma callback_skipped (f f' : Flat) (v : Visit) :
  0 <= visitSkip offset data f v <= visitDepth offset data f v ->
  callback jptr offset data f v = Some f' ->
  all_rows f' = all_rows f /\ skipDepth f' = visitSkip offset data f v.
Proof.
  intros Hskip Hcb.
  destruct (callback_effect _ _ _ _ _ _ Hcb) as (type & _ & _ & Hs & Hrows).
  split.
  - rewrite Hrows. unfold kept, visitRow, blankName; simpl.
    replace ((visitSkip offset data f v >=? 0)
             && (visitDepth offset data f v >=? visitSkip offset data f v)) with true
      by (symmetry; apply andb_true_iff; split; lia).
    simpl. now rewrite andb_false_r, app_nil_r.
  - rewrite Hs. unfold clearSkip.
    destruct (visitDepth offset data f v <? visitSkip offset data f v) eqn:Hlt; [lia|reflexivity].
Qed.

(** What one visit does to [skipDepth] and to the rows.  With
    [shallowSchemas] set, a node that carries the marker or a live [$ref]
    sets [skipDepth] to its own depth and pushes no row, its own included;
    while [skipDepth] is 0 or more, a node at that depth or deeper pushes
    no row, and a node above that depth, when it does not set [skipDepth]
    itself, puts it back to -1.  With the option not set [skipDepth] stays
    at -1 and the only reset of a name is that of the marker prefix. *)
Lemma skipDepth_window (f f' : Flat) (v : Visit) :
  callback jptr offset data f v = Some f' ->
  (shallowSchemas (options data) = true ->
   isReference (visit_schema v) = true ->
   all_rows f' = all_rows f /\ skipDepth f' = visitDepth offset data f v)
  /\ (0 <= skipDepth f <= visitDepth offset data f v ->
      all_rows f' = all_rows f /\ 0 <= skipDepth f')
  /\ (visitDepth offset data f v < skipDepth f ->
      isReference (visit_schema v) && shallowSchemas (options data) = false ->
      skipDepth f' = -1)
  /\ (shallowSchemas (options data) = false ->
      skipDepth f = -1 ->
      skipDepth f' = -1
      /\ exists type,
           entryType (visit_schema v) = Some type
           /\ all_rows f'
              = (all_rows f
                 ++ if kept (visitTop data v) type (markerBlank (visitName data v))
                    then [visitRow offset data f v type] else [])%list
           /\ entry_name (visitRow offset data f v type) = markerBlank (visitName data v)).
Proof.
  intros Hcb. pose proof (visitDepth_nonneg f v) as Hd.
  split; [|split; [|split]].
  - intros Hshallow Href.
    apply (callback_skipped _ _ _) in Hcb.
    + rewrite visitSkip_reference in Hcb by assumption. exact Hcb.
    + rewrite visitSkip_reference by assumption. lia.
  - intros Hskip.
    assert (Hin : 0 <= visitSkip offset data f v <= visitDepth offset data f v).
    { unfold visitSkip, markSkip.
      destruct (isReference (visit_schema v) && shallowSchemas (options data)); lia. }
    apply (callback_skipped _ _ _ Hin) in Hcb. destruct Hcb as [Hrows Hs].
    split; [exact Hrows | lia].
  - intros Hbelow Href.
    destruct (callback_effect _ _ _ _ _ _ Hcb) as (type & _ & _ & Hs & _).
    rewrite Hs. unfold visitSkip, markSkip, clearSkip. rewrite Href.
    destruct (visitDepth offset data f v <? skipDepth f) eqn:Hlt; [reflexivity | lia].
  - intros Hshallow Hskip.
    destruct (callback_effect _ _ _ _ _ _ Hcb) as (type & Htype & _ & Hs & Hrows).
    split.
    + rewrite Hs, visitSkip_disabled by assumption. unfold clearSkip.
      destruct (visitDepth offset data f v <? skipDepth f); [reflexivity | assumption].
    + exists type.
      assert (Hname : entry_name (visitRow offset data f v type)
                      = markerBlank (visitName data v)).
      { unfold visitRow, blankName; simpl. rewrite visitSkip_disabled by assumption.
        replace (skipDepth f >=? 0) with false
          by (rewrite Z.geb_leb; symmetry; apply Z.leb_gt; lia).
        reflexivity. }
      rewrite Hname in Hrows. auto.
Qed.

(** With the option not set [skipDepth] never leaves -1. *)
Lemma walk_disabled (visits : list Visit) :
  shallowSchemas (options data) = false ->
  forall f f',
    skipDepth f = -1 ->
    walk jptr offset data f visits = Some f' ->
    skipDepth f' = -1.
Proof.
  intros Hshallow. induction visits as [|v rest IH]; simpl; intros f f' Hskip H.
  - now injection H as <-.
  - destruct (callback jptr offset data f v) as [f1|] eqn:Hcb; [|discriminate].
    apply (IH f1); [|exact H].
    destruct (callback_effect _ _ _ _ _ _ Hcb) as (type & _ & _ & Hs & _).
    rewrite Hs, visitSkip_disabled by assumption. unfold clearSkip.
    destruct (visitDepth offset data f v <? skipDepth f); [reflexivity | assumption].
Qed.

(** *** Required *)

(** A name that makes a row is the name the code derived. *)
Lemma blankName_kept (name : value) (depth skip : Z) :
  truthy (blankName name depth skip) = true -> blankName name depth skip = name.
Proof.
  unfold blankName, markerBlank.
  destruct ((skip >=? 0) && (depth >=? skip)); [discriminate|].
  destruct name as [| |b|n|s|items|props]; try reflexivity.
  now destruct (startsWith s "x-widdershins-").
Qed.

(** The [required] of a row is computed from the parent of the node and
    the name of the row. *)
Lemma row_required (f f' : Flat) (v : Visit) :
  callback jptr offset data f v = Some f' ->
  exists new,
    all_rows f' = (all_rows f ++ new)%list
    /\ Forall (fun e => entry_required e = requiredOf (visit_parent v) (entry_name e)) new.
Proof.
  intros H. destruct (callback_effect _ _ _ _ _ _ H) as (type & _ & _ & _ & Hrows).
  destruct (kept (visitTop data v) type (entry_name (visitRow offset data f v type)))
    eqn:Hkept.
  - exists [visitRow offset data f v type]. split; [exact Hrows|].
    constructor; [|constructor].
    unfold kept in Hkept. apply andb_true_iff in Hkept as [_ Hname].
    simpl in *. now rewrite (blankName_kept _ _ _ Hname).
  - exists []. split; [exact Hrows | constructor].
Qed.

(** [entry.required] is [true] exactly when the parent's [required] is an
    array that has the name. *)
Lemma requiredOf_true (parent name : value) :
  requiredOf parent name = VBool true
  <-> exists names, get parent "required" = VArr names /\ includes names name = true.
Proof.
  unfold requiredOf. split.
  - destruct (get parent "required") as [| |b|n|s|items|props]; simpl; try discriminate.
    + destruct b; discriminate.
    + destruct (negb (n =? 0)); discriminate.
    + destruct (negb (s =? "")%string); discriminate.
    + intros H. exists items. split; [reflexivity|]. now injection H.
  - intros (names & -> & ->). reflexivity.
Qed.

(** Without a [required] key, or with one that is truthy and not an array,
    [entry.required] is [false]. *)
Lemma requiredOf_false (parent name : value) :
  is_undefined (get parent "required") = true
  \/ (truthy (get parent "required") = true /\ isArray (get parent "required") = false) ->
  requiredOf parent name = VBool false.
Proof.
  unfold requiredOf.
  destruct (get parent "required") as [| |b|n|s|items|props]; simpl;
    intros [H | [Ht Ha]]; try discriminate; try reflexivity;
    try (rewrite Ht; reflexivity).
Qed.

End FlattenerProperties.

(** ** strim *)

Lemma set_nth_ext {A : Type} (f g : A -> A) (l : list A) (i : nat) :
  (forall x, f x = g x) -> set_nth l i f = set_nth l i g.
Proof.
  intros Hfg. revert i. induction l as [|x l IH]; intros [|i]; simpl; congruence.
Qed.

Lemma set_nth_id {A : Type} (l : list A) (i : nat) : set_nth l i (fun x => x) = l.
Proof.
  revert i. induction l as [|x l IH]; intros [|i]; simpl; congruence.
Qed.

Lemma set_nth_twice {A : Type} (f g : A -> A) (l : list A) (i : nat) :
  set_nth (set_nth l i f) i g = set_nth l i (fun x => g (f x)).
Proof.
  revert i. induction l as [|x l IH]; intros [|i]; simpl; congruence.
Qed.

(** The element after [done] is the one at position [length done]. *)
Lemma set_nth_middle {A : Type} (f : A -> A) (done rest : list A) (x : A) :
  set_nth (done ++ x :: rest)%list (List.length done) f = (done ++ f x :: rest)%list.
Proof.
  induction done as [|y done IH]; simpl; congruence.
Qed.

Lemma update_child_ext (f g : value -> value) (v : value) (i : nat) :
  (forall x, f x = g x) -> update_child v i f = update_child v i g.
Proof.
  intros Hfg. destruct v; simpl; try reflexivity; f_equal; apply set_nth_ext;
    intros; now rewrite ?Hfg.
Qed.

Lemma update_child_id (v : value) (i : nat) : update_child v i (fun x => x) = v.
Proof.
  destruct v; simpl; try reflexivity; f_equal.
  - apply set_nth_id.
  - rewrite <- (set_nth_id props i) at 2. apply set_nth_ext. now intros [k x].
Qed.

Lemma update_child_twice (f g : value -> value) (v : value) (i : nat) :
  update_child (update_child v i f) i g = update_child v i (fun x => g (f x)).
Proof.
  destruct v; simpl; try reflexivity; f_equal; apply set_nth_twice.
Qed.

Lemma write_at_ext (place : list nat) :
  forall (f g : value -> value) (root : value),
    (forall x, f x = g x) -> write_at root place f = write_at root place g.
Proof.
  induction place as [|i rest IH]; simpl; intros f g root Hfg; [apply Hfg|].
  apply update_child_ext. intros c. now apply IH.
Qed.

Lemma write_at_id (place : list nat) :
  forall root, write_at root place (fun x => x) = root.
Proof.
  induction place as [|i rest IH]; simpl; intros root; [reflexivity|].
  rewrite <- (update_child_id root i) at 2. apply update_child_ext. exact IH.
Qed.

(** A write below [p ++ q] is a write below [q] in what is at [p]. *)
Lemma write_at_app (p q : list nat) :
  forall (f : value -> value) (root : value),
    write_at root (p ++ q)%list f = write_at root p (fun x => write_at x q f).
Proof.
  induction p as [|i p IH]; simpl; intros f root; [reflexivity|].
  apply update_child_ext. intros c. apply IH.
Qed.

Lemma write_at_twice (place : list nat) :
  forall (f g : value -> value) (root : value),
    write_at (write_at root place f) place g = write_at root place (fun x => g (f x)).
Proof.
  induction place as [|i rest IH]; simpl; intros f g root; [reflexivity|].
  rewrite update_child_twice. apply update_child_ext. intros c. apply IH.
Qed.

Lemma each_map {A : Type} (g : RecurseState -> RecurseState)
    (at1 at2 : A -> nat -> list RecurseState) (l : list A) :
  Forall (fun c => forall i, at1 c i = map g (at2 c i)) l ->
  forall i, each at1 l i = map g (each at2 l i).
Proof.
  induction 1 as [|c rest Hc _ IH]; simpl; intros i; [reflexivity|].
  now rewrite map_app, Hc, IH.
Qed.

(** The calls for a value in the slot [p ++ q] are those for the value in
    the slot [q], made under [p]. *)
Lemma invocations_below (v : value) :
  forall (depth : Z) (p q : list nat),
    invocations v depth (p ++ q)%list = map (below p) (invocations v depth q).
Proof.
  induction v as [| |b|n|s|items IH|props IH] using value_induction;
    intros depth p q; simpl; try reflexivity.
  - apply each_map. eapply Forall_impl; [|exact IH].
    intros c Hc i. simpl. unfold below at 1; simpl. f_equal.
    rewrite <- app_assoc. apply Hc.
  - apply each_map. eapply Forall_impl; [|exact IH].
    intros kv Hkv i. simpl. unfold below at 1; simpl. f_equal.
    rewrite <- app_assoc. apply Hkv.
Qed.

Section Limit.

Variable limit : Z.

(** A call made under a slot changes what is in the slot, as the same call
    made at the root changes the root. *)
Lemma strimCallback_below (p : list nat) (state : RecurseState) (root : value) :
  strimCallback (Some limit) root (below p state)
  = write_at root p (fun x => strimCallback (Some limit) x state).
Proof.
  unfold strimCallback; simpl.
  destruct (recurse_depth state >=? limit);
    [apply write_at_app | symmetry; apply write_at_id].
Qed.

Lemma fold_below (p : list nat) (states : list RecurseState) :
  forall root,
    fold_left (strimCallback (Some limit)) (map (below p) states) root
    = write_at root p (fun x => fold_left (strimCallback (Some limit)) states x).
Proof.
  induction states as [|state rest IH]; simpl; intros root.
  - now rewrite write_at_id.
  - now rewrite IH, strimCallback_below, write_at_twice.
Qed.

(** Once a container is empty no call changes it. *)
Lemma fold_empty (states : list RecurseState) :
  fold_left (strimCallback (Some limit)) states (VArr []) = VArr []
  /\ fold_left (strimCallback (Some limit)) states (VObj []) = VObj [].
Proof.
  induction states as [|state rest [IHa IHo]]; simpl; [auto|].
  assert (H : strimCallback (Some limit) (VArr []) state = VArr []
              /\ strimCallback (Some limit) (VObj []) state = VObj []).
  { unfold strimCallback; simpl.
    destruct (recurse_depth state >=? limit); [|auto].
    destruct (recurse_slot state) as [|i slot]; simpl; auto. }
  destruct H as [-> ->]. auto.
Qed.

(** The calls for the elements [rest] of an array, the elements [done]
    before them having been dealt with: each element is replaced by what
    its own calls make of it. *)
Lemma fold_each_items (depth : Z) (rest : list value) :
  (depth >=? limit) = false ->
  Forall (fun c => forall d,
            fold_left (strimCallback (Some limit)) (invocations c d []) c
            = truncated limit d c) rest ->
  forall done,
    fold_left (strimCallback (Some limit))
      (each (fun c i =>
               {| recurse_depth := depth; recurse_slot := [] |}
               :: invocations c (depth + 1) ([] ++ [i])%list) rest (List.length done))
      (VArr (done ++ rest)%list)
    = VArr (done ++ map (truncated limit (depth + 1)) rest)%list.
Proof.
  intros Hdepth. induction 1 as [|c rest Hc _ IH]; simpl; intros done; [reflexivity|].
  rewrite fold_left_app. simpl.
  replace (strimCallback (Some limit) (VArr (done ++ c :: rest)%list)
             {| recurse_depth := depth; recurse_slot := [] |})
    with (VArr (done ++ c :: rest)%list)
    by (unfold strimCallback; simpl; now rewrite Hdepth).
  change [List.length done] with ([List.length done] ++ [])%list.
  rewrite invocations_below, fold_below. simpl.
  rewrite set_nth_middle, Hc.
  specialize (IH (done ++ [truncated limit (depth + 1) c])%list).
  rewrite length_app, Nat.add_1_r, <- !app_assoc in IH. exact IH.
Qed.

Lemma fold_each_props (depth : Z) (rest : list (string * value)) :
  (depth >=? limit) = false ->
  Forall (fun kv => forall d,
            fold_left (strimCallback (Some limit)) (invocations (snd kv) d []) (snd kv)
            = truncated limit d (snd kv)) rest ->
  forall done,
    fold_left (strimCallback (Some limit))
      (each (fun kv i =>
               {| recurse_depth := depth; recurse_slot := [] |}
               :: invocations (snd kv) (depth + 1) ([] ++ [i])%list) rest (List.length done))
      (VObj (done ++ rest)%list)
    = VObj (done ++ map (fun kv => (fst kv, truncated limit (depth + 1) (snd kv))) rest)%list.
Proof.
  intros Hdepth. induction 1 as [|kv rest Hkv _ IH]; simpl; intros done; [reflexivity|].
  rewrite fold_left_app. simpl.
  replace (strimCallback (Some limit) (VObj (done ++ kv :: rest)%list)
             {| recurse_depth := depth; recurse_slot := [] |})
    with (VObj (done ++ kv :: rest)%list)
    by (unfold strimCallback; simpl; now rewrite Hdepth).
  change [List.length done] with ([List.length done] ++ [])%list.
  rewrite invocations_below, fold_below. simpl.
  rewrite set_nth_middle, Hkv. simpl.
  specialize (IH (done ++ [(fst kv, truncated limit (depth + 1) (snd kv))])%list).
  rewrite length_app, Nat.add_1_r, <- !app_assoc in IH. exact IH.
Qed.

(** The calls of [recurse] for a value, with the callback of [strim], make
    of the value what the specification says. *)
Lemma fold_invocations (v : value) :
  forall depth,
    fold_left (strimCallback (Some limit)) (invocations v depth []) v
    = truncated limit depth v.
Proof.
  induction v as [| |b|n|s|items IH|props IH] using value_induction;
    intros depth; try reflexivity.
  - simpl. destruct (depth >=? limit) eqn:Hdepth.
    + destruct items as [|c rest]; [reflexivity|]. simpl.
      replace (strimCallback (Some limit) (VArr (c :: rest))
                 {| recurse_depth := depth; recurse_slot := [] |})
        with (VArr [])
        by (unfold strimCallback; simpl; now rewrite Hdepth).
      apply fold_empty.
    + exact (fold_each_items depth items Hdepth IH []).
  - simpl. destruct (depth >=? limit) eqn:Hdepth.
    + destruct props as [|kv rest]; [reflexivity|]. simpl.
      replace (strimCallback (Some limit) (VObj (kv :: rest))
                 {| recurse_depth := depth; recurse_slot := [] |})
        with (VObj [])
        by (unfold strimCallback; simpl; now rewrite Hdepth).
      apply fold_empty.
    + exact (fold_each_props depth props Hdepth IH []).
Qed.


(** What is at a place no deeper than the limit is still there, cut at the
    limit in its turn: a value that is not a container is kept as it is, a
    container above the limit keeps its keys, a container at the limit is
    empty. *)
Lemma truncated_value_at (place : list nat) :
  forall (v x : value) (depth : Z),
    value_at v place = Some x ->
    depth + Z.of_nat (List.length place) <= limit ->
    value_at (truncated limit depth v) place
    = Some (truncated limit (depth + Z.of_nat (List.length place)) x).
Proof.
  induction place as [|i rest IH]; intros v x depth Hat Hdepth.
  - simpl in *. injection Hat as <-. now rewrite Z.add_0_r.
  - cbn [List.length] in Hdepth. rewrite Nat2Z.inj_succ in Hdepth.
    assert (Hlow : (depth >=? limit) = false) by lia.
    cbn [List.length]. rewrite Nat2Z.inj_succ.
    replace (depth + Z.succ (Z.of_nat (List.length rest)))
      with (depth + 1 + Z.of_nat (List.length rest)) by lia.
    destruct v as [| |b|n|s|items|props]; simpl in Hat |- *;
      try (destruct i; discriminate); rewrite Hlow; simpl.
    + rewrite nth_error_map.
      destruct (nth_error items i) as [c|]; [|discriminate]. simpl.
      apply IH; [exact Hat | lia].
    + rewrite map_map; simpl. rewrite nth_error_map in Hat |- *.
      destruct (nth_error props i) as [kv|]; [|discriminate]. simpl in *.
      apply IH; [exact Hat | lia].
Qed.

End Limit.

(** With [maxDepth] not set no comparison of line 260 or 262 holds. *)
Lemma strim_unset (obj : value) : strim obj None = obj.
Proof.
  unfold strim, recurse; simpl. generalize (invocations obj 0 []).
  intros states. induction states as [|state rest IH]; simpl; [reflexivity | exact IH].
Qed.

Example strim_nested_1 :
  strim nested (Some 1) = VObj [("a", VNum 1); ("b", VObj []); ("e", VArr [])].
Proof. reflexivity. Qed.

Example strim_nested_2 :
  strim nested (Some 2)
  = VObj [("a", VNum 1); ("b", VObj [("c", VObj [])]); ("e", VArr [VArr []; VNum 2])].
Proof. reflexivity. Qed.

Example strim_nested_0 : strim nested (Some 0) = nested.
Proof. reflexivity. Qed.

(** ** The sample synthesizer *)

Section SamplerProperties.

Variable World : Type.
Variable sampler_sample : World -> value -> value -> value -> World * outcome value.

Lemma ensures_ret {A : Type} (a : A) (Q : A -> Prop) :
  Q a -> ensures (ret World a) Q.
Proof. intros H s. now exists s, a. Qed.

Lemma ensures_bind {A B : Type} (m : M World A) (k : A -> M World B)
    (P : A -> Prop) (Q : B -> Prop) :
  ensures m P -> (forall a, P a -> ensures (k a) Q) -> ensures (bind World m k) Q.
Proof.
  intros Hm Hk s. destruct (Hm s) as (s1 & a & Hrun & Ha).
  unfold bind. rewrite Hrun. exact (Hk a Ha s1).
Qed.

(** A [try] whose body returns with [Q] when it returns, and whose handler
    returns with [Q], returns with [Q]. *)
Lemma ensures_tryCatch {A : Type} (body : M World A) (handler : string -> M World A)
    (Q : A -> Prop) :
  (forall s s' a, body s = (s', Returned a) -> Q a) ->
  (forall message, ensures (handler message) Q) ->
  ensures (tryCatch World body handler) Q.
Proof.
  intros Hbody Hhandler s. unfold tryCatch.
  destruct (body s) as [s1 [a|message]] eqn:Hrun.
  - exists s1, a. split; [reflexivity | exact (Hbody _ _ _ Hrun)].
  - exact (Hhandler message s1).
Qed.

Lemma ensures_weaken {A : Type} (m : M World A) (P Q : A -> Prop) :
  ensures m P -> (forall a, P a -> Q a) -> ensures m Q.
Proof.
  intros Hm HPQ s. destruct (Hm s) as (s' & a & Hrun & Ha). exists s', a. auto.
Qed.

Lemma ensures_write (d : Diagnostic) : ensures (write World d) (fun _ => True).
Proof. intros s. unfold write. eauto. Qed.

Lemma ensures_setErrors (errors : list string) :
  ensures (setErrors World errors) (fun _ => True).
Proof. intros s. unfold setErrors. eauto. Qed.

Lemma ensures_readOptions : ensures (readOptions World) (fun _ => True).
Proof. intros s. unfold readOptions. eauto. Qed.

(** Reporting an exception does not throw. *)
Lemma ensures_report (text : string -> Diagnostic) (message : string) :
  ensures (report World text message) (fun _ => True).
Proof.
  unfold report. eapply ensures_bind; [apply ensures_readOptions|].
  intros o _. destruct (has_message (seen o) message); [apply ensures_write|].
  eapply ensures_bind; [apply ensures_write|]. intros _ _. apply ensures_setErrors.
Qed.

Lemma jsonCopy_defined (v : value) : jsonCopy v <> VUndefined.
Proof. destruct v; simpl; discriminate. Qed.

Lemma ensures_jsonRoundTrip (orig : value) :
  orig <> VUndefined ->
  ensures (lift World (jsonRoundTrip orig)) (fun obj => obj <> VUndefined).
Proof.
  intros Horig s. unfold lift, jsonRoundTrip.
  destruct orig; try contradiction; eexists _, _; (split; [reflexivity|]);
    try discriminate; apply jsonCopy_defined.
Qed.

(** The [catch] block (lines 509-531) does not throw: the second call of
    the generator is in a [try] of its own. *)
Lemma ensures_recover (orig samplerOptions defs : value) (message : string) :
  orig <> VUndefined ->
  ensures (recover World sampler_sample orig samplerOptions defs message) settled.
Proof.
  intros Horig. unfold recover.
  eapply ensures_bind; [apply ensures_report|]. intros _ _.
  eapply ensures_bind; [apply ensures_readOptions|]. intros o _.
  eapply ensures_bind.
  { instantiate (1 := fun _ => True).
    destruct (verbose o); [apply ensures_write | now apply ensures_ret]. }
  intros _ _.
  eapply ensures_bind; [now apply ensures_jsonRoundTrip|]. intros obj Hobj.
  apply ensures_tryCatch.
  - intros s s' c. unfold bind, callSampler.
    destruct (sampler_sample (world s) obj samplerOptions defs) as [w [sample0|e]];
      [|discriminate].
    destruct (negb (is_undefined sample0)); unfold ret; intros H; injection H as _ <-;
      simpl; auto.
  - intros message2. eapply ensures_bind; [apply ensures_report|]. intros _ _.
    now apply ensures_ret.
Qed.

(** The [try] block (lines 497-508), when it does not throw, returns from
    the function or leaves a defined [obj]. *)
Lemma attempt_settled (orig obj samplerOptions defs : value) (s s' : Session World)
    (c : Control) :
  obj <> VUndefined ->
  attempt World sampler_sample orig obj samplerOptions defs s = (s', Returned c) ->
  settled c.
Proof.
  intros Hobj. unfold attempt, bind, callSampler, lift, ret.
  destruct (sampler_sample (world s) obj samplerOptions defs) as [w1 [sample1|e1]];
    [|discriminate].
  destruct (truthy sample1 && negb (is_undefined (get sample1 "$ref"))).
  - destruct (jsonRoundTrip orig) as [obj'|e] eqn:Hcopy; [|discriminate]. simpl.
    destruct (sampler_sample w1 obj' samplerOptions defs) as [w2 [sample2|e2]];
      [|discriminate].
    destruct (negb (is_undefined sample2)).
    + destruct (negb (strict_equal sample2 VNull) && negb (Nat.eqb (keyCount sample2) 0)).
      * intros H; injection H as _ <-. exact I.
      * cbn [world session_options console].
        match goal with
        | |- context [sampler_sample w2 ?schema samplerOptions defs] =>
            destruct (sampler_sample w2 schema samplerOptions defs) as [w3 [wrapped|e3]];
              [|discriminate]
        end.
        simpl. destruct (readProperty wrapped "anonymous"); [|discriminate].
        intros H; injection H as _ <-. exact I.
    + intros H; injection H as _ <-. simpl.
      unfold jsonRoundTrip in Hcopy. destruct orig; try discriminate;
        injection Hcopy as <-; simpl; discriminate.
  - destruct (negb (is_undefined sample1)).
    + destruct (negb (strict_equal sample1 VNull) && negb (Nat.eqb (keyCount sample1) 0)).
      * intros H; injection H as _ <-. exact I.
      * cbn [world session_options console].
        match goal with
        | |- context [sampler_sample w1 ?schema samplerOptions defs] =>
            destruct (sampler_sample w1 schema samplerOptions defs) as [w3 [wrapped|e3]];
              [|discriminate]
        end.
        simpl. destruct (readProperty wrapped "anonymous"); [|discriminate].
        intros H; injection H as _ <-. exact I.
    + intros H; injection H as _ <-. exact Hobj.
Qed.

Lemma truthy_defined (v : value) : truthy v = true -> v <> VUndefined.
Proof. intros H ->. discriminate. Qed.

(** [getSampleInner] does not throw, whatever the generator does. *)
Lemma ensures_getSampleInner (orig samplerOptions api : value) :
  ensures (getSampleInner World sampler_sample orig samplerOptions api) (fun _ => True).
Proof.
  unfold getSampleInner.
  eapply ensures_bind; [apply ensures_readOptions|]. intros o _.
  eapply ensures_bind.
  { instantiate (1 := fun _ => True).
    destruct (samplerErrors o); [now apply ensures_ret | apply ensures_setErrors]. }
  intros _ _. unfold circularClone.
  destruct (sample o && truthy orig) eqn:Hon; [|now apply ensures_ret].
  apply andb_true_iff in Hon as [_ Horig]. apply truthy_defined in Horig.
  eapply ensures_bind.
  - apply ensures_tryCatch.
    + intros s s' c. now apply attempt_settled.
    + intros message. now apply ensures_recover.
  - intros [v|obj] _; now apply ensures_ret.
Qed.

Lemma clean_defined (v : value) : clean v <> VUndefined.
Proof. unfold clean. destruct v; simpl; discriminate. Qed.

(** A write into a tree leaves a tree. *)
Lemma write_at_defined (place : list nat) (root : value) :
  root <> VUndefined -> write_at root place emptied <> VUndefined.
Proof.
  destruct place as [|i rest]; simpl; intros H.
  - destruct root; simpl; try discriminate. contradiction.
  - destruct root; simpl; try discriminate. contradiction.
Qed.

Lemma strim_defined (v : value) (limit : option Z) :
  v <> VUndefined -> strim v limit <> VUndefined.
Proof.
  intros Hv. unfold strim. destruct (le_zero limit); [exact Hv|].
  unfold recurse. generalize (invocations v 0 []).
  intros states. revert v Hv.
  induction states as [|state rest IH]; simpl; intros root Hroot; [exact Hroot|].
  apply IH. unfold strimCallback.
  destruct (reaches (recurse_depth state) limit); [|exact Hroot].
  now apply write_at_defined.
Qed.

(** C2, as amended.  When [node.example] is truthy, [getSample] returns it
    as it is: the generator is not called, nothing is written, [clean] and
    [strim] are not applied, and the [sample] option is not read. *)
Theorem example_precedence (orig samplerOptions api : value) (s : Session World) :
  truthy (get orig "example") = true ->
  getSample World sampler_sample orig samplerOptions api s
  = (s, Returned (get orig "example")).
Proof.
  intros Hexample. unfold getSample.
  assert (Horig : truthy orig = true) by (destruct orig; try discriminate; reflexivity).
  now rewrite Horig, Hexample.
Qed.

(** What [clean] leaves has no object that hides [hasOwnProperty]: once
    [clean] has returned, [strim] does not throw. *)
Lemma visit_filter_recurse (keep : string -> bool) (v : value) :
  visitThrows keep v = false -> recurseThrows (visit_filter keep v) = false.
Proof.
  induction v as [| |b|n|t|items IH|props IH] using value_induction;
    try (intros _; reflexivity).
  - simpl. induction IH as [|c rest Hc _ IHrest]; simpl; [reflexivity|].
    intros H. apply orb_false_iff in H as [H1 H2]. now rewrite Hc, IHrest.
  - simpl. intros H. apply orb_false_iff in H as [Hhide Hunder].
    apply orb_false_iff. split.
    + clear IH Hunder. unfold hidesHasOwnProperty in *.
      induction props as [|kv rest IHrest]; simpl in *; [reflexivity|].
      apply orb_false_iff in Hhide as [H1 H2].
      destruct (keep (fst kv) && negb (is_undefined (snd kv))); simpl; auto.
      now rewrite H1, IHrest.
    + clear Hhide.
      induction IH as [|kv rest Hkv _ IHrest]; simpl in *; [reflexivity|].
      apply orb_false_iff in Hunder as [H1 H2].
      destruct (keep (fst kv)) eqn:Hkeep; simpl in *.
      * destruct (is_undefined (snd kv)); simpl; [now apply IHrest|].
        now rewrite Hkv, IHrest.
      * now apply IHrest.
Qed.

Lemma clean_then_strim (r : value) (limit : option Z) :
  cleanThrows r = false -> strimThrows (clean r) limit = false.
Proof.
  intros H. unfold strimThrows, clean.
  destruct (is_undefined r); [now rewrite andb_false_r|].
  unfold cleanThrows in H. now rewrite (visit_filter_recurse _ _ H), andb_false_r.
Qed.

(** What [getSample] does with the result of [getSampleInner]: it throws
    when [clean] throws on it, and returns it cleaned and cut when not. *)
Lemma getSample_outcome (orig samplerOptions api : value) (s : Session World) :
  truthy orig && truthy (get orig "example") = false ->
  exists s1 r,
    getSampleInner World sampler_sample orig samplerOptions api s = (s1, Returned r)
    /\ getSample World sampler_sample orig samplerOptions api s
       = (s1, if cleanThrows r then Thrown hasOwnPropertyError
              else Returned (strim (clean r) (maxDepth (session_options s1)))).
Proof.
  intros Hexample.
  destruct (ensures_getSampleInner orig samplerOptions api s) as (s1 & r & Hinner & _).
  exists s1, r. split; [exact Hinner|].
  unfold getSample. rewrite Hexample. unfold bind. rewrite Hinner.
  unfold lift, cleanCall, readOptions.
  destruct (cleanThrows r) eqn:Hclean; [reflexivity|].
  unfold strimCall. now rewrite (clean_then_strim _ _ Hclean).
Qed.

End SamplerProperties.

(** ** The properties at concrete inputs *)

(** With a negative offset the rows of [pet] stay at depth 0 and up. *)
Lemma depth_invariant_witness :
  exists new,
    all_rows (walked (-1) (data_with false) (initial pet) pet_visits)
    = (all_rows (initial pet) ++ new)%list
    /\ Forall (fun e => 0 <= entry_depth e) new
    /\ (StronglySorted Z.le (map (fun v => state_depth (visit_state v)) pet_visits) ->
        StronglySorted Z.le (map entry_depth new)).
Proof.
  apply (depth_invariant no_pointer (-1) (data_with false)). reflexivity.
Defined.

Example pet_rows :
  map (fun e => (entry_name e, entry_depth e))
      (all_rows (walked (-1) (data_with false) (initial pet) pet_visits))
  = [(VStr "owner", 0); (VStr "name", 1)].
Proof. reflexivity. Qed.

Lemma rows_are_named_witness :
  Forall (fun b => Forall (fun e => truthy (entry_name e) = true) (rows b))
         (container (walked 0 (data_with false) (initial pet) pet_visits))
  /\ (forall f f' v,
        callback no_pointer 0 (data_with false) f v = Some f' ->
        unnamed (visitName (data_with false) v) -> all_rows f' = all_rows f).
Proof.
  apply (rows_are_named no_pointer 0 (data_with false) (fun _ => pet_visits) pet
                        {| trim := true; join_lines := true; truncate := false |}).
  reflexivity.
Defined.

(** [pet] has a title, hence a name, and still no row of its own. *)
Lemma top_level_object_has_no_row_witness :
  all_rows (walked 0 (data_with false) (initial pet) [at_root pet]) = all_rows (initial pet).
Proof.
  apply (top_level_object_has_no_row no_pointer 0 (data_with false) (initial pet) _ (at_root pet));
    reflexivity.
Defined.

Example pet_is_named : visitName (data_with false) (at_root pet) = VStr "Pet".
Proof. reflexivity. Qed.

(** The second branch of [cat_or_dog], the one with a discriminator. *)
Lemma combinator_block_title_witness :
  closed (walked 0 (data_with false) (initial cat_or_dog)
                 [at_property dog cat_or_dog 1 "oneOf/1"])
  = (closed (initial cat_or_dog) ++ [block (initial cat_or_dog)])%list
  /\ title (block (walked 0 (data_with false) (initial cat_or_dog)
                          [at_property dog cat_or_dog 1 "oneOf/1"]))
     = VStr (branchTitle "oneOf" "1"
             ++ discriminatorTitle (no_pointer (api (data_with false))) dog).
Proof.
  apply (combinator_block_title no_pointer 0 (data_with false) (initial cat_or_dog) _
           (at_property dog cat_or_dog 1 "oneOf/1") "oneOf" "1").
  - simpl. tauto.
  - reflexivity.
  - reflexivity.
  - reflexivity.
Defined.

(** The titles of the branches of [cat_or_dog], and that of a branch that
    is a reference to a schema with a discriminator. *)
Example titles_of_branches :
  branchTitle "oneOf" "0" ++ discriminatorTitle (no_pointer (VObj [])) cat = "oneOf"
  /\ branchTitle "oneOf" "1" ++ discriminatorTitle (no_pointer (VObj [])) dog
     = "xor - discriminator: petType"
  /\ option_map (fun f => title (block f))
       (walk (fun _ _ => dog) 0 (data_with false) (initial cat_or_dog)
             [at_property (VObj [("$ref", VStr "#/components/schemas/Dog")])
                          cat_or_dog 1 "anyOf/2"])
     = Some (VStr "or - discriminator: Dog.petType").
Proof. repeat split. Qed.

(** C5 as stated fails: the second branch of [cat_or_dog] carries a
    discriminator, and its block is not titled [xor]. *)
Lemma title_with_discriminator :
  option_map (fun f => title (block f))
             (walk no_pointer 0 (data_with false) (initial cat_or_dog)
                   [at_property dog cat_or_dog 1 "oneOf/1"])
  = Some (VStr "xor - discriminator: petType")
  /\ VStr "xor - discriminator: petType" <> VStr "xor".
Proof. split; [reflexivity | discriminate]. Qed.

(** C4: with [shallowSchemas] set the row of the reference itself is
    dropped, where the specification keeps it.  In [pet_with_age] the
    reference [owner] sets [skipDepth] to its own depth, 1, and the test of
    line 454 blanks its name at once; [age], the property after it, is at
    depth 1 too and is dropped as well, so that no row is left (without the
    option the rows are [owner], [name] and [age]).  And in
    [two_references] the inner reference [q] moves [skipDepth] to depth 3,
    so that [r], below the reference [a], gets a row, where the
    specification has no row below a reference. *)
Theorem shallow_drops_reference_row :
  option_map (fun f => map entry_name (all_rows f))
             (walk no_pointer 0 (data_with true) (initial pet_with_age) pet_with_age_visits)
  = Some []
  /\ option_map (fun f => map (fun e => (entry_name e, entry_depth e)) (all_rows f))
                (walk no_pointer 0 (data_with false) (initial pet_with_age)
                      pet_with_age_visits)
     = Some [(VStr "owner", 1); (VStr "name", 2); (VStr "age", 1)]
  /\ option_map (fun f => map (fun e => (entry_name e, entry_depth e)) (all_rows f))
                (walk no_pointer 0 (data_with true) (initial two_references)
                      two_references_visits)
     = Some [(VStr "r", 2)].
Proof. repeat split. Qed.

(** C3: the exceptions of the generator are all caught, and
    [getSampleInner] returns; but [clean] is called outside the [try], and
    for a sample with a property of the name [hasOwnProperty] it throws, so
    that [getSample] throws where the specification has it return.  With
    sampling off the same happens on the node itself. *)
Theorem getSample_throws_in_clean :
  snd (getSampleInner unit shadowed_sampler shadowed_schema VUndefined VUndefined
                      (session_with plain_options))
  = Returned shadowed_sample
  /\ snd (getSample unit shadowed_sampler shadowed_schema VUndefined VUndefined
                    (session_with plain_options))
     = Thrown hasOwnPropertyError
  /\ snd (getSample unit failing_sampler shadowed_schema VUndefined VUndefined
                    (session_with quiet_options))
     = Thrown hasOwnPropertyError.
Proof. repeat split. Qed.

(** C6: a parent whose [required] is [null] hands the [null] on to the
    row, where the specification has [false]. *)
Theorem required_null_reaches_row :
  option_map (fun f => map (fun e => (entry_name e, entry_required e)) (all_rows f))
             (walk no_pointer 0 (data_with false) (initial loose_parent)
                   [at_root loose_parent;
                    at_property (VObj [("type", VStr "string")]) loose_parent 1
                                "properties/a"])
  = Some [(VStr "a", VNull)].
Proof. reflexivity. Qed.

(** C1: two strings in [enum] make two entries of [possibleTypes], and the
    answer is [any], where the specification has [string]. *)
Theorem inferType_enum_of_two_strings :
  possibleTypes (VObj [("enum", VArr [VStr "a"; VStr "b"])]) = Some ["string"; "string"]
  /\ inferType (VObj [("enum", VArr [VStr "a"; VStr "b"])]) = Some (VStr "any").
Proof. split; reflexivity. Qed.

Example inferType_enum_of_one_string :
  inferType (VObj [("enum", VArr [VStr "a"])]) = Some (VStr "string").
Proof. reflexivity. Qed.

(** At a truthy example the options do not matter. *)
Lemma example_precedence_witness :
  getSample unit failing_sampler seven_example VUndefined VUndefined
            (session_with {| sample := false; maxDepth := Some 10; verbose := false;
                             samplerErrors := None |})
  = (session_with {| sample := false; maxDepth := Some 10; verbose := false;
                     samplerErrors := None |},
     Returned (get seven_example "example")).
Proof. apply (example_precedence unit failing_sampler). reflexivity. Defined.

(** C2 as stated fails: the example [0] is set, and with [sample] off
    [getSample] returns the copy of the node, not [0]. *)
Lemma falsy_example_is_not_returned :
  is_undefined (get zero_example "example") = false
  /\ snd (getSample unit failing_sampler zero_example VUndefined VUndefined
                    (session_with {| sample := false; maxDepth := Some 10; verbose := false;
                                     samplerErrors := None |}))
     = Returned zero_example
  /\ Returned zero_example <> Returned (get zero_example "example").
Proof. split; [reflexivity | split; [reflexivity | discriminate]]. Qed.

(** A generator that throws at every call: the node comes back as its
    JSON copy, and the message is reported once in full. *)
Example getSample_when_the_generator_throws :
  getSample unit failing_sampler (VObj [("type", VStr "string")]) VUndefined VUndefined
            (session_with {| sample := true; maxDepth := Some 10; verbose := false;
                             samplerErrors := None |})
  = ({| world := tt;
        session_options := {| sample := true; maxDepth := Some 10; verbose := false;
                              samplerErrors := Some ["cannot sample"] |};
        console := [ConsoleError "# sampler cannot sample"; Dot] |},
     Returned (VObj [("type", VStr "string")])).
Proof. reflexivity. Qed.

(** The end-to-end example of the specification: one block, the rows [id]
    (required) and [name] (not required), both at the depth of the first
    level, which is 1 for the offset 0 and 0 for the offset -1. *)
Example id_and_name_rows :
  option_map
    (map (fun b => map (fun e => (entry_name e, entry_type e, entry_required e, entry_depth e))
                       (rows b)))
    (schemaToArray no_pointer 0 (data_with false) (fun _ => id_and_name_visits) id_and_name
                   {| trim := true; join_lines := true; truncate := false |})
  = Some [[(VStr "id", VStr "integer", VBool true, 1);
           (VStr "name", VStr "string", VBool false, 1)]].
Proof. reflexivity. Qed.

Example id_and_name_depths :
  map entry_depth (all_rows (walked (-1) (data_with false) (initial id_and_name)
                                    id_and_name_visits))
  = [0; 0].
Proof. reflexivity. Qed.

(** [getSampleInner] by itself may return [undefined]: when the generator
    answers the wrapped schema with an object that has no [anonymous].
    [clean] makes [{}] of it in [getSample]. *)
Example getSampleInner_may_return_undefined :
  snd (getSampleInner unit empty_sampler (VObj [("type", VStr "object")])
                      VUndefined VUndefined
                      (session_with {| sample := true; maxDepth := Some 10;
                                       verbose := false; samplerErrors := None |}))
  = Returned VUndefined
  /\ snd (getSample unit empty_sampler (VObj [("type", VStr "object")])
                    VUndefined VUndefined
                    (session_with {| sample := true; maxDepth := Some 10;
                                     verbose := false; samplerErrors := None |}))
     = Returned (VObj []).
Proof. split; reflexivity. Qed.

(* ===================================================================== *)
(** * The other functions of the file *)

(** ** removeDupeBlankLines *)

Lemma allLineBreaks_app (a b : string) :
  allLineBreaks (a ++ b) = allLineBreaks a && allLineBreaks b.
Proof.
  induction a as [|c a IH]; simpl; [reflexivity|]. now rewrite IH, andb_assoc.
Qed.

Lemma length_append (a b : string) :
  String.length (a ++ b) = (String.length a + String.length b)%nat.
Proof. induction a as [|c a IH]; simpl; congruence. Qed.

(** What replaces a run is a run of at most two line breaks. *)
Lemma flushRun_short (run : string) :
  allLineBreaks run = true ->
  allLineBreaks (flushRun run) = true /\ (String.length (flushRun run) <= 2)%nat.
Proof.
  intros Hrun. unfold flushRun.
  destruct (3 <=? String.length run)%nat eqn:Hlen.
  - split; [reflexivity | simpl; lia].
  - apply Nat.leb_gt in Hlen. split; [exact Hrun | lia].
Qed.

Lemma hasTriple_short (run : string) :
  forall n, allLineBreaks run = true -> (n + String.length run <= 2)%nat ->
  hasTriple n run = false.
Proof.
  induction run as [|c run IH]; simpl; intros n Hrun Hlen; [reflexivity|].
  apply andb_true_iff in Hrun as [Hc Hrun]. rewrite Hc.
  rewrite IH by (auto; lia).
  destruct n as [|[|n]]; simpl in *; [reflexivity | reflexivity | lia].
Qed.

Lemma hasTriple_after_short (run rest : string) (c : ascii) :
  forall n, allLineBreaks run = true -> (n + String.length run <= 2)%nat ->
  isLineBreak c = false ->
  hasTriple n (run ++ String c rest) = hasTriple O rest.
Proof.
  induction run as [|d run IH]; simpl; intros n Hrun Hlen Hc.
  - now rewrite Hc.
  - apply andb_true_iff in Hrun as [Hd Hrun]. rewrite Hd.
    rewrite IH by (auto; lia).
    destruct n as [|[|n]]; simpl in *; [reflexivity | reflexivity | lia].
Qed.

Lemma squeeze_no_triple (content : string) :
  forall run, allLineBreaks run = true -> hasTriple O (squeeze run content) = false.
Proof.
  induction content as [|c rest IH]; simpl; intros run Hrun.
  - destruct (flushRun_short run Hrun) as [Hflush Hlen].
    now apply hasTriple_short.
  - destruct (isLineBreak c) eqn:Hc.
    + apply IH. rewrite allLineBreaks_app, Hrun. simpl. now rewrite Hc.
    + destruct (flushRun_short run Hrun) as [Hflush Hlen].
      rewrite hasTriple_after_short by auto. now apply IH.
Qed.

(** [hasTriple] finds three line breaks wherever they stand. *)
Lemma hasTriple_found (before after : string) (a b c : ascii) :
  forall n,
    isLineBreak a = true -> isLineBreak b = true -> isLineBreak c = true ->
    hasTriple n (before ++ String a (String b (String c after))) = true.
Proof.
  intros n Ha Hb Hc. revert n.
  induction before as [|x before IH]; simpl; intros n.
  - rewrite Ha, Hb, Hc. simpl. now rewrite !orb_true_r.
  - destruct (isLineBreak x); rewrite IH; now rewrite ?orb_true_r.
Qed.

(** A text without three line breaks in a row is left as it is. *)
Lemma append_assoc (a b c : string) : (a ++ b) ++ c = a ++ b ++ c.
Proof. induction a as [|d a IH]; simpl; congruence. Qed.

Lemma squeeze_fixed (content : string) :
  forall run,
    allLineBreaks run = true -> (String.length run <= 2)%nat ->
    hasTriple (String.length run) content = false ->
    squeeze run content = run ++ content.
Proof.
  induction content as [|c rest IH]; cbn [squeeze hasTriple]; intros run Hrun Hlen Hfree.
  - unfold flushRun.
    destruct (3 <=? String.length run)%nat eqn:H3; [apply Nat.leb_le in H3; lia|].
    clear. induction run as [|d run IHr]; simpl; congruence.
  - destruct (isLineBreak c) eqn:Hc.
    + apply orb_false_iff in Hfree as [Hn Hfree]. apply Nat.leb_gt in Hn.
      rewrite IH.
      * apply append_assoc.
      * rewrite allLineBreaks_app, Hrun. simpl. now rewrite Hc.
      * rewrite length_append. simpl. lia.
      * rewrite length_append. simpl. now rewrite Nat.add_1_r.
    + unfold flushRun.
      destruct (3 <=? String.length run)%nat eqn:H3; [apply Nat.leb_le in H3; lia|].
      rewrite (IH EmptyString); [reflexivity | reflexivity | simpl; lia | exact Hfree].
Qed.

(** X1.  In what [removeDupeBlankLines] returns no three characters in a
    row are line breaks (carriage returns or line feeds), whatever the
    content. *)
Theorem removeDupeBlankLines_leaves_no_triple
    (content before after : string) (a b c : ascii) :
  removeDupeBlankLines content = before ++ String a (String b (String c after)) ->
  isLineBreak a && isLineBreak b && isLineBreak c = false.
Proof.
  intros Hsplit.
  pose proof (squeeze_no_triple content EmptyString eq_refl) as Hfree.
  fold (removeDupeBlankLines content) in Hfree. rewrite Hsplit in Hfree.
  destruct (isLineBreak a) eqn:Ha; [|reflexivity].
  destruct (isLineBreak b) eqn:Hb; [|reflexivity].
  destruct (isLineBreak c) eqn:Hc; [|reflexivity].
  rewrite hasTriple_found in Hfree by assumption. discriminate.
Qed.

(** X2.  [removeDupeBlankLines] is idempotent: a second pass changes
    nothing. *)
Theorem removeDupeBlankLines_idempotent (content : string) :
  removeDupeBlankLines (removeDupeBlankLines content) = removeDupeBlankLines content.
Proof.
  unfold removeDupeBlankLines at 1.
  rewrite squeeze_fixed; [reflexivity | reflexivity | simpl; lia |].
  apply squeeze_no_triple. reflexivity.
Qed.

Lemma otherChars_app (a b : string) :
  otherChars (a ++ b) = (otherChars a ++ otherChars b)%list.
Proof.
  induction a as [|c a IH]; simpl; [reflexivity|].
  destruct (isLineBreak c); simpl; congruence.
Qed.

Lemma otherChars_run (run : string) :
  allLineBreaks run = true -> otherChars run = [].
Proof.
  induction run as [|c run IH]; simpl; [reflexivity|].
  intros H. apply andb_true_iff in H as [Hc Hrun]. rewrite Hc. auto.
Qed.

Lemma squeeze_otherChars (content : string) :
  forall run, allLineBreaks run = true ->
  otherChars (squeeze run content) = otherChars content.
Proof.
  induction content as [|c rest IH]; simpl; intros run Hrun.
  - apply otherChars_run. now apply flushRun_short.
  - destruct (isLineBreak c) eqn:Hc.
    + apply IH. rewrite allLineBreaks_app, Hrun. simpl. now rewrite Hc.
    + rewrite otherChars_app, otherChars_run by now apply flushRun_short.
      simpl. rewrite Hc. f_equal. now apply IH.
Qed.

(** X3.  [removeDupeBlankLines] touches line breaks only: the other
    characters of the content come back, all of them and in their order. *)
Theorem removeDupeBlankLines_keeps_text (content : string) :
  otherChars (removeDupeBlankLines content) = otherChars content.
Proof.
  unfold removeDupeBlankLines. now apply squeeze_otherChars.
Qed.

(** ** slugify *)

(** All 256 characters, one by one. *)
Ltac each_char c :=
  destruct c as [[] [] [] [] [] [] [] []]; vm_compute.

Lemma lowerChar_lower (c : ascii) : isUpper (lowerChar c) = false.
Proof. each_char c; reflexivity. Qed.

Lemma slugChar_plain (c : ascii) :
  slugChar c = true ->
  isWhiteSpace c = false /\ Ascii.eqb c "&" = false /\ lowerChar c = c
  /\ isSeparator c = Ascii.eqb c "-".
Proof. each_char c; intros H; try discriminate H; repeat split. Qed.

Lemma chars_app (a b : string) : chars (a ++ b) = (chars a ++ chars b)%list.
Proof. induction a as [|c a IH]; simpl; [reflexivity|]. unfold chars in *. simpl. congruence. Qed.

Lemma chars_toLowerCase (s : string) (c : ascii) :
  In c (chars (toLowerCase s)) -> exists d, c = lowerChar d.
Proof.
  induction s as [|d s IH]; simpl; [contradiction|].
  intros [<- | H]; eauto.
Qed.

Lemma chars_trimStart (s : string) (c : ascii) :
  In c (chars (trimStart s)) -> In c (chars s).
Proof.
  induction s as [|d s IH]; simpl; [auto|].
  destruct (isWhiteSpace d); simpl; auto.
Qed.

Lemma chars_trimEnd (s : string) (c : ascii) :
  In c (chars (trimEnd s)) -> In c (chars s).
Proof.
  induction s as [|d s IH]; simpl; [auto|].
  destruct (isWhiteSpace d && (trimEnd s =? "")%string); simpl; [contradiction|].
  intros [H | H]; auto.
Qed.

Lemma chars_trimmed (s : string) (c : ascii) :
  In c (chars (trimmed s)) -> In c (chars s).
Proof. intros H. now apply chars_trimStart, chars_trimEnd. Qed.

Lemma chars_replaceAmpersands (s : string) (c : ascii) :
  In c (chars (replaceAmpersands s)) -> In c (chars "-and-") \/ In c (chars s).
Proof.
  induction s as [|d s IH]; simpl; [auto|].
  destruct (Ascii.eqb d "&").
  - simpl. intros H.
    repeat (destruct H as [<- | H]; [left; simpl; tauto|]).
    destruct (IH H); auto.
  - simpl. intros [<- | H]; [auto|]. destruct (IH H); auto.
Qed.

Lemma chars_dashRuns (s : string) (c : ascii) :
  forall inRun,
    In c (chars (dashRuns inRun s)) ->
    c = "-"%char \/ (In c (chars s) /\ isSeparator c = false).
Proof.
  induction s as [|d s IH]; simpl; intros inRun; [contradiction|].
  destruct (isSeparator d) eqn:Hd.
  - destruct inRun; simpl.
    + intros H. destruct (IH _ H) as [-> | [Hin Hsep]]; auto.
    + intros [<- | H]; [auto|]. destruct (IH _ H) as [-> | [Hin Hsep]]; auto.
  - simpl. intros [<- | H]; [auto|]. destruct (IH _ H) as [-> | [Hin Hsep]]; auto.
Qed.

(** X4.  A slug is made of lower-case letters of [a-z], digits,
    underscores and dashes only. *)
Theorem slugify_alphabet (text : string) (c : ascii) :
  In c (chars (slugify text)) -> slugChar c = true.
Proof.
  unfold slugify. intros H.
  apply chars_dashRuns in H as [-> | [Hin Hsep]]; [reflexivity|].
  assert (Hword : isWord c = true).
  { unfold isSeparator in Hsep. apply orb_false_iff in Hsep as [Hsep _].
    apply orb_false_iff in Hsep as [_ Hsep]. now apply negb_false_iff in Hsep. }
  unfold slugChar. rewrite Hword.
  apply chars_replaceAmpersands in Hin as [Hin | Hin].
  - simpl in Hin. repeat (destruct Hin as [<- | Hin]; [reflexivity|]). contradiction.
  - apply chars_trimmed, chars_toLowerCase in Hin as [d ->].
    rewrite lowerChar_lower. now rewrite orb_true_r.
Qed.

Lemma dashRuns_single (s : string) :
  singleDashes (dashRuns false s) = true
  /\ singleDashes (dashRuns true s) = true
  /\ startsWithDash (dashRuns true s) = false.
Proof.
  induction s as [|c s (IHf & IHt & IHs)]; [repeat split|].
  cbn [dashRuns]. destruct (isSeparator c) eqn:Hc.
  - repeat split; auto.
    cbn [singleDashes]. destruct (dashRuns true s) as [|d t] eqn:Hrest; [reflexivity|].
    simpl in IHs. rewrite IHs, IHt. reflexivity.
  - assert (Hdash : Ascii.eqb c "-" = false).
    { unfold isSeparator in Hc. now apply orb_false_iff in Hc as [_ Hc]. }
    repeat split; cbn [singleDashes startsWithDash]; auto;
      destruct (dashRuns false s) as [|d t]; auto; now rewrite Hdash, IHf.
Qed.

(** X5.  A slug never has two dashes in a row: every run of spaces,
    punctuation and dashes of the text is one dash. *)
Theorem slugify_single_dashes (text : string) :
  singleDashes (slugify text) = true.
Proof. unfold slugify. apply dashRuns_single. Qed.

Lemma toLowerCase_slug (s : string) :
  (forall c, In c (chars s) -> slugChar c = true) -> toLowerCase s = s.
Proof.
  induction s as [|c s IH]; simpl; intros H; [reflexivity|].
  destruct (slugChar_plain c (H c (or_introl eq_refl))) as (_ & _ & -> & _).
  rewrite IH; auto.
Qed.

Lemma trimStart_slug (s : string) :
  (forall c, In c (chars s) -> slugChar c = true) -> trimStart s = s.
Proof.
  destruct s as [|c s]; simpl; intros H; [reflexivity|].
  destruct (slugChar_plain c (H c (or_introl eq_refl))) as (-> & _). reflexivity.
Qed.

Lemma trimEnd_slug (s : string) :
  (forall c, In c (chars s) -> slugChar c = true) -> trimEnd s = s.
Proof.
  induction s as [|c s IH]; simpl; intros H; [reflexivity|].
  destruct (slugChar_plain c (H c (or_introl eq_refl))) as (-> & _).
  simpl. rewrite IH; auto.
Qed.

Lemma replaceAmpersands_slug (s : string) :
  (forall c, In c (chars s) -> slugChar c = true) -> replaceAmpersands s = s.
Proof.
  induction s as [|c s IH]; simpl; intros H; [reflexivity|].
  destruct (slugChar_plain c (H c (or_introl eq_refl))) as (_ & -> & _).
  rewrite IH; auto.
Qed.

Lemma dashRuns_slug (s : string) :
  (forall c, In c (chars s) -> slugChar c = true) ->
  singleDashes s = true ->
  dashRuns false s = s /\ (startsWithDash s = false -> dashRuns true s = s).
Proof.
  induction s as [|c s IH]; intros Hchars Hsingle; [split; reflexivity|].
  destruct (slugChar_plain c (Hchars c (or_introl eq_refl))) as (_ & _ & _ & Hsep).
  assert (Hrest : forall d, In d (chars s) -> slugChar d = true)
    by (intros d Hd; apply Hchars; now right).
  assert (Hsingle' : singleDashes s = true).
  { cbn [singleDashes] in Hsingle. destruct s as [|d t]; [reflexivity|].
    now apply andb_true_iff in Hsingle. }
  destruct (IH Hrest Hsingle') as [IHf IHt].
  cbn [dashRuns startsWithDash]. rewrite Hsep.
  destruct (Ascii.eqb c "-") eqn:Hc.
  - apply Ascii.eqb_eq in Hc. subst c. split; [|discriminate].
    rewrite IHt; [reflexivity|].
    cbn [singleDashes] in Hsingle. destruct s as [|d t]; [reflexivity|].
    apply andb_true_iff in Hsingle as [Hd _]. simpl in *. now apply negb_true_iff in Hd.
  - now rewrite IHf.
Qed.

(** X6.  [slugify] is idempotent: the slug of a slug is that slug. *)
Theorem slugify_idempotent (text : string) :
  slugify (slugify text) = slugify text.
Proof.
  assert (Hchars : forall c, In c (chars (slugify text)) -> slugChar c = true).
  { intros c Hc. unfold slugify in Hc.
    apply chars_dashRuns in Hc as [-> | [Hin Hsep]]; [reflexivity|].
    unfold slugChar.
    replace (isWord c) with true.
    - apply chars_replaceAmpersands in Hin as [Hin | Hin].
      + simpl in Hin. repeat (destruct Hin as [<- | Hin]; [reflexivity|]). contradiction.
      + apply chars_trimmed, chars_toLowerCase in Hin as [d ->].
        rewrite lowerChar_lower. now rewrite orb_true_r.
    - unfold isSeparator in Hsep. apply orb_false_iff in Hsep as [Hsep _].
      apply orb_false_iff in Hsep as [_ Hsep]. apply negb_false_iff in Hsep. now symmetry. }
  assert (Hsingle : singleDashes (slugify text) = true)
    by (unfold slugify; apply dashRuns_single).
  unfold slugify at 1. unfold trimmed.
  rewrite (toLowerCase_slug _ Hchars), (trimStart_slug _ Hchars),
    (trimEnd_slug _ Hchars), (replaceAmpersands_slug _ Hchars).
  now apply dashRuns_slug.
Qed.

(** ** gfmLink *)

(** A character of a part of a split is a character of the text. *)
Lemma chars_split_from (sep s : string) :
  forall skip part c,
    In part (split_from sep skip s) -> In c (chars part) -> In c (chars s).
Proof.
  induction s as [|d s IH]; intros skip part c; cbn [split_from].
  - intros [<- | []] H. exact H.
  - destruct skip as [|k].
    + destruct (String.prefix sep (String d s)).
      * intros [<- | Hpart] Hc; [contradiction|]. right. eapply IH; eauto.
      * destruct (split_from sep 0 s) as [|w ws] eqn:Hsplit.
        -- intros [<- | []] Hc. simpl in Hc. destruct Hc as [<- | []]. now left.
        -- intros [<- | Hpart] Hc.
           ++ simpl in Hc. destruct Hc as [<- | Hc]; [now left|].
              right. apply (IH 0%nat w c); [rewrite Hsplit; now left | exact Hc].
           ++ right. apply (IH 0%nat part c); [rewrite Hsplit; now right | exact Hc].
    + intros Hpart Hc. right. eapply IH; eauto.
Qed.

(** Split at a character, no part has that character. *)
Lemma split_char_free (x : ascii) (s : string) :
  forall part, In part (split_str (String x EmptyString) s) -> ~ In x (chars part).
Proof.
  unfold split_str. induction s as [|d s IH]; intros part; cbn [split_from].
  - intros [<- | []] [].
  - cbn [String.prefix String.length Nat.sub].
    destruct (ascii_dec x d) as [-> | Hne]; cbn [String.prefix].
    + replace (String.prefix "" s) with true by (destruct s; reflexivity).
      intros [<- | Hpart]; [intros [] | now apply IH].
    + destruct (split_from (String x EmptyString) 0 s) as [|w ws] eqn:Hsplit.
      * intros [<- | []] [H | []]. now apply Hne.
      * intros [<- | Hpart].
        -- intros [H | H]; [now apply Hne|]. apply (IH w); [now left | exact H].
        -- apply IH. now right.
Qed.

Lemma chars_join (j : string) (parts : list string) (c : ascii) :
  In c (chars (join j parts)) ->
  In c (chars j) \/ exists part, In part parts /\ In c (chars part).
Proof.
  unfold join. induction parts as [|p rest IH]; cbn [String.concat]; [intros []|].
  destruct rest as [|q rest].
  - intros H. right. exists p. split; [now left | exact H].
  - rewrite !chars_app. intros H.
    apply in_app_or in H as [H | H]; [right; exists p; split; [now left | exact H]|].
    apply in_app_or in H as [H | H]; [now left|].
    destruct (IH H) as [Hj | (part & Hpart & Hc)]; [now left|].
    right. exists part. split; [now right | exact Hc].
Qed.

(** [s.split(sep).join(j)] brings in no character that is neither in [s]
    nor in [j]. *)
Lemma rejoin_absent (x : ascii) (sep j s : string) :
  ~ In x (chars j) -> ~ In x (chars s) -> ~ In x (chars (join j (split_str sep s))).
Proof.
  intros Hj Hs H. apply chars_join in H as [H | (part & Hpart & H)]; [auto|].
  apply Hs. eapply chars_split_from; eauto.
Qed.

(** [s.split(x).join(j)] has no [x] left, when [j] has none. *)
Lemma rejoin_removes (x : ascii) (j s : string) :
  ~ In x (chars j) -> ~ In x (chars (join j (split_str (String x EmptyString) s))).
Proof.
  intros Hj H. apply chars_join in H as [H | (part & Hpart & H)]; [auto|].
  eapply split_char_free; eauto.
Qed.

(** X7.  What [gfmLink] returns has no quote, double quote, dot,
    backtick, colon, slash, angle bracket or space. *)
Theorem gfmLink_strips (text : string) (c : ascii) :
  In c strippedChars -> ~ In c (chars (gfmLink text)).
Proof.
  intros Hc. unfold gfmLink.
  unfold strippedChars in Hc. simpl in Hc.
  repeat (destruct Hc as [<- | Hc];
          [repeat first
             [ apply rejoin_removes; vm_compute; intuition discriminate
             | apply rejoin_absent; [vm_compute; intuition discriminate|] ]|]).
  contradiction.
Qed.

(** ** languageCheck, getLanguageTarget, getLanguageClient *)

Lemma findLanguage_app (lc : string) (tabs more : list value) :
  findLanguage lc tabs = Some false ->
  findLanguage lc (tabs ++ more)%list = findLanguage lc more.
Proof.
  induction tabs as [|target rest IH]; simpl; [reflexivity|].
  destruct (isLanguage lc target) as [[|]|]; try discriminate. exact IH.
Qed.

Lemma isLanguage_newLang (lc language : string) :
  lc <> "__proto__" -> isLanguage lc (newLang lc language) = Some true.
Proof.
  intros Hproto. unfold newLang.
  destruct (lc =? "__proto__")%string eqn:H; [now apply String.eqb_eq in H|].
  unfold isLanguage. simpl. now rewrite String.eqb_refl.
Qed.

(** X8.  A language that [languageCheck] was called for with [mutate] is
    found afterwards, under any spelling with the same lower-case form,
    and the second call leaves the tabs alone; the language [__proto__]
    is the exception. *)
Theorem languageCheck_round_trip (language other : string)
    (tabs tabs' : list value) (result : value) :
  languageCheck language tabs true = Some (result, tabs') ->
  lcLang language <> "__proto__" ->
  lcLang other = lcLang language ->
  languageCheck other tabs' false = Some (result, tabs').
Proof.
  unfold languageCheck. intros Hfirst Hproto ->.
  destruct (findLanguage (lcLang language) tabs) as [[|]|] eqn:Hfind; [| |discriminate];
    injection Hfirst as <- <-.
  - now rewrite Hfind.
  - rewrite (findLanguage_app _ _ _ Hfind). simpl.
    now rewrite isLanguage_newLang.
Qed.

Lemma findLanguage_true (lc : string) (tabs : list value) :
  findLanguage lc tabs = Some true ->
  exists target, In target tabs /\ isLanguage lc target = Some true.
Proof.
  induction tabs as [|target rest IH]; simpl; [discriminate|].
  destruct (isLanguage lc target) as [[|]|] eqn:Htarget; try discriminate.
  - intros _. exists target. auto.
  - intros H. destruct (IH H) as (t & Hin & Ht). exists t. auto.
Qed.

Lemma findLanguage_false (lc : string) (tabs : list value) :
  findLanguage lc tabs = Some false ->
  forall target, In target tabs -> isLanguage lc target = Some false.
Proof.
  induction tabs as [|t rest IH]; simpl; [intros _ target []|].
  destruct (isLanguage lc t) as [[|]|] eqn:Ht; try discriminate.
  intros H target [<- | Hin]; auto.
Qed.

(** X9.  Without [mutate], [languageCheck] leaves the tabs alone, and
    returns the lower-case name exactly when some tab is that name or has
    it for its first key; else [false]. *)
Theorem languageCheck_lookup (language : string) (tabs tabs' : list value)
    (result : value) :
  languageCheck language tabs false = Some (result, tabs') ->
  tabs' = tabs
  /\ ((result = VStr (lcLang language)
       /\ exists target, In target tabs /\ isLanguage (lcLang language) target = Some true)
      \/ (result = VBool false
          /\ forall target, In target tabs ->
                            isLanguage (lcLang language) target = Some false)).
Proof.
  unfold languageCheck.
  destruct (findLanguage (lcLang language) tabs) as [[|]|] eqn:Hfind; [| |discriminate];
    intros H; injection H as <- <-; (split; [reflexivity|]).
  - left. split; [reflexivity | now apply findLanguage_true].
  - right. split; [reflexivity | now apply findLanguage_false].
Qed.

Lemma split_without_dash (s : string) :
  ~ In "-"%char (chars s) -> split_str "--" s = [s].
Proof.
  unfold split_str. induction s as [|c s IH]; intros Hfree; [reflexivity|].
  cbn [split_from String.prefix].
  destruct (ascii_dec "-" c) as [<- | Hne]; [exfalso; apply Hfree; now left|].
  rewrite IH; [reflexivity|]. intros H. apply Hfree. now right.
Qed.

Lemma split_at_dashes (head tail : string) :
  ~ In "-"%char (chars head) ->
  split_str "--" (head ++ "--" ++ tail) = head :: split_str "--" tail.
Proof.
  unfold split_str. change ("--" ++ tail) with (String "-" (String "-" tail)).
  induction head as [|c head IH]; intros Hfree; [now destruct tail|].
  cbn [append split_from String.prefix].
  destruct (ascii_dec "-" c) as [<- | Hne]; [exfalso; apply Hfree; now left|].
  rewrite IH; [reflexivity|]. intros H. apply Hfree. now right.
Qed.

(** X10.  For names without a dash: [getLanguageTarget] returns a plain
    name as it is, and of [name--target] the target; [name--] with
    nothing after the dashes comes back whole. *)
Theorem getLanguageTarget_custom (name target : string) :
  ~ In "-"%char (chars name) ->
  ~ In "-"%char (chars target) ->
  getLanguageTarget (VStr name) = Some (VStr name)
  /\ getLanguageTarget (VStr (name ++ "--" ++ target))
     = Some (VStr (if (target =? "")%string then name ++ "--" else target)).
Proof.
  intros Hname Htarget. unfold getLanguageTarget. split.
  - destruct (truthy (VStr name)); [|reflexivity].
    now rewrite (split_without_dash _ Hname).
  - replace (truthy (VStr (name ++ "--" ++ target))) with true
      by (destruct name; reflexivity).
    rewrite (split_at_dashes _ _ Hname), (split_without_dash _ Htarget).
    unfold at_index; simpl.
    now destruct target.
Qed.

Lemma findClient_first (lang : value) (before after : list value) (client : value) :
  (forall e, In e before -> exists k, firstKey e = Some k /\ strict_equal k lang = false) ->
  firstKey client = Some lang -> strict_equal lang lang = true ->
  findClient lang (before ++ client :: after)%list = Some client.
Proof.
  intros Hbefore Hkey Heq. induction before as [|e before IH]; simpl.
  - now rewrite Hkey, Heq.
  - destruct (Hbefore e (or_introl eq_refl)) as (k & -> & ->).
    apply IH. intros e' He'. apply Hbefore. now right.
Qed.

Lemma findClient_none (lang : value) (clients : list value) :
  (forall e, In e clients -> exists k, firstKey e = Some k /\ strict_equal k lang = false) ->
  findClient lang clients = Some VUndefined.
Proof.
  induction clients as [|e rest IH]; simpl; intros H; [reflexivity|].
  destruct (H e (or_introl eq_refl)) as (k & -> & ->).
  apply IH. intros e' He'. apply H. now right.
Qed.

(** X11.  [getLanguageClient] returns the client of the first entry whose
    first key is the language, and the empty string when no entry has
    that key. *)
Theorem getLanguageClient_first_match (name : string) (client : value)
    (before after others : list value) (rest : list (string * value)) :
  name <> "" ->
  (forall e, In e before ->
             exists k, firstKey e = Some k /\ strict_equal k (VStr name) = false) ->
  (forall e, In e others ->
             exists k, firstKey e = Some k /\ strict_equal k (VStr name) = false) ->
  getLanguageClient (VStr name) (VArr (before ++ VObj ((name, client) :: rest) :: after))
  = Some client
  /\ getLanguageClient (VStr name) (VArr others) = Some (VStr "").
Proof.
  intros Hname Hbefore Hothers. unfold getLanguageClient.
  assert (Htruthy : truthy (VStr name) = true).
  { simpl. destruct name; [contradiction | reflexivity]. }
  rewrite Htruthy. split.
  - replace (Nat.eqb (List.length (before ++ VObj ((name, client) :: rest) :: after)) 0)
      with false by (destruct before; reflexivity).
    simpl. rewrite (findClient_first (VStr name) before after _ Hbefore); try reflexivity.
    simpl. apply String.eqb_refl.
  - destruct (Nat.eqb (List.length others) 0); [reflexivity|]. simpl.
    now rewrite (findClient_none _ _ Hothers).
Qed.

(** ** The helpers at concrete inputs *)

Example removeDupeBlankLines_four_breaks :
  removeDupeBlankLines four_breaks = String "a" (String lineFeed (String lineFeed "b")).
Proof. reflexivity. Qed.

Lemma removeDupeBlankLines_leaves_no_triple_witness :
  isLineBreak lineFeed && isLineBreak lineFeed && isLineBreak "b" = false.
Proof.
  apply (removeDupeBlankLines_leaves_no_triple four_breaks "a" "" lineFeed lineFeed "b").
  reflexivity.
Defined.

Example slugify_heading : slugify "  Pets & Owners -- v2.0 " = "pets-and-owners-v2-0".
Proof. reflexivity. Qed.

Lemma slugify_alphabet_witness : slugChar "p" = true.
Proof.
  apply (slugify_alphabet "  Pets & Owners -- v2.0 " "p"). vm_compute. tauto.
Defined.

Example gfmLink_heading : gfmLink " Find a &lt;Pet&gt;: by tag/status. " = "find-a-pet-by-tagstatus".
Proof. reflexivity. Qed.

Lemma gfmLink_strips_witness :
  ~ In ":"%char (chars (gfmLink " Find a &lt;Pet&gt;: by tag/status. ")).
Proof.
  apply (gfmLink_strips " Find a &lt;Pet&gt;: by tag/status. " ":"). vm_compute. tauto.
Defined.

Example languageCheck_csharp :
  languageCheck "C#" some_tabs true
  = Some (VStr "csharp", (some_tabs ++ [VObj [("csharp", VStr "C#")]])%list).
Proof. reflexivity. Qed.

Lemma languageCheck_round_trip_witness :
  languageCheck "RUBY" (some_tabs ++ [VObj [("ruby", VStr "Ruby")]])%list false
  = Some (VStr "ruby", (some_tabs ++ [VObj [("ruby", VStr "Ruby")]])%list).
Proof.
  apply (languageCheck_round_trip "Ruby" "RUBY" some_tabs);
    [reflexivity | discriminate | reflexivity].
Defined.

Lemma languageCheck_lookup_witness :
  some_tabs = some_tabs
  /\ ((VStr "python" = VStr (lcLang "Python")
       /\ exists target, In target some_tabs
                         /\ isLanguage (lcLang "Python") target = Some true)
      \/ (VStr "python" = VBool false
          /\ forall target, In target some_tabs ->
                            isLanguage (lcLang "Python") target = Some false)).
Proof. apply (languageCheck_lookup "Python" some_tabs). reflexivity. Defined.

Lemma getLanguageTarget_custom_witness :
  getLanguageTarget (VStr "javascript") = Some (VStr "javascript")
  /\ getLanguageTarget (VStr ("javascript" ++ "--" ++ "nodejs"))
     = Some (VStr (if ("nodejs" =? "")%string then "javascript" ++ "--" else "nodejs")).
Proof.
  apply (getLanguageTarget_custom "javascript" "nodejs");
    vm_compute; intuition discriminate.
Defined.

Lemma getLanguageClient_first_match_witness :
  getLanguageClient (VStr "node")
    (VArr ([VObj [("shell", VStr "curl")]] ++ VObj [("node", VStr "request")] :: []))
  = Some (VStr "request")
  /\ getLanguageClient (VStr "node") (VArr [VObj [("shell", VStr "curl")]])
     = Some (VStr "").
Proof.
  apply (getLanguageClient_first_match "node" (VStr "request")
           [VObj [("shell", VStr "curl")]] [] [VObj [("shell", VStr "curl")]] []).
  - discriminate.
  - intros e [<- | []]. exists (VStr "shell"). split; reflexivity.
  - intros e [<- | []]. exists (VStr "shell"). split; reflexivity.
Defined.

(** ** clean and strim *)

Lemma visit_filter_defined (keep : string -> bool) (v : value) :
  is_undefined (visit_filter keep v) = is_undefined v.
Proof. now destruct v. Qed.

Lemma visit_filter_markers (v : value) :
  hasMarkerKey (visit_filter (fun key => negb (startsWith key "x-widdershins")) v) = false.
Proof.
  induction v as [| |b|n|s|items IH|props IH] using value_induction; try reflexivity.
  - simpl. induction IH as [|c rest Hc _ IHrest]; simpl; [reflexivity|].
    now rewrite Hc.
  - simpl. induction IH as [|kv rest Hkv _ IHrest]; simpl; [reflexivity|].
    destruct (startsWith (fst kv) "x-widdershins") eqn:Hkey; simpl; [exact IHrest|].
    destruct (is_undefined (snd kv)); simpl; [exact IHrest|].
    now rewrite Hkey, Hkv.
Qed.

(** X12.  What [clean] returns has no key, at any depth, that starts with
    [x-widdershins]. *)
Theorem clean_removes_markers (obj : value) : hasMarkerKey (clean obj) = false.
Proof.
  unfold clean. destruct (is_undefined obj); [reflexivity | apply visit_filter_markers].
Qed.

Lemma visit_filter_twice (keep : string -> bool) (v : value) :
  visit_filter keep (visit_filter keep v) = visit_filter keep v.
Proof.
  induction v as [| |b|n|s|items IH|props IH] using value_induction; try reflexivity.
  - simpl. f_equal. rewrite map_map.
    induction IH as [|c rest Hc _ IHrest]; simpl; [reflexivity|]. now rewrite Hc, IHrest.
  - simpl. f_equal.
    induction IH as [|kv rest Hkv _ IHrest]; simpl; [reflexivity|].
    destruct (keep (fst kv) && negb (is_undefined (snd kv))) eqn:Hkept; [|exact IHrest].
    simpl. rewrite visit_filter_defined, Hkept, Hkv. now f_equal.
Qed.

(** X13.  [clean] is idempotent: cleaning a cleaned value changes
    nothing. *)
Theorem clean_idempotent (obj : value) : clean (clean obj) = clean obj.
Proof.
  unfold clean. destruct (is_undefined obj) eqn:Hobj; [reflexivity|].
  now rewrite visit_filter_defined, Hobj, visit_filter_twice.
Qed.

(** For a positive limit [strim] is the cut at that depth. *)
Lemma strim_limit (obj : value) (limit : Z) :
  0 < limit -> strim obj (Some limit) = truncated limit 0 obj.
Proof.
  intros Hlimit. unfold strim, recurse; simpl.
  replace (limit <=? 0) with false by (symmetry; apply Z.leb_gt; lia).
  apply fold_invocations.
Qed.

Lemma truncated_twice (a b : Z) (v : value) :
  forall depth,
    truncated b depth (truncated a depth v) = truncated (Z.min a b) depth v.
Proof.
  induction v as [| |x|n|s|items IH|props IH] using value_induction;
    intros depth; try reflexivity.
  - simpl. destruct (depth >=? a) eqn:Ha; simpl.
    + replace (depth >=? Z.min a b) with true by lia.
      now destruct (depth >=? b).
    + destruct (depth >=? b) eqn:Hb.
      * now replace (depth >=? Z.min a b) with true by lia.
      * replace (depth >=? Z.min a b) with false by lia.
        f_equal. rewrite map_map. apply map_ext_Forall.
        eapply Forall_impl; [|exact IH]. intros c Hc. apply Hc.
  - simpl. destruct (depth >=? a) eqn:Ha; simpl.
    + replace (depth >=? Z.min a b) with true by lia.
      now destruct (depth >=? b).
    + destruct (depth >=? b) eqn:Hb.
      * now replace (depth >=? Z.min a b) with true by lia.
      * replace (depth >=? Z.min a b) with false by lia.
        f_equal. rewrite map_map. apply map_ext_Forall.
        eapply Forall_impl; [|exact IH]. intros kv Hkv. simpl. now rewrite Hkv.
Qed.

(** X14.  Two cuts in a row are the cut at the smaller of the two depths
    (both positive); with the same depth twice, [strim] is idempotent. *)
Theorem strim_compose (obj : value) (a b : Z) :
  0 < a -> 0 < b ->
  strim (strim obj (Some a)) (Some b) = strim obj (Some (Z.min a b)).
Proof.
  intros Ha Hb. rewrite !strim_limit by lia. apply truncated_twice.
Qed.

Lemma truncated_markers (limit : Z) (v : value) :
  forall depth, hasMarkerKey v = false -> hasMarkerKey (truncated limit depth v) = false.
Proof.
  induction v as [| |x|n|s|items IH|props IH] using value_induction;
    intros depth; try (intros _; reflexivity).
  - simpl. destruct (depth >=? limit); [reflexivity|]. simpl.
    induction IH as [|c rest Hc _ IHrest]; simpl; [reflexivity|].
    intros H. apply orb_false_iff in H as [H1 H2]. now rewrite Hc, IHrest.
  - simpl. destruct (depth >=? limit); [reflexivity|]. simpl.
    induction IH as [|kv rest Hkv _ IHrest]; simpl; [reflexivity|].
    intros H. apply orb_false_iff in H as [H1 H2].
    apply orb_false_iff in H1 as [H0 H1]. now rewrite H0, Hkv, IHrest.
Qed.

Lemma truncated_within (limit : Z) (v : value) :
  forall depth, withinDepth limit depth (truncated limit depth v) = true.
Proof.
  induction v as [| |x|n|s|items IH|props IH] using value_induction;
    intros depth; try reflexivity.
  - simpl. destruct (depth >=? limit) eqn:Hd; simpl; rewrite Hd; [reflexivity|].
    induction IH as [|c rest Hc _ IHrest]; simpl; [reflexivity|]. now rewrite Hc, IHrest.
  - simpl. destruct (depth >=? limit) eqn:Hd; simpl; rewrite Hd; [reflexivity|].
    induction IH as [|kv rest Hkv _ IHrest]; simpl; [reflexivity|]. now rewrite Hkv, IHrest.
Qed.

(** [strim] brings in no marker and keeps its bound, whatever
    [maxDepth]. *)
Lemma strim_markers (v : value) (limit : option Z) :
  hasMarkerKey v = false -> hasMarkerKey (strim v limit) = false.
Proof.
  intros Hv. destruct limit as [limit|]; [|now rewrite strim_unset].
  destruct (Z.ltb_spec 0 limit) as [Hpos | Hneg].
  - rewrite strim_limit by exact Hpos. now apply truncated_markers.
  - unfold strim; simpl. now replace (limit <=? 0) with true by lia.
Qed.

Lemma strim_within (v : value) (limit : option Z) :
  withinMaxDepth limit (strim v limit) = true.
Proof.
  destruct limit as [limit|]; [|reflexivity]. simpl.
  destruct (limit <=? 0) eqn:Hlimit; [reflexivity|].
  rewrite strim_limit by lia. apply truncated_within.
Qed.

Example clean_marked :
  clean marked
  = VObj [("name", VStr "Rex"); ("owner", VObj [("address", VObj [("city", VStr "Oslo")])])].
Proof. reflexivity. Qed.

Lemma strim_compose_witness :
  strim (strim marked (Some 2)) (Some 1) = strim marked (Some (Z.min 2 1)).
Proof. apply (strim_compose marked 2 1); lia. Defined.

(** ** The runs of the synthesizer *)

Section Triples.

Variable World : Type.
Variable sampler_sample : World -> value -> value -> value -> World * outcome value.

Lemma triple_ret {A : Type} (P : Session World -> Prop) (a : A)
    (Q : A -> Session World -> Prop) (E : string -> Session World -> Prop) :
  (forall s, P s -> Q a s) -> triple P (ret World a) Q E.
Proof. intros H s Hs. simpl. auto. Qed.

Lemma triple_bind {A B : Type} (P : Session World -> Prop) (m : M World A)
    (k : A -> M World B) (Q1 : A -> Session World -> Prop)
    (Q : B -> Session World -> Prop) (E : string -> Session World -> Prop) :
  triple P m Q1 E -> (forall a, triple (Q1 a) (k a) Q E) -> triple P (bind World m k) Q E.
Proof.
  intros Hm Hk s Hs. unfold bind. specialize (Hm s Hs).
  destruct (m s) as [s1 [a|e]]; [exact (Hk a s1 Hm) | exact Hm].
Qed.

Lemma triple_tryCatch {A : Type} (P : Session World -> Prop) (body : M World A)
    (handler : string -> M World A) (Q : A -> Session World -> Prop)
    (E1 E : string -> Session World -> Prop) :
  triple P body Q E1 -> (forall e, triple (E1 e) (handler e) Q E) ->
  triple P (tryCatch World body handler) Q E.
Proof.
  intros Hbody Hhandler s Hs. unfold tryCatch. specialize (Hbody s Hs).
  destruct (body s) as [s1 [a|e]]; [exact Hbody | exact (Hhandler e s1 Hbody)].
Qed.

Lemma triple_lift {A : Type} (P : Session World -> Prop) (o : outcome A)
    (Q : A -> Session World -> Prop) (E : string -> Session World -> Prop) :
  (forall s, P s -> match o with Returned a => Q a s | Thrown e => E e s end) ->
  triple P (lift World o) Q E.
Proof. intros H s Hs. unfold lift. specialize (H s Hs). now destruct o. Qed.

Lemma triple_readOptions (P : Session World -> Prop)
    (Q : Options -> Session World -> Prop) (E : string -> Session World -> Prop) :
  (forall s, P s -> Q (session_options s) s) -> triple P (readOptions World) Q E.
Proof. intros H s Hs. simpl. auto. Qed.

Lemma triple_conseq {A : Type} (P P' : Session World -> Prop) (m : M World A)
    (Q Q' : A -> Session World -> Prop) (E E' : string -> Session World -> Prop) :
  triple P m Q E ->
  (forall s, P' s -> P s) -> (forall a s, Q a s -> Q' a s) -> (forall e s, E e s -> E' e s) ->
  triple P' m Q' E'.
Proof.
  intros Hm HP HQ HE s Hs. specialize (Hm s (HP s Hs)).
  destruct (m s) as [s1 [a|e]]; auto.
Qed.

(** *** An invariant of the calls, carried through [getSampleInner]

    [I n] holds of the session when the generator was called at most [n]
    times and nothing is left to report; [J n e] when the exception [e] was
    thrown and is not reported yet. *)

Section Invariant.

Variable I : nat -> Session World -> Prop.
Variable J : nat -> string -> Session World -> Prop.

Hypothesis I_next : forall n s, I n s -> I (S n) s.
Hypothesis J_next : forall n e s, J n e s -> J (S n) e s.
Hypothesis I_thrown : forall n e s, I n s -> J n e s.
Hypothesis call_keeps :
  forall n schema samplerOptions defs,
    triple (I n) (callSampler World sampler_sample schema samplerOptions defs)
           (fun _ => I (S n)) (J (S n)).
Hypothesis report_first :
  forall n e,
    triple (J n e) (report World (fun m => ConsoleError ("# sampler " ++ m)) e)
           (fun _ => I n) (fun _ _ => False).
Hypothesis report_second :
  forall n e,
    triple (J n e) (report World (fun m => ConsoleWarn ("# sampler 2nd error " ++ m)) e)
           (fun _ => I n) (fun _ _ => False).
Hypothesis object_keeps :
  forall n e,
    triple (I n) (write World (ConsoleErrorObject e)) (fun _ => I n) (fun _ _ => False).
Hypothesis init_keeps :
  triple (fun s => samplerErrors (session_options s) = None /\ I 0 s)
         (setErrors World []) (fun _ => I 0) (fun _ _ => False).

Lemma I_le (n m : nat) (s : Session World) : (n <= m)%nat -> I n s -> I m s.
Proof. induction 1; auto. Qed.

Lemma J_le (n m : nat) (e : string) (s : Session World) : (n <= m)%nat -> J n e s -> J m e s.
Proof. induction 1; auto. Qed.

(** The [try] block: at most three calls. *)
Lemma attempt_invariant (orig obj samplerOptions defs : value) :
  triple (I 0) (attempt World sampler_sample orig obj samplerOptions defs)
         (fun _ => I 3) (J 3).
Proof.
  unfold attempt.
  eapply triple_bind.
  { eapply triple_conseq; [apply (call_keeps 0) | auto | intros a s H; exact H |].
    intros e s H. now apply (J_le 1 3); [lia|]. }
  intros sample1. cbv beta.
  eapply triple_bind with (Q1 := fun _ => I 2).
  { destruct (truthy sample1 && negb (is_undefined (get sample1 "$ref"))).
    - eapply triple_bind with (Q1 := fun _ => I 1).
      + apply triple_lift. intros s Hs.
        destruct (jsonRoundTrip orig); [exact Hs|].
        apply (J_le 1 3); [lia|]. now apply I_thrown.
      + intros obj'. eapply triple_bind with (Q1 := fun _ => I 2).
        * eapply triple_conseq; [apply (call_keeps 1) | auto | intros a s H; exact H |].
          intros e s H. now apply (J_le 2 3); [lia|].
        * intros sample2. apply triple_ret. auto.
    - apply triple_ret. intros s Hs. now apply I_next. }
  intros [obj0 sample0].
  destruct (negb (is_undefined sample0)).
  - destruct (negb (strict_equal sample0 VNull) && negb (Nat.eqb (keyCount sample0) 0)).
    + apply triple_ret. intros s Hs. now apply I_next.
    + eapply triple_bind with (Q1 := fun _ => I 3).
      * eapply triple_conseq; [apply (call_keeps 2) | auto | intros a s H; exact H | auto].
      * intros wrapped. eapply triple_bind with (Q1 := fun _ => I 3).
        -- apply triple_lift. intros s Hs.
           destruct (readProperty wrapped "anonymous"); [exact Hs | now apply I_thrown].
        -- intros a. apply triple_ret. auto.
  - apply triple_ret. intros s Hs. now apply I_next.
Qed.

(** The [catch] block: one call more. *)
Lemma recover_invariant (orig samplerOptions defs : value) (e : string) :
  orig <> VUndefined ->
  triple (J 3 e) (recover World sampler_sample orig samplerOptions defs e)
         (fun _ => I 4) (fun _ _ => False).
Proof.
  intros Horig. unfold recover.
  eapply triple_bind; [apply report_first|]. intros ?.
  eapply triple_bind with (Q1 := fun _ => I 3); [apply triple_readOptions; auto|].
  intros o.
  eapply triple_bind with (Q1 := fun _ => I 3).
  { destruct (verbose o); [apply object_keeps | apply triple_ret; auto]. }
  intros ?.
  eapply triple_bind with (Q1 := fun _ => I 3).
  { apply triple_lift. intros s Hs. unfold jsonRoundTrip.
    destruct orig; auto; contradiction. }
  intros obj.
  eapply triple_tryCatch with (E1 := J 4).
  - eapply triple_bind; [apply (call_keeps 3)|].
    intros sample0. destruct (negb (is_undefined sample0)); apply triple_ret; auto.
  - intros e2. eapply triple_bind; [apply report_second|].
    intros ?. apply triple_ret. auto.
Qed.

Lemma getSampleInner_invariant (orig samplerOptions api : value) :
  triple (I 0) (getSampleInner World sampler_sample orig samplerOptions api)
         (fun _ => I 4) (fun _ _ => False).
Proof.
  unfold getSampleInner.
  eapply triple_bind with (Q1 := fun o s => o = session_options s /\ I 0 s);
    [apply triple_readOptions; auto|].
  intros o.
  eapply triple_bind with (Q1 := fun _ => I 0).
  { destruct (samplerErrors o) eqn:Herrors.
    - apply triple_ret. now intros s [_ Hs].
    - eapply triple_conseq; [apply init_keeps | | auto | auto].
      intros s [-> Hs]. auto. }
  intros ?. unfold circularClone.
  destruct (sample o && truthy orig) eqn:Hon.
  - apply andb_true_iff in Hon as [_ Horig].
    assert (Hdefined : orig <> VUndefined) by (intros ->; discriminate).
    eapply triple_bind with (Q1 := fun _ => I 4).
    + eapply triple_tryCatch.
      * eapply triple_conseq; [apply attempt_invariant | auto | | intros e s H; exact H].
        intros c s H. now apply (I_le 3 4); [lia|].
      * intros e. now apply recover_invariant.
    + intros [v|obj]; apply triple_ret; auto.
  - apply triple_ret. intros s Hs. now apply (I_le 0 4); [lia|].
Qed.

End Invariant.

End Triples.

Section SamplerRuns.

Variable World : Type.
Variable sampler_sample : World -> value -> value -> value -> World * outcome value.

(** *** What the result of getSample is made of *)

(** [getSampleInner] leaves [options.maxDepth] as it is. *)
Lemma getSampleInner_maxDepth (orig samplerOptions api : value) (limit : option Z) :
  triple (fun s => maxDepth (session_options s) = limit)
         (getSampleInner World sampler_sample orig samplerOptions api)
         (fun _ s => maxDepth (session_options s) = limit) (fun _ _ => False).
Proof.
  apply (getSampleInner_invariant World sampler_sample
           (fun _ s => maxDepth (session_options s) = limit)
           (fun _ _ s => maxDepth (session_options s) = limit)); auto.
  - intros n schema so defs s Hs. unfold callSampler.
    now destruct (sampler_sample (world s) schema so defs) as [w [a|e]].
  - intros n e s Hs. unfold report, bind, readOptions, write, setErrors.
    now destruct (has_message (seen (session_options s)) e).
  - intros n e s Hs. unfold report, bind, readOptions, write, setErrors.
    now destruct (has_message (seen (session_options s)) e).
  - intros n e s Hs. exact Hs.
  - intros s [_ Hs]. exact Hs.
Qed.

(** X15.  When the node has no truthy [example], [getSample] throws
    exactly when [clean] throws on what [getSampleInner] returned (an
    object there hides [hasOwnProperty]).  When it does not, [getSample]
    returns, whatever the generator returned or threw: what it returns is
    not [undefined], has no key that starts with [x-widdershins], at any
    depth, and no container with a key at depth [options.maxDepth] or
    deeper (for a positive [maxDepth]). *)
Theorem getSample_sanitized (orig samplerOptions api : value) (s : Session World) :
  truthy orig && truthy (get orig "example") = false ->
  exists s1 r,
    getSampleInner World sampler_sample orig samplerOptions api s = (s1, Returned r)
    /\ ((cleanThrows r = true
         /\ getSample World sampler_sample orig samplerOptions api s
            = (s1, Thrown hasOwnPropertyError))
        \/ (cleanThrows r = false
            /\ exists v,
                 getSample World sampler_sample orig samplerOptions api s
                 = (s1, Returned v)
                 /\ v <> VUndefined
                 /\ hasMarkerKey v = false
                 /\ withinMaxDepth (maxDepth (session_options s)) v = true)).
Proof.
  intros Hexample.
  destruct (getSample_outcome World sampler_sample orig samplerOptions api s Hexample)
    as (s1 & r & Hinner & Hrun).
  pose proof (getSampleInner_maxDepth orig samplerOptions api
                (maxDepth (session_options s)) s eq_refl) as Hdepth.
  rewrite Hinner in Hdepth.
  exists s1, r. split; [exact Hinner|].
  destruct (cleanThrows r); [left; now split | right; split; [reflexivity|]].
  exists (strim (clean r) (maxDepth (session_options s1))).
  split; [exact Hrun|]. split; [apply strim_defined, clean_defined|]. split.
  - apply strim_markers. unfold clean.
    destruct (is_undefined r); [reflexivity | apply visit_filter_markers].
  - rewrite <- Hdepth. apply strim_within.
Qed.

(** X16.  With [options.sample] off, or a falsy node, and no truthy
    [example], the generator is not called and nothing is written to the
    console; [getSample] returns the node itself, cleaned and cut at
    [maxDepth], or throws when [clean] throws on the node. *)
Theorem getSample_without_sampling (orig samplerOptions api : value) (s : Session World) :
  truthy orig && truthy (get orig "example") = false ->
  sample (session_options s) && truthy orig = false ->
  exists s',
    getSample World sampler_sample orig samplerOptions api s
    = (s', if cleanThrows orig then Thrown hasOwnPropertyError
           else Returned (strim (clean orig) (maxDepth (session_options s))))
    /\ world s' = world s /\ console s' = console s.
Proof.
  intros Hexample Hoff.
  destruct (getSample_outcome World sampler_sample orig samplerOptions api s Hexample)
    as (s1 & r & Hinner & Hrun).
  revert Hinner. unfold getSampleInner, bind, readOptions, ret, setErrors, circularClone.
  destruct (samplerErrors (session_options s)); simpl; rewrite Hoff;
    intros H; injection H as <- <-; eexists; (split; [exact Hrun|]); split; reflexivity.
Qed.

(** *** The diagnostics *)

Lemma has_message_In (errors : list string) (message : string) :
  has_message errors message = true <-> In message errors.
Proof.
  unfold has_message. rewrite existsb_exists. split.
  - intros (m & Hin & Heq). apply String.eqb_eq in Heq. now subst.
  - intros Hin. exists message. split; [exact Hin | apply String.eqb_refl].
Qed.

Lemma has_message_app (errors more : list string) (message : string) :
  has_message errors message = true -> has_message (errors ++ more) message = true.
Proof. rewrite !has_message_In. intros H. apply in_or_app. now left. Qed.

Lemma reportsOnce_refl (s : Session World) : reportsOnce s s.
Proof.
  exists [], []. rewrite !app_nil_r. repeat split; try constructor. intros m [].
Qed.

(** A line on the console that is not a full diagnostic. *)
Lemma reportsOnce_aside (s0 s : Session World) (d : Diagnostic) :
  fullReport d = false -> reportsOnce s0 s ->
  reportsOnce s0 {| world := world s; session_options := session_options s;
                    console := (console s ++ [d])%list |}.
Proof.
  intros Hd (new & shown & Hseen & Hconsole & Hshown & Hnew & Hfresh).
  exists new, (shown ++ [d])%list. cbn [world session_options console].
  repeat split; try assumption.
  - now rewrite Hconsole, app_assoc.
  - rewrite filter_app. simpl. rewrite Hd. now rewrite app_nil_r.
Qed.

Lemma report_reportsOnce (s0 : Session World) (text : string -> Diagnostic) (e : string) :
  (forall m, reportOf (text m) m) ->
  triple (reportsOnce s0) (report World text e) (fun _ => reportsOnce s0) (fun _ _ => False).
Proof.
  intros Htext s Hs. unfold report, bind, readOptions, write, setErrors.
  destruct (has_message (seen (session_options s)) e) eqn:Hseen.
  - now apply reportsOnce_aside.
  - destruct Hs as (new & shown & Hmemo & Hconsole & Hshown & Hnew & Hfresh).
    exists (new ++ [e])%list, (shown ++ [text e])%list.
    cbn [world session_options console seen samplerErrors].
    assert (Hnot : ~ In e (seen (session_options s))).
    { intros Hin. apply has_message_In in Hin. congruence. }
    rewrite Hmemo in Hnot.
    repeat split.
    + now rewrite Hmemo, app_assoc.
    + now rewrite Hconsole, app_assoc.
    + rewrite filter_app. apply Forall2_app; [exact Hshown|]. simpl.
      replace (fullReport (text e)) with true by (now destruct (Htext e) as [-> | ->]).
      constructor; [apply Htext | constructor].
    + apply NoDup_app; [exact Hnew | repeat constructor; intros [] |].
      intros m Hm [<- | []]. apply Hnot. apply in_or_app. now right.
    + intros m Hm. apply in_app_or in Hm as [Hm | [<- | []]]; [now apply Hfresh|].
      destruct (has_message (seen (session_options s0)) e) eqn:Hold; [|reflexivity].
      exfalso. apply Hnot. apply in_or_app. left. now apply has_message_In.
Qed.

(** X17.  Over a call of [getSampleInner], the messages added to
    [options.samplerErrors] are distinct and were not in it before, and
    the full diagnostics written to the console ([# sampler ...] and
    [# sampler 2nd error ...]) are those of the messages added, one for
    each, in the same order: a message that is in the memo already is never
    reported in full again. *)
Theorem getSampleInner_reports_once (orig samplerOptions api : value) (s : Session World) :
  reportsOnce s (fst (getSampleInner World sampler_sample orig samplerOptions api s)).
Proof.
  pose proof (getSampleInner_invariant World sampler_sample
                (fun _ s' => reportsOnce s s') (fun _ _ s' => reportsOnce s s')) as H.
  specialize (H (fun _ _ H => H) (fun _ _ _ H => H) (fun _ _ _ H => H)).
  assert (Hrun : triple (fun s' => reportsOnce s s')
                        (getSampleInner World sampler_sample orig samplerOptions api)
                        (fun _ s' => reportsOnce s s') (fun _ _ => False)).
  { apply H.
    - intros n schema so defs s1 Hs. unfold callSampler.
      destruct (sampler_sample (world s1) schema so defs) as [w [a|e]];
        destruct Hs as (new & shown & Hs); now exists new, shown.
    - intros n e. apply report_reportsOnce. intros m. now left.
    - intros n e. apply report_reportsOnce. intros m. now right.
    - intros n e s1 Hs. now apply reportsOnce_aside.
    - intros s1 [Hnone (new & shown & Hmemo & Hs)]. exists new, shown.
      split; [|exact Hs]. cbn [session_options seen samplerErrors setErrors fst].
      unfold seen in Hmemo. now rewrite Hnone in Hmemo. }
  specialize (Hrun s (reportsOnce_refl s)).
  destruct (getSampleInner World sampler_sample orig samplerOptions api s)
    as [s1 [v|e]]; [exact Hrun | contradiction].
Qed.

End SamplerRuns.

Section TracedRuns.

Variable World : Type.
Variable sampler_sample : World -> value -> value -> value -> World * outcome value.

Lemma report_since (s0 : Session (World * list (outcome value))) (text : string -> Diagnostic) (n : nat) (e : string) :
  triple (callsSince s0 (Some e) n) (report (World * list (outcome value)) text e)
         (fun _ => callsSince s0 None n) (fun _ _ => False).
Proof.
  intros s (new & Hcalls & Hlen & Hmemo).
  unfold report, bind, readOptions, write, setErrors.
  destruct (has_message (seen (session_options s)) e) eqn:Hseen.
  - exists new. repeat split; try assumption.
    intros m Hm. right. cbn [session_options].
    destruct (Hmemo m Hm) as [Heq | Hhas]; [|exact Hhas]. now injection Heq as ->.
  - exists new. repeat split; try assumption.
    intros m Hm. right. cbn [session_options seen samplerErrors].
    destruct (Hmemo m Hm) as [Heq | Hhas].
    + injection Heq as ->. apply has_message_In, in_or_app. right. now left.
    + now apply has_message_app.
Qed.

(** X18.  For one sample the generator is called at most four times, and
    the message of every exception it throws in these calls is in
    [options.samplerErrors] when [getSampleInner] returns. *)
Theorem getSampleInner_calls (orig samplerOptions api : value) (s : Session (World * list (outcome value))) :
  exists new,
    calls (fst (getSampleInner (World * list (outcome value)) (traced sampler_sample) orig samplerOptions api s))
    = (calls s ++ new)%list
    /\ (List.length new <= 4)%nat
    /\ (forall m, In (Thrown m) new ->
          has_message
            (seen (session_options
                     (fst (getSampleInner (World * list (outcome value)) (traced sampler_sample)
                                          orig samplerOptions api s)))) m = true).
Proof.
  assert (Hrun : triple (callsSince s None 0)
                        (getSampleInner (World * list (outcome value)) (traced sampler_sample) orig samplerOptions api)
                        (fun _ => callsSince s None 4) (fun _ _ => False)).
  { apply (getSampleInner_invariant (World * list (outcome value)) (traced sampler_sample)
             (callsSince s None) (fun n e => callsSince s (Some e) n)).
    - intros n s1 (new & Hcalls & Hlen & Hmemo). exists new. repeat split; auto.
    - intros n e s1 (new & Hcalls & Hlen & Hmemo). exists new. repeat split; auto.
    - intros n e s1 (new & Hcalls & Hlen & Hmemo). exists new. repeat split; auto.
      intros m Hm. destruct (Hmemo m Hm) as [Heq | Hhas]; [discriminate | now right].
    - intros n schema so defs s1 (new & Hcalls & Hlen & Hmemo).
      unfold callSampler, traced.
      destruct (sampler_sample (fst (world s1)) schema so defs) as [w [a|e]];
        [exists (new ++ [Returned a])%list | exists (new ++ [Thrown e])%list];
        unfold calls in *; cbn [world snd session_options];
        (repeat split;
         [now rewrite Hcalls, app_assoc | rewrite length_app; simpl; lia |]);
        intros m Hm; apply in_app_or in Hm as [Hm | [Hm | []]].
      + destruct (Hmemo m Hm) as [Heq | Hhas]; [discriminate | now right].
      + discriminate.
      + destruct (Hmemo m Hm) as [Heq | Hhas]; [discriminate | now right].
      + injection Hm as ->. now left.
    - intros n e. apply report_since.
    - intros n e. apply report_since.
    - intros n e s1 (new & Hs). now exists new.
    - intros s1 [Hnone (new & Hcalls & Hlen & Hmemo)]. exists new.
      repeat split; auto. intros m Hm.
      destruct (Hmemo m Hm) as [Heq | Hhas]; [discriminate|].
      unfold seen in Hhas. now rewrite Hnone in Hhas. }
  assert (Hstart : callsSince s None 0 s).
  { exists []. rewrite app_nil_r. repeat split; auto; intros m []. }
  specialize (Hrun s Hstart).
  destruct (getSampleInner (World * list (outcome value)) (traced sampler_sample) orig samplerOptions api s)
    as [s1 [v|e]]; [|contradiction].
  destruct Hrun as (new & Hcalls & Hlen & Hmemo). exists new.
  repeat split; auto. intros m Hm.
  destruct (Hmemo m Hm) as [Heq | Hhas]; [discriminate | exact Hhas].
Qed.

End TracedRuns.

(** *** The runs at concrete inputs *)

Lemma getSample_sanitized_witness :
  exists s1 r,
    getSampleInner unit marked_sampler (VObj [("type", VStr "object")]) VNull VNull
                   (session_with plain_options)
    = (s1, Returned r)
    /\ ((cleanThrows r = true
         /\ getSample unit marked_sampler (VObj [("type", VStr "object")]) VNull VNull
                      (session_with plain_options)
            = (s1, Thrown hasOwnPropertyError))
        \/ (cleanThrows r = false
            /\ exists v,
                 getSample unit marked_sampler (VObj [("type", VStr "object")]) VNull VNull
                           (session_with plain_options)
                 = (s1, Returned v)
                 /\ v <> VUndefined
                 /\ hasMarkerKey v = false
                 /\ withinMaxDepth (maxDepth (session_options (session_with plain_options))) v
                    = true)).
Proof.
  apply (getSample_sanitized unit marked_sampler (VObj [("type", VStr "object")])
           VNull VNull (session_with plain_options)).
  reflexivity.
Defined.

(** The generator returns [marked]; [getSample] returns it without its
    markers and cut at depth 1. *)
Example getSample_marked :
  snd (getSample unit marked_sampler (VObj [("type", VStr "object")]) VNull VNull
                 (session_with plain_options))
  = Returned (VObj [("name", VStr "Rex"); ("owner", VObj [])]).
Proof. reflexivity. Qed.

(** The node [marked] with sampling off: the node comes back without its
    markers and cut at depth 1. *)
Lemma getSample_without_sampling_witness :
  exists s',
    getSample unit failing_sampler marked VNull VNull (session_with quiet_options)
    = (s', if cleanThrows marked then Thrown hasOwnPropertyError
           else Returned (strim (clean marked)
                                (maxDepth (session_options (session_with quiet_options)))))
    /\ world s' = world (session_with quiet_options)
    /\ console s' = console (session_with quiet_options).
Proof.
  apply (getSample_without_sampling unit failing_sampler marked VNull VNull
           (session_with quiet_options)); reflexivity.
Defined.

Example getSample_marked_node :
  snd (getSample unit failing_sampler marked VNull VNull (session_with quiet_options))
  = Returned (VObj [("name", VStr "Rex"); ("owner", VObj [])]).
Proof. reflexivity. Qed.

(** Two distinct messages in one call, then the same two again: two full
    diagnostics, then two dots. *)
Example reports_then_dots :
  let run := getSampleInner nat numbering_sampler (VObj []) VNull VNull in
  let s1 := fst (run {| world := O; session_options := plain_options; console := [] |}) in
  let s2 := fst (run {| world := O; session_options := session_options s1;
                        console := console s1 |}) in
  console s1 = [ConsoleError "# sampler first"; ConsoleWarn "# sampler 2nd error second"]
  /\ console s2 = (console s1 ++ [Dot; Dot])%list
  /\ seen (session_options s2) = ["first"; "second"].
Proof. repeat split. Qed.

(** Four calls are reached: a reference, an empty object, an exception
    from the wrapped schema, and the call of the [catch] block. *)
Example four_calls :
  List.length
    (calls (fst (getSampleInner (nat * list (outcome value)) (traced stubborn_sampler)
                   (VObj [("type", VStr "object")]) VNull VNull
                   {| world := (O, []); session_options := plain_options; console := [] |})))
  = 4%nat.
Proof. reflexivity. Qed.

(** ** The rows and the blocks of schemaToArray *)

Section FlattenerRuns.

Variable jptr : value -> string -> value.
Variable offset : Z.
Variable data : Data.

Lemma walk_follows (visits : list Visit) :
  forall f f', walk jptr offset data f visits = Some f' ->
  exists new,
    all_rows f' = (all_rows f ++ new)%list
    /\ subsequence (map entry_schema new) (map visit_schema visits).
Proof.
  induction visits as [|v rest IH]; simpl; intros f f' H.
  - injection H as <-. exists []. split; [now rewrite app_nil_r | constructor].
  - destruct (callback jptr offset data f v) as [f1|] eqn:Hcb; [|discriminate].
    destruct (callback_effect _ _ _ _ _ _ Hcb) as (type & _ & _ & _ & Hrows1).
    destruct (IH _ _ H) as (new2 & Hrows2 & Hsub).
    destruct (kept (visitTop data v) type (entry_name (visitRow offset data f v type))).
    + exists (visitRow offset data f v type :: new2). split.
      * rewrite Hrows2, Hrows1, <- app_assoc. reflexivity.
      * simpl. now constructor.
    + exists new2. split.
      * now rewrite Hrows2, Hrows1, app_nil_r.
      * simpl. now constructor.
Qed.

Lemma initial_rows (schema : value) : all_rows (initial schema) = [].
Proof.
  unfold all_rows, container, initial, rootBlock, newBlock; simpl.
  now destruct (truthy schema).
Qed.

(** X19.  The rows [schemaToArray] returns, read block after block, are
    rows of nodes the walker visited, in the order of the visits and at
    most one for each visit: the schemas of the rows are a subsequence of
    the schemas visited. *)
Theorem rows_follow_visits (walkSchema : value -> list Visit) (schema : value)
    (formatOptions : FormatOptions) (blocks : list Block) :
  schemaToArray jptr offset data walkSchema schema formatOptions = Some blocks ->
  subsequence (map entry_schema (flat_map rows blocks))
              (map visit_schema (walkSchema schema)).
Proof.
  unfold schemaToArray.
  destruct (walk jptr offset data (initial schema) (walkSchema schema)) as [f|] eqn:Hwalk;
    [|discriminate].
  intros H; injection H as <-.
  destruct (walk_follows _ _ _ Hwalk) as (new & Hrows & Hsub).
  fold (all_rows f). now rewrite Hrows, initial_rows.
Qed.

(** *** The headers of the blocks *)

Lemma headers_pushBlock (f : Flat) (t : string) (bd : Z) :
  map header (container (pushBlock f (newBlock t) bd))
  = (map header (container f) ++ [(VStr t, VUndefined, VUndefined)])%list.
Proof. unfold container, pushBlock; simpl. now rewrite map_app. Qed.

Lemma openBlock_headers (f f1 : Flat) (schema : value) (state : WalkState) :
  openBlock jptr data f schema state = Some f1 ->
  exists extra,
    map header (container f1) = (map header (container f) ++ extra)%list
    /\ Forall titleOnly extra.
Proof.
  unfold openBlock.
  destruct (isBlockProperty (state_property state)).
  - destruct (state_property state) as [p|]; [|discriminate].
    destruct (discriminatorSuffix jptr data schema) as [suffix|]; [|discriminate].
    intros H; injection H as <-. eexists. split; [apply headers_pushBlock|].
    repeat constructor. now eexists.
  - destruct (negb (blockDepth f =? 0) && (state_depth state <? blockDepth f)).
    + intros H; injection H as <-. eexists. split; [apply headers_pushBlock|].
      repeat constructor. now eexists.
    + intros H; injection H as <-. exists []. split; [now rewrite app_nil_r | constructor].
Qed.

Lemma callback_headers (f f' : Flat) (v : Visit) :
  callback jptr offset data f v = Some f' ->
  exists extra,
    map header (container f') = (map header (container f) ++ extra)%list
    /\ Forall titleOnly extra.
Proof.
  unfold callback.
  destruct (openBlock jptr data f (visit_schema v) (visit_state v)) as [f1|] eqn:Hopen;
    [|discriminate].
  destruct (moveDepth (iDepth f1) (oDepth f1) (visitName data v)
                      (state_depth (visit_state v))) as [i o].
  destruct (negb (referenceOk (visit_schema v))); [discriminate|].
  destruct (entryType (visit_schema v)) as [type|]; [|discriminate].
  intros H; injection H as <-.
  destruct (openBlock_headers _ _ _ _ Hopen) as (extra & Hheaders & Hextra).
  exists extra. split; [|exact Hextra]. rewrite <- Hheaders.
  unfold container; simpl. rewrite !map_app. f_equal.
  now destruct (kept _ _ _).
Qed.

Lemma walk_headers (visits : list Visit) :
  forall f f', walk jptr offset data f visits = Some f' ->
  exists extra,
    map header (container f') = (map header (container f) ++ extra)%list
    /\ Forall titleOnly extra.
Proof.
  induction visits as [|v rest IH]; simpl; intros f f' H.
  - injection H as <-. exists []. split; [now rewrite app_nil_r | constructor].
  - destruct (callback jptr offset data f v) as [f1|] eqn:Hcb; [|discriminate].
    destruct (callback_headers _ _ _ Hcb) as (extra1 & H1 & Hextra1).
    destruct (IH _ _ H) as (extra2 & H2 & Hextra2).
    exists (extra1 ++ extra2)%list. split.
    + now rewrite H2, H1, app_assoc.
    + apply Forall_app. auto.
Qed.

(** What [rootBlock] makes of a schema, written out. *)
Lemma header_rootBlock (schema : value) :
  header (rootBlock schema)
  = (if truthy (get schema "title") then get schema "title"
     else if truthy (get schema "description") then get schema "description"
     else VStr "",
     get schema "description",
     if truthy (get schema "externalDocs") then get schema "externalDocs" else VUndefined).
Proof.
  unfold header, rootBlock, newBlock.
  destruct schema as [| |b|n|t|items|props]; simpl; try reflexivity.
  - now destruct b.
  - now destruct (negb (n =? 0)).
  - now destruct (negb (t =? "")%string).
  - destruct (truthy (lookup "title" props)) eqn:Htitle; simpl.
    + now rewrite Htitle.
    + now destruct (truthy (lookup "description" props)).
Qed.

(** X20.  The first block [schemaToArray] returns is the schema's own: its
    title is [schema.title] when that is truthy, else [schema.description]
    when that is truthy, else the empty string; its description is
    [schema.description] and its externalDocs is [schema.externalDocs]
    when truthy ([undefined] when not).  Every other block has a string for
    a title and neither description nor externalDocs. *)
Theorem first_block_is_the_schema (walkSchema : value -> list Visit) (schema : value)
    (formatOptions : FormatOptions) (blocks : list Block) :
  schemaToArray jptr offset data walkSchema schema formatOptions = Some blocks ->
  exists later,
    map header blocks
    = (if truthy (get schema "title") then get schema "title"
       else if truthy (get schema "description") then get schema "description"
       else VStr "",
       get schema "description",
       if truthy (get schema "externalDocs") then get schema "externalDocs"
       else VUndefined) :: later
    /\ Forall titleOnly later.
Proof.
  unfold schemaToArray.
  destruct (walk jptr offset data (initial schema) (walkSchema schema)) as [f|] eqn:Hwalk;
    [|discriminate].
  intros H; injection H as <-.
  destruct (walk_headers _ _ _ Hwalk) as (extra & Hheaders & Hextra).
  exists extra. split; [|exact Hextra].
  rewrite Hheaders. unfold container, initial; simpl. now rewrite header_rootBlock.
Qed.

(** *** Required *)

(** X21.  A row pushed for a node whose parent has an array for
    [required] has [required] [true] when its name is in the array and
    [false] when it is not; when the parent has no [required], it is
    [false]. *)
Theorem required_of_listed (f f' : Flat) (v : Visit) :
  callback jptr offset data f v = Some f' ->
  exists new,
    all_rows f' = (all_rows f ++ new)%list
    /\ (forall names,
          get (visit_parent v) "required" = VArr names ->
          Forall (fun e => entry_required e = VBool (includes names (entry_name e))) new)
    /\ (get (visit_parent v) "required" = VUndefined ->
        Forall (fun e => entry_required e = VBool false) new).
Proof.
  intros H. destruct (row_required _ _ _ _ _ _ H) as (new & Hrows & Hnew).
  exists new. split; [exact Hrows|]. split.
  - intros names Hnames. eapply Forall_impl; [|exact Hnew].
    intros e ->. unfold requiredOf. now rewrite Hnames.
  - intros Hnone. eapply Forall_impl; [|exact Hnew].
    intros e ->. unfold requiredOf. now rewrite Hnone.
Qed.

End FlattenerRuns.

(** *** The offset *)

Section Offset.

Variable jptr : value -> string -> value.
Variable offset k : Z.
Variable data : Data.
Hypothesis offset_nonneg : 0 <= offset.
Hypothesis k_nonneg : 0 <= k.

Lemma deeperBlock_newBlock (t : string) : deeperBlock k (newBlock t) = newBlock t.
Proof. reflexivity. Qed.

Lemma deeperFlat_pushBlock (f : Flat) (t : string) (bd : Z) :
  pushBlock (deeperFlat k f) (newBlock t) bd = deeperFlat k (pushBlock f (newBlock t) bd).
Proof. unfold pushBlock, deeperFlat; simpl. now rewrite map_app. Qed.

Lemma openBlock_deeper (f : Flat) (schema : value) (state : WalkState) :
  openBlock jptr data (deeperFlat k f) schema state
  = option_map (deeperFlat k) (openBlock jptr data f schema state).
Proof.
  unfold openBlock.
  destruct (isBlockProperty (state_property state)).
  - destruct (state_property state) as [p|]; [|reflexivity].
    destruct (discriminatorSuffix jptr data schema) as [suffix|]; [|reflexivity].
    simpl. now rewrite deeperFlat_pushBlock.
  - cbn [blockDepth deeperFlat].
    destruct (negb (blockDepth f =? 0) && (state_depth state <? blockDepth f)); simpl;
      [now rewrite deeperFlat_pushBlock | reflexivity].
Qed.

Lemma moveDepth_nonneg (i o depth : Z) (name : value) :
  0 <= o -> 0 <= snd (moveDepth i o name depth).
Proof.
  intros Ho. unfold moveDepth. destruct (truthy name); simpl; [|exact Ho].
  destruct (depth >? i) eqn:Hgt; destruct (depth <? i) eqn:Hlt;
    try destruct (o + 1 - 1 <? 0) eqn:H1; try destruct (o - 1 <? 0) eqn:H2; lia.
Qed.

Lemma visitDepth_deeper (f : Flat) (v : Visit) :
  0 <= oDepth f ->
  visitDepth (offset + k) data (deeperFlat k f) v = visitDepth offset data f v + k.
Proof.
  intros Ho. unfold visitDepth, displayDepth. cbn [iDepth oDepth deeperFlat].
  pose proof (moveDepth_nonneg (iDepth f) (oDepth f) (state_depth (visit_state v))
                               (visitName data v) Ho).
  lia.
Qed.

Lemma visitDepth_offset_nonneg (f : Flat) (v : Visit) : 0 <= visitDepth offset data f v.
Proof. unfold visitDepth, displayDepth. lia. Qed.

Lemma visitSkip_deeper (f : Flat) (v : Visit) :
  0 <= oDepth f ->
  visitSkip (offset + k) data (deeperFlat k f) v
  = if visitSkip offset data f v <? 0 then visitSkip offset data f v
    else visitSkip offset data f v + k.
Proof.
  intros Ho. unfold visitSkip, markSkip. rewrite visitDepth_deeper by exact Ho.
  pose proof (visitDepth_offset_nonneg f v) as Hd.
  destruct (isReference (visit_schema v) && shallowSchemas (options data)).
  - destruct (visitDepth offset data f v <? 0) eqn:Hneg; [lia | reflexivity].
  - reflexivity.
Qed.

Lemma blankName_deeper (name : value) (depth skip : Z) :
  blankName name (depth + k) (if skip <? 0 then skip else skip + k)
  = blankName name depth skip.
Proof.
  unfold blankName. destruct (skip <? 0) eqn:Hneg.
  - replace (skip >=? 0) with false by lia. reflexivity.
  - replace (skip + k >=? 0) with true by lia.
    replace (skip >=? 0) with true by lia.
    replace (depth + k >=? skip + k) with (depth >=? skip) by lia. reflexivity.
Qed.

Lemma clearSkip_deeper (depth skip : Z) :
  0 <= depth ->
  clearSkip (depth + k) (if skip <? 0 then skip else skip + k)
  = if clearSkip depth skip <? 0 then clearSkip depth skip else clearSkip depth skip + k.
Proof.
  intros Hd. unfold clearSkip. destruct (skip <? 0) eqn:Hneg.
  - replace (depth + k <? skip) with false by lia.
    replace (depth <? skip) with false by lia. now rewrite Hneg.
  - replace (depth + k <? skip + k) with (depth <? skip) by lia.
    destruct (depth <? skip); [reflexivity | now rewrite Hneg].
Qed.

Lemma visitRow_deeper (f : Flat) (v : Visit) (type : value) :
  0 <= oDepth f ->
  visitRow (offset + k) data (deeperFlat k f) v type
  = deeperEntry k (visitRow offset data f v type).
Proof.
  intros Ho. unfold visitRow, deeperEntry; simpl.
  rewrite visitSkip_deeper, visitDepth_deeper by exact Ho.
  now rewrite blankName_deeper.
Qed.

Lemma callback_deeper (f : Flat) (v : Visit) :
  0 <= oDepth f ->
  callback jptr (offset + k) data (deeperFlat k f) v
  = option_map (deeperFlat k) (callback jptr offset data f v)
  /\ (forall f', callback jptr offset data f v = Some f' -> 0 <= oDepth f').
Proof.
  intros Ho. unfold callback. rewrite openBlock_deeper.
  destruct (openBlock jptr data f (visit_schema v) (visit_state v)) as [f1|] eqn:Hopen;
    [|split; [reflexivity | discriminate]].
  destruct (openBlock_frame _ _ _ _ _ _ Hopen) as (Hi1 & Ho1 & _ & _).
  assert (Ho' : 0 <= oDepth f1) by (rewrite Ho1; exact Ho).
  cbn [option_map].
  change (iDepth (deeperFlat k f1)) with (iDepth f1).
  change (oDepth (deeperFlat k f1)) with (oDepth f1).
  pose proof (moveDepth_nonneg (iDepth f1) (oDepth f1) (state_depth (visit_state v))
                               (visitName data v) Ho') as Hmove.
  destruct (moveDepth (iDepth f1) (oDepth f1) (visitName data v)
                      (state_depth (visit_state v))) as [i o].
  destruct (negb (referenceOk (visit_schema v))); [split; [reflexivity | discriminate]|].
  destruct (entryType (visit_schema v)) as [type|]; [|split; [reflexivity | discriminate]].
  split; [|intros f' H; injection H as <-; exact Hmove].
  rewrite visitRow_deeper, visitSkip_deeper, visitDepth_deeper by exact Ho'.
  rewrite clearSkip_deeper by apply visitDepth_offset_nonneg.
  change (entry_name (deeperEntry k (visitRow offset data f1 v type)))
    with (entry_name (visitRow offset data f1 v type)).
  unfold deeperFlat; cbn [option_map iDepth oDepth blockDepth skipDepth closed block].
  f_equal. f_equal.
  destruct (kept (visitTop data v) type (entry_name (visitRow offset data f1 v type)));
    [|reflexivity].
  unfold pushRow, deeperBlock; simpl. now rewrite map_app.
Qed.

Lemma walk_deeper (visits : list Visit) :
  forall f,
    0 <= oDepth f ->
    walk jptr (offset + k) data (deeperFlat k f) visits
    = option_map (deeperFlat k) (walk jptr offset data f visits).
Proof.
  induction visits as [|v rest IH]; simpl; intros f Ho; [reflexivity|].
  destruct (callback_deeper f v Ho) as [-> Hnext].
  destruct (callback jptr offset data f v) as [f1|]; [|reflexivity].
  simpl. apply IH. now apply Hnext.
Qed.

Lemma deeperFlat_initial (schema : value) : deeperFlat k (initial schema) = initial schema.
Proof.
  unfold deeperFlat, initial, rootBlock, newBlock; simpl.
  now destruct (truthy schema).
Qed.

(** X22.  For offsets of 0 or more the offset only shifts the depths: the
    blocks for the offset [offset + k] are the blocks for [offset] with
    every row [k] levels deeper, and the one call throws when the other
    does; names, types, titles and the choice of the rows are the same,
    with [shallowSchemas] set or not. *)
Theorem offset_shifts_depths (walkSchema : value -> list Visit) (schema : value)
    (formatOptions : FormatOptions) :
  schemaToArray jptr (offset + k) data walkSchema schema formatOptions
  = option_map (map (deeperBlock k))
               (schemaToArray jptr offset data walkSchema schema formatOptions).
Proof.
  unfold schemaToArray. rewrite <- (deeperFlat_initial schema) at 1.
  rewrite walk_deeper by (simpl; lia).
  destruct (walk jptr offset data (initial schema) (walkSchema schema)) as [f|];
    [|reflexivity].
  simpl. f_equal. unfold container, deeperFlat; simpl. now rewrite map_app.
Qed.

End Offset.

(** *** The description of a row *)

Lemma split_from_nonempty (sep s : string) :
  forall skip, split_from sep skip s <> [].
Proof.
  induction s as [|c s IH]; intros skip; cbn [split_from]; [discriminate|].
  destruct skip as [|n]; [|apply IH].
  destruct (String.prefix sep (String c s)); [discriminate|].
  destruct (split_from sep 0 s); discriminate.
Qed.

Lemma withoutReturns_free (s : string) : ~ In carriageReturn (chars (withoutReturns s)).
Proof. unfold withoutReturns. apply rejoin_removes. intros []. Qed.

Lemma lineFeed_absent (s : string) :
  ~ In lineFeed (chars s) -> ~ In lineFeed (chars (withoutReturns s)).
Proof. intros H. unfold withoutReturns. apply rejoin_absent; [intros [] | exact H]. Qed.

(** The lines joined by spaces. *)
Lemma joined_free (s : string) (c : ascii) :
  c = lineFeed \/ c = carriageReturn ->
  ~ In c (chars (join " " (split_str (String lineFeed EmptyString) (withoutReturns s)))).
Proof.
  intros [-> | ->].
  - apply rejoin_removes. vm_compute. intuition discriminate.
  - apply rejoin_absent; [vm_compute; intuition discriminate | apply withoutReturns_free].
Qed.

(** The first line. *)
Lemma first_line_free (s : string) :
  exists line,
    at_index (split_str (String lineFeed EmptyString) (withoutReturns s)) 0 = VStr line
    /\ forall c, c = lineFeed \/ c = carriageReturn -> ~ In c (chars line).
Proof.
  unfold at_index, split_str.
  destruct (split_from (String lineFeed EmptyString) 0 (withoutReturns s))
    as [|line rest] eqn:Hsplit; [now apply split_from_nonempty in Hsplit|].
  exists line. split; [reflexivity|].
  assert (Hin : In line (split_str (String lineFeed EmptyString) (withoutReturns s)))
    by (unfold split_str; rewrite Hsplit; now left).
  intros c [-> | ->].
  - now apply (split_char_free lineFeed (withoutReturns s)).
  - intros H. apply (withoutReturns_free s).
    unfold split_str in Hin. eapply chars_split_from; eauto.
Qed.

Lemma reset_free (d : string) (c : ascii) :
  ~ In c (chars d) ->
  exists d', (if strict_equal (VStr d) (VStr "undefined") then VStr "" else VStr d) = VStr d'
             /\ ~ In c (chars d').
Proof.
  intros H. destruct (strict_equal (VStr d) (VStr "undefined")).
  - exists "". split; [reflexivity | intros []].
  - now exists d.
Qed.

(** X23.  With [join] or [truncate] among the options, a description that
    is a string comes out as a string of one line: it has no line feed and
    no carriage return. *)
Theorem formatDescription_single_line (formatOptions : FormatOptions) (s : string) :
  join_lines formatOptions || truncate formatOptions = true ->
  exists line,
    formatDescription formatOptions (VStr s) = VStr line
    /\ ~ In lineFeed (chars line) /\ ~ In carriageReturn (chars line).
Proof.
  intros Hon. unfold formatDescription.
  set (s1 := if trim formatOptions then trimmed s else s).
  replace (if trim formatOptions then VStr (trimmed s) else VStr s) with (VStr s1)
    by (unfold s1; now destruct (trim formatOptions)).
  cbv beta iota.
  destruct (join_lines formatOptions) eqn:Hjoin.
  - set (s2 := join " " (split_str (String lineFeed EmptyString) (withoutReturns s1))).
    assert (H2 : forall c, c = lineFeed \/ c = carriageReturn -> ~ In c (chars s2))
      by (intros c Hc; now apply joined_free).
    destruct (truncate formatOptions).
    + destruct (first_line_free s2) as (line & -> & Hline).
      destruct (strict_equal (VStr line) (VStr "undefined")).
      * exists "". repeat split; intros [].
      * exists line. repeat split; apply Hline; auto.
    + destruct (strict_equal (VStr s2) (VStr "undefined")).
      * exists "". repeat split; intros [].
      * exists s2. repeat split; apply H2; auto.
  - simpl in Hon. rewrite Hon.
    destruct (first_line_free s1) as (line & -> & Hline).
    destruct (strict_equal (VStr line) (VStr "undefined")).
    + exists "". repeat split; intros [].
    + exists line. repeat split; apply Hline; auto.
Qed.

(** *** The rows and the blocks at concrete inputs *)

Lemma rows_follow_visits_witness :
  subsequence
    (map entry_schema
         (flat_map rows (container (walked 0 (data_with false) (initial pet) pet_visits))))
    (map visit_schema pet_visits).
Proof.
  apply (rows_follow_visits no_pointer 0 (data_with false) (fun _ => pet_visits) pet
                            {| trim := true; join_lines := true; truncate := false |}).
  reflexivity.
Defined.

(** A schema without a title: the description stands in for it. *)
Lemma first_block_is_the_schema_witness :
  exists later,
    map header (container (walked 0 (data_with false) (initial described) described_visits))
    = (VStr "A cat or a dog", VStr "A cat or a dog",
       VObj [("url", VStr "https://example.com/pets")]) :: later
    /\ Forall titleOnly later.
Proof.
  apply (first_block_is_the_schema no_pointer 0 (data_with false)
           (fun _ => described_visits) described
           {| trim := true; join_lines := true; truncate := false |}).
  reflexivity.
Defined.

Example headers_of_described :
  option_map (map header)
    (schemaToArray no_pointer 0 (data_with false) (fun _ => described_visits) described
                   {| trim := true; join_lines := true; truncate := false |})
  = Some [(VStr "A cat or a dog", VStr "A cat or a dog",
           VObj [("url", VStr "https://example.com/pets")]);
          (VStr "oneOf", VUndefined, VUndefined);
          (VStr "xor - discriminator: petType", VUndefined, VUndefined)].
Proof. reflexivity. Qed.

Lemma required_of_listed_witness :
  exists new,
    all_rows (walked 0 (data_with false) (initial id_and_name)
                     [at_property id_schema id_and_name 1 "properties/id"])
    = (all_rows (initial id_and_name) ++ new)%list
    /\ (forall names,
          get id_and_name "required" = VArr names ->
          Forall (fun e => entry_required e = VBool (includes names (entry_name e))) new)
    /\ (get id_and_name "required" = VUndefined ->
        Forall (fun e => entry_required e = VBool false) new).
Proof.
  apply (required_of_listed no_pointer 0 (data_with false) (initial id_and_name) _
           (at_property id_schema id_and_name 1 "properties/id")).
  reflexivity.
Defined.

Lemma offset_shifts_depths_witness :
  schemaToArray no_pointer (1 + 2) (data_with true) (fun _ => two_references_visits)
                two_references {| trim := true; join_lines := true; truncate := false |}
  = option_map (map (deeperBlock 2))
      (schemaToArray no_pointer 1 (data_with true) (fun _ => two_references_visits)
                     two_references {| trim := true; join_lines := true; truncate := false |}).
Proof.
  apply (offset_shifts_depths no_pointer 1 2 (data_with true)); lia.
Defined.

Example formatDescription_three_lines :
  formatDescription {| trim := true; join_lines := true; truncate := false |} (VStr three_lines)
  = VStr "one two three"
  /\ formatDescription {| trim := true; join_lines := false; truncate := true |} (VStr three_lines)
     = VStr "one".
Proof. split; reflexivity. Qed.

Lemma formatDescription_single_line_witness :
  exists line,
    formatDescription {| trim := false; join_lines := false; truncate := true |}
                      (VStr three_lines) = VStr line
    /\ ~ In lineFeed (chars line) /\ ~ In carriageReturn (chars line).
Proof.
  apply (formatDescription_single_line
           {| trim := false; join_lines := false; truncate := true |} three_lines).
  reflexivity.
Defined.

(** ** inferType: when it throws, and what it returns *)

Lemma typeof_named (v : value) : typeof v <> "".
Proof. destruct v; discriminate. Qed.

Lemma keywordTypes_named (schema : value) : Forall (fun t => t <> "") (keywordTypes schema).
Proof.
  unfold keywordTypes.
  destruct (has schema object_keys), (has schema array_keys),
           (has schema number_keys), (has schema string_keys);
    simpl; repeat constructor; discriminate.
Qed.

(** X24.  [inferType] throws exactly when the schema is [undefined] or
    [null], or has no truthy [type] and a truthy [enum] that a [for..of]
    loop cannot run over (a number, [true], an object that is not an
    array); when it returns, what it returns is truthy: the [type] itself,
    a name of a type, or [any]. *)
Theorem inferType_throws (schema : value) :
  (inferType schema = None
   <-> schema = VUndefined
       \/ schema = VNull
       \/ (truthy (get schema "type") = false
           /\ truthy (get schema "enum") = true
           /\ iterate (get schema "enum") = None))
  /\ (forall t, inferType schema = Some t -> truthy t = true).
Proof.
  assert (Hnull : schema = VUndefined \/ schema = VNull
                  \/ (schema <> VUndefined /\ schema <> VNull)).
  { destruct schema; auto; right; right; split; discriminate. }
  destruct Hnull as [-> | [-> | [Hu Hn]]].
  - split; [split; auto | discriminate].
  - split; [split; auto | discriminate].
  - assert (Hbody : inferType schema
                    = if truthy (get schema "type") then Some (get schema "type")
                      else match possibleTypes schema with
                           | Some [t] => Some (VStr t)
                           | Some _ => Some (VStr "any")
                           | None => None
                           end)
      by (destruct schema; try reflexivity; contradiction).
    rewrite Hbody. clear Hbody. unfold possibleTypes, enumTypes.
    destruct (truthy (get schema "type")) eqn:Htype.
    + split.
      * split; [discriminate | intros [H | [H | [H _]]]; [contradiction.. | discriminate]].
      * intros t H. now injection H as <-.
    + destruct (truthy (get schema "enum")) eqn:Henum.
      * destruct (iterate (get schema "enum")) as [values|] eqn:Hiter.
        -- split.
           ++ split;
                [|intros [H | [H | (_ & _ & H)]]; [contradiction.. | discriminate]].
              now destruct (keywordTypes schema ++ map typeof values)%list as [|t [|t' rest]].
           ++ intros t.
              assert (Hnamed : Forall (fun t => t <> "")
                                      (keywordTypes schema ++ map typeof values)%list).
              { apply Forall_app. split; [apply keywordTypes_named|].
                rewrite Forall_map. apply Forall_forall. intros v _. apply typeof_named. }
              destruct (keywordTypes schema ++ map typeof values)%list as [|t1 [|t2 rest]];
                intros H; injection H as <-; try reflexivity.
              inversion Hnamed as [|? ? Ht _]; subst. simpl.
              destruct t1; [contradiction | reflexivity].
        -- split; [split; auto | discriminate].
      * split.
        -- split; [|intros [H | [H | (_ & H & _)]]; [contradiction.. | discriminate]].
           rewrite app_nil_r. now destruct (keywordTypes schema) as [|t [|t' rest]].
        -- intros t. rewrite app_nil_r.
           pose proof (keywordTypes_named schema) as Hnamed.
           destruct (keywordTypes schema) as [|t1 [|t2 rest]];
             intros H; injection H as <-; try reflexivity.
           inversion Hnamed as [|? ? Ht _]; subst. simpl.
           destruct t1; [contradiction | reflexivity].
Qed.

Example inferType_of_null : inferType VNull = None /\ inferType VUndefined = None.
Proof. split; reflexivity. Qed.

Example inferType_enum_of_a_number :
  inferType (VObj [("enum", VNum 3)]) = None.
Proof. reflexivity. Qed.

(** ** getCodeSamples *)

Lemma findLanguage_found (lc : string) (tabs more : list value) :
  findLanguage lc tabs = Some true -> findLanguage lc (tabs ++ more)%list = Some true.
Proof.
  induction tabs as [|target rest IH]; simpl; [discriminate|].
  destruct (isLanguage lc target) as [[|]|]; try discriminate; auto.
Qed.

(** What a call with [mutate] leaves: the tabs with at most one more, and
    the language among them. *)
Lemma languageCheck_mutate (language : string) (tabs tabs' : list value) (lang : value) :
  languageCheck language tabs true = Some (lang, tabs') ->
  (exists more, tabs' = (tabs ++ more)%list)
  /\ (lcLang language <> "__proto__" -> findLanguage (lcLang language) tabs' = Some true).
Proof.
  unfold languageCheck.
  destruct (findLanguage (lcLang language) tabs) as [[|]|] eqn:Hfind; [| |discriminate];
    intros H; injection H as <- <-.
  - split; [exists []; now rewrite app_nil_r | auto].
  - split; [now eexists|]. intros Hproto.
    rewrite (findLanguage_app _ _ _ Hfind). simpl. now rewrite isLanguage_newLang.
Qed.

Lemma providedSamples_records (samples : list value) :
  forall tabs out out' tabs',
    providedSamples samples tabs out = Some (out', tabs') ->
    (exists more, tabs' = (tabs ++ more)%list)
    /\ (forall sample language,
          In sample samples -> get sample "lang" = VStr language ->
          lcLang language <> "__proto__" ->
          findLanguage (lcLang language) tabs' = Some true).
Proof.
  induction samples as [|sample rest IH]; simpl; intros tabs out out' tabs' H.
  - injection H as <- <-. split; [exists []; now rewrite app_nil_r | intros ? ? []].
  - assert (Hrun : match languageCheckOf (get sample "lang") tabs true with
                   | Some (lang, tabs1) =>
                       providedSamples rest tabs1
                         (out ++ generateCodeSnippet lang (get sample "source"))
                   | None => None
                   end = Some (out', tabs'))
      by (destruct sample; try discriminate; exact H).
    clear H. unfold languageCheckOf in Hrun.
    destruct (get sample "lang") as [| |b|n|l|items|props] eqn:Hlang; try discriminate.
    destruct (languageCheck l tabs true) as [[lang tabs1]|] eqn:Hcheck; [|discriminate].
    destruct (languageCheck_mutate _ _ _ _ Hcheck) as [[more1 ->] Hfound].
    destruct (IH _ _ _ _ Hrun) as [[more2 ->] Hrest].
    split; [exists (more1 ++ more2)%list; now rewrite app_assoc|].
    intros sample' language [<- | Hin] Hlang' Hproto.
    + rewrite Hlang in Hlang'. injection Hlang' as <-.
      apply findLanguage_found. now apply Hfound.
    + now apply (Hrest sample').
Qed.

Section CodeSampleProperties.

Variable httpsnippetGenerate : SampleData -> value -> value -> value.
Variable templates : SampleData -> string -> option value.

(** X25.  When the operation brings samples of its own
    ([x-code-samples]), [getCodeSamples] only adds to
    [data.header.language_tabs], and afterwards [languageCheck] finds the
    language of every one of the samples there (the language [__proto__]
    apart). *)
Theorem getCodeSamples_records_languages (d : SampleData) (op : value)
    (out : string) (tabs' : list value) :
  op = (if truthy (data_operation d) then data_operation d else data_message d) ->
  truthy op && truthy (get op "x-code-samples") = true ->
  getCodeSamples httpsnippetGenerate templates d = Some (out, tabs') ->
  (exists more, tabs' = (header_language_tabs d ++ more)%list)
  /\ (forall sample language,
        In sample (valuesIn (get op "x-code-samples")) ->
        get sample "lang" = VStr language ->
        lcLang language <> "__proto__" ->
        languageCheck language tabs' false = Some (VStr (lcLang language), tabs')).
Proof.
  intros -> Hsamples. unfold getCodeSamples. rewrite Hsamples. intros Hrun.
  destruct (providedSamples_records _ _ _ _ _ Hrun) as [Hmore Hfound].
  split; [exact Hmore|]. intros sample language Hin Hlang Hproto.
  unfold languageCheck. now rewrite (Hfound sample language Hin Hlang Hproto).
Qed.

(** X26.  Without samples of its own, a tab for which [languageCheck]
    answers [false] (a name that is not in lower case, or [c#] for
    [csharp], with no tab of the lower-case name) gets the empty string,
    whatever the generator and the templates would give. *)
Theorem unlisted_tab_gets_no_sample (d : SampleData) (name : string) (client : value) :
  languageCheck name (header_language_tabs d) false
  = Some (VBool false, header_language_tabs d) ->
  getLanguageClient (VStr name) (options_language_clients d) = Some client ->
  tabSample httpsnippetGenerate templates d (VStr name) = Some "".
Proof.
  intros Hcheck Hclient. unfold tabSample. simpl. now rewrite Hcheck, Hclient.
Qed.

End CodeSampleProperties.

Lemma getCodeSamples_records_languages_witness :
  (exists more,
     (some_tabs ++ [VObj [("go", VStr "Go")]; VObj [("csharp", VStr "C#")]])%list
     = (header_language_tabs sampled_operation ++ more)%list)
  /\ (forall sample language,
        In sample (valuesIn (get (VObj [("x-code-samples", VArr [go_sample; csharp_sample])])
                                 "x-code-samples")) ->
        get sample "lang" = VStr language ->
        lcLang language <> "__proto__" ->
        languageCheck language
          (some_tabs ++ [VObj [("go", VStr "Go")]; VObj [("csharp", VStr "C#")]])%list false
        = Some (VStr (lcLang language),
                (some_tabs ++ [VObj [("go", VStr "Go")]; VObj [("csharp", VStr "C#")]])%list)).
Proof.
  apply (getCodeSamples_records_languages no_snippets echo_templates sampled_operation
           (VObj [("x-code-samples", VArr [go_sample; csharp_sample])])
           (generateCodeSnippet (VStr "go") (VStr "package main")
            ++ generateCodeSnippet (VStr "csharp") (VStr "class A {}")));
    reflexivity.
Defined.

Lemma unlisted_tab_gets_no_sample_witness :
  tabSample no_snippets echo_templates plain_operation (VStr "Shell") = Some "".
Proof.
  apply (unlisted_tab_gets_no_sample no_snippets echo_templates plain_operation
           "Shell" (VStr "")); reflexivity.
Defined.

(** The tab in lower case gets its sample; the other one does not. *)
Example getCodeSamples_plain_operation :
  getCodeSamples no_snippets echo_templates plain_operation
  = Some (generateCodeSnippet (VStr "python") (VStr "code_python"),
          [VStr "Shell"; VStr "python"]).
Proof. reflexivity. Qed.

(** ** The name of the row of a property *)

Section RowNames.

Variable jptr : value -> string -> value.
Variable offset : Z.
Variable data : Data.

Lemma indexOf_bound (sep : ascii) (s : string) : -1 <= indexOf sep s.
Proof.
  induction s as [|c s IH]; simpl; [lia|].
  destruct (Ascii.eqb c sep); [lia|]. destruct (indexOf sep s <? 0); lia.
Qed.

Lemma split_whole (sep : ascii) (s : string) :
  indexOf sep s = -1 -> split sep s = [s].
Proof.
  induction s as [|c s IH]; simpl; [reflexivity|].
  destruct (Ascii.eqb c sep); [discriminate|].
  pose proof (indexOf_bound sep s).
  destruct (indexOf sep s <? 0) eqn:Hneg; [|lia].
  intros _. rewrite IH by lia. reflexivity.
Qed.

Lemma indexOf_inside (sep : ascii) (s rest : string) :
  s <> "" -> indexOf sep s = -1 -> indexOf sep (s ++ rest) <> 0.
Proof.
  destruct s as [|c s]; [contradiction|]. intros _. simpl.
  destruct (Ascii.eqb c sep); [discriminate|]. intros _.
  pose proof (indexOf_bound sep (s ++ rest)).
  destruct (indexOf sep (s ++ rest) <? 0) eqn:Hneg; lia.
Qed.

(** A node that has a name keeps it through lines 340-351. *)
Lemma fallbackName_named (parent : value) (state : WalkState) (top : bool) (name : value) :
  truthy name = true -> fallbackName data parent state top name = name.
Proof.
  intros H. unfold fallbackName.
  destruct top; simpl; repeat (rewrite H; simpl); reflexivity.
Qed.

(** The name the code derives for the node at [container/name]. *)
Lemma visitName_property (v : Visit) (container name : string) :
  state_property (visit_state v) = Some (container ++ "/" ++ name) ->
  container <> "" -> indexOf "/" container = -1 ->
  isBlockProperty (Some (container ++ "/" ++ name)) = false ->
  name <> "" -> indexOf "/" name = -1 ->
  visitName data v = VStr name.
Proof.
  intros Hprop Hcontainer Hslash Hblock Hname Hplain.
  assert (Hpath : pathName data (visit_schema v) (visit_state v) = VStr name).
  { unfold pathName. rewrite Hprop, Hblock.
    change ("/" ++ name) with (String "/" name).
    rewrite (split_segment _ _ _ Hslash), (split_whole _ _ Hplain).
    replace (container ++ String "/" name =? "")%string with false
      by (now destruct container).
    replace (indexOf "/" (container ++ String "/" name) =? 0) with false
      by (symmetry; apply Z.eqb_neq; now apply indexOf_inside).
    unfold at_index; simpl.
    replace (name =? "")%string with false by (now destruct name).
    reflexivity. }
  unfold visitName. rewrite Hpath. apply fallbackName_named. now destruct name.
Qed.

(** X27.  A row pushed for the node at [container/name] of the walk (as
    [properties/id]; not a slot of [allOf], [anyOf] or [oneOf]) has the
    name [name], whatever the title of the node, when [name] is not empty
    and has no slash. *)
Theorem property_row_name (f f' : Flat) (v : Visit) (container name : string) :
  callback jptr offset data f v = Some f' ->
  state_property (visit_state v) = Some (container ++ "/" ++ name) ->
  container <> "" -> indexOf "/" container = -1 ->
  isBlockProperty (Some (container ++ "/" ++ name)) = false ->
  name <> "" -> indexOf "/" name = -1 ->
  exists new,
    all_rows f' = (all_rows f ++ new)%list
    /\ Forall (fun e => entry_name e = VStr name /\ entry_schema e = visit_schema v) new.
Proof.
  intros Hcb Hprop Hcontainer Hslash Hblock Hname Hplain.
  pose proof (visitName_property v container name Hprop Hcontainer Hslash Hblock Hname Hplain)
    as Hvisit.
  destruct (callback_effect _ _ _ _ _ _ Hcb) as (type & _ & _ & _ & Hrows).
  destruct (kept (visitTop data v) type (entry_name (visitRow offset data f v type)))
    eqn:Hkept.
  - exists [visitRow offset data f v type]. split; [exact Hrows|].
    constructor; [|constructor]. split; [|reflexivity].
    unfold kept in Hkept. apply andb_true_iff in Hkept as [_ Hnamed].
    simpl in *. now rewrite (blankName_kept _ _ _ Hnamed).
  - exists []. split; [exact Hrows | constructor].
Qed.

End RowNames.

Lemma property_row_name_witness :
  exists new,
    all_rows (walked 0 (data_with false) (initial id_and_name)
                     [at_property id_schema id_and_name 1 "properties/id"])
    = (all_rows (initial id_and_name) ++ new)%list
    /\ Forall (fun e => entry_name e = VStr "id"
                        /\ entry_schema e
                           = visit_schema (at_property id_schema id_and_name 1 "properties/id"))
              new.
Proof.
  apply (property_row_name no_pointer 0 (data_with false) (initial id_and_name) _
           (at_property id_schema id_and_name 1 "properties/id") "properties" "id");
    try reflexivity; discriminate.
Defined.

(** A property whose own name has a slash gets the part before it. *)
Example slash_in_a_name :
  visitName (data_with false)
            (at_property id_schema id_and_name 1 "properties/created/at")
  = VStr "created".
Proof. reflexivity. Qed.
